(** * Verification of [src/compiler/debug.ts]

    A shallow embedding of the [ts.Debug] namespace: the leveled logger, the
    assertion helpers, [formatEnum], [createDeprecation] and the stack-trace
    filter ([filterStack], [parseStackFrame], [formatStackFrame]), followed by
    the theorems that settle the specification's claims about them.

    Modelling conventions.
    - A JavaScript [number] is modelled by an integer ([Z]); the code only
      handles integer-valued numbers (enum values, line and column numbers,
      counters).  Bitwise operators work on the 32-bit two's-complement image
      of their operands, which is written out in [toInt32].
    - A JavaScript string is a [string] of 8-bit characters.
    - An optional parameter or property is an [option]; [None] is
      [undefined].
    - Code with effects (the log sink, thrown errors, mutable closure
      variables, heap objects) is written in explicit state-passing style. *)

From Stdlib Require Import ZArith List String Ascii Bool Lia Sorted.
From Stdlib Require Import DecimalString DecimalPos.
From stdpp Require Import gmap strings list.

Local Open Scope string_scope.
Local Open Scope Z_scope.

(* ================================================================== *)
(** * Part I: the embedding                                            *)
(* ================================================================== *)

(** ** JavaScript primitives *)

Abbreviation number := Z.

Definition CR : ascii := ascii_of_nat 13.
Definition LF : ascii := ascii_of_nat 10.
Definition CRLF : string := String CR (String LF "").

(** [Number.prototype.toString] on an integer-valued number. *)
Definition toString (n : number) : string :=
  NilZero.string_of_int (Z.to_int n).

(** Truthiness of an optional string: [undefined] and [""] are falsy. *)
Definition truthy (s : option string) : bool :=
  match s with
  | Some (String _ _) => true
  | _ => false
  end.

(** String coercion of an optional string, as in [undefined + "x"]. *)
Definition coerce (s : option string) : string :=
  match s with
  | Some s => s
  | None => "undefined"
  end.

(** [s || d] for an optional string [s]. *)
Definition orDefault (s : option string) (d : string) : string :=
  match s with
  | Some (String a s') => String a s'
  | _ => d
  end.

(** [ToInt32]: the operand conversion of the bitwise operators. *)
Definition toInt32 (n : number) : Z :=
  (n + 2 ^ 31) mod 2 ^ 32 - 2 ^ 31.

(** [a & b] *)
Definition bitAnd (a b : number) : number :=
  Z.land (toInt32 a) (toInt32 b).

(** [~a] *)
Definition bitNot (a : number) : number :=
  Z.lnot (toInt32 a).

(** ** ECMAScript regular expressions

    The regular expressions of the source are transcribed as terms of
    [regex] and run by a backtracking matcher with the priorities of the
    ECMAScript algorithm: alternatives left to right, greedy quantifiers
    longest first, lazy ones shortest first, a quantifier iteration that
    consumes nothing is not taken, look-aheads are atomic.  A quantified
    group keeps the capture of its last iteration (no capture of a
    quantified group is read by the source). *)

Inductive regex : Type :=
| rEmpty
| rChar (p : ascii -> bool)
| rSeq (r1 r2 : regex)
| rAlt (r1 r2 : regex)
| rStar (greedy : bool) (r : regex)
| rGroup (i : nat) (r : regex)
| rLook (positive : bool) (r : regex)
| rBol
| rEol
| rWordB.

Record MatchState : Type := {
  prev : option ascii;
  rest : string;
  caps : list (nat * string)
}.

(** The text between two positions, the second one further right. *)
Definition consumed (before after : string) : string :=
  substring 0 (String.length before - String.length after) before.

Definition setCap (i : nat) (before after : MatchState) : MatchState :=
  {| prev := prev after;
     rest := rest after;
     caps := (i, consumed (rest before) (rest after)) :: caps after |}.

Fixpoint getCap (i : nat) (c : list (nat * string)) : option string :=
  match c with
  | [] => None
  | (j, s) :: c' => if Nat.eqb i j then Some s else getCap i c'
  end.

Definition isDigit (c : ascii) : bool :=
  let n := nat_of_ascii c in (48 <=? n)%nat && (n <=? 57)%nat.

Definition isLetter (c : ascii) : bool :=
  let n := nat_of_ascii c in
  ((65 <=? n)%nat && (n <=? 90)%nat) || ((97 <=? n)%nat && (n <=? 122)%nat).

Definition isWordChar (c : ascii) : bool :=
  isLetter c || isDigit c || Ascii.eqb c "_".

Definition isLineTerminator (c : ascii) : bool :=
  Ascii.eqb c LF || Ascii.eqb c CR.

Definition isSpace (c : ascii) : bool :=
  let n := nat_of_ascii c in
  ((9 <=? n)%nat && (n <=? 13)%nat) || (n =? 32)%nat || (n =? 160)%nat.

(** The iterations of a quantifier [r*] or [r*?]; [body] matches [r].  An
    iteration has to consume something, so [fuel] equal to the length of
    the remaining text is never used up. *)
Fixpoint starLoop
    (body : (MatchState -> option MatchState) -> MatchState -> option MatchState)
    (greedy : bool) (k : MatchState -> option MatchState)
    (fuel : nat) (st : MatchState) {struct fuel} : option MatchState :=
  match fuel with
  | O => k st
  | S fuel' =>
      let again (_ : unit) :=
        body (fun st' =>
                if (String.length (rest st') <? String.length (rest st))%nat
                then starLoop body greedy k fuel' st'
                else None) st in
      if greedy
      then match again tt with Some m => Some m | None => k st end
      else match k st with Some m => Some m | None => again tt end
  end.

(** [rmatch r k st]: match [r] at [st], then continue with [k]; on failure
    of [k] the next alternative of [r] is tried. *)
Fixpoint rmatch (r : regex) (k : MatchState -> option MatchState)
    (st : MatchState) {struct r} : option MatchState :=
  match r with
  | rEmpty => k st
  | rChar p =>
      match rest st with
      | String a s' =>
          if p a then k {| prev := Some a; rest := s'; caps := caps st |}
          else None
      | EmptyString => None
      end
  | rSeq r1 r2 => rmatch r1 (rmatch r2 k) st
  | rAlt r1 r2 =>
      match rmatch r1 k st with
      | Some m => Some m
      | None => rmatch r2 k st
      end
  | rStar greedy r1 =>
      starLoop (rmatch r1) greedy k (String.length (rest st)) st
  | rGroup i r1 => rmatch r1 (fun st' => k (setCap i st st')) st
  | rLook positive r1 =>
      match rmatch r1 Some st with
      | Some st' =>
          if positive
          then k {| prev := prev st; rest := rest st; caps := caps st' |}
          else None
      | None => if positive then None else k st
      end
  | rBol => match prev st with None => k st | Some _ => None end
  | rEol => match rest st with EmptyString => k st | String _ _ => None end
  | rWordB =>
      let a := match prev st with Some c => isWordChar c | None => false end in
      let b := match rest st with String c _ => isWordChar c | EmptyString => false end in
      if xorb a b then k st else None
  end.

(** A successful match: the text before it and the state at its end. *)
Record MatchResult : Type := {
  before : string;
  final : MatchState
}.

(** [RegExp.prototype.exec] without the [g] flag: the first position, from
    the left, at which the expression matches. *)
Fixpoint search (r : regex) (p : option ascii) (s : string) : option MatchResult :=
  match rmatch r Some {| prev := p; rest := s; caps := [] |} with
  | Some m => Some {| before := ""; final := m |}
  | None =>
      match s with
      | String a s' =>
          match search r (Some a) s' with
          | Some res => Some {| before := String a (before res); final := final res |}
          | None => None
          end
      | EmptyString => None
      end
  end.

Definition exec (r : regex) (s : string) : option MatchResult := search r None s.

(** [RegExp.prototype.test] *)
Definition test (r : regex) (s : string) : bool :=
  match exec r s with Some _ => true | None => false end.

(** Capture group [i] of a match ([undefined] when it did not take part). *)
Definition group (i : nat) (m : MatchResult) : option string :=
  getCap i (caps (final m)).

Fixpoint rLit (s : string) : regex :=
  match s with
  | EmptyString => rEmpty
  | String c s' => rSeq (rChar (Ascii.eqb c)) (rLit s')
  end.

Definition rOpt (r : regex) : regex := rAlt r rEmpty.
Definition rPlus (r : regex) : regex := rSeq r (rStar true r).
Definition rDot : regex := rChar (fun c => negb (isLineTerminator c)).
Definition rNot (c : ascii) : regex := rChar (fun a => negb (Ascii.eqb a c)).
Definition rDigit : regex := rChar isDigit.
Definition rSpace : regex := rChar isSpace.

(** [a b c ...] in sequence. *)
Fixpoint rCat (rs : list regex) : regex :=
  match rs with
  | [] => rEmpty
  | [r] => r
  | r :: rs' => rSeq r (rCat rs')
  end.

(** [a|b|c ...] *)
Fixpoint rAny (rs : list regex) : regex :=
  match rs with
  | [] => rEmpty
  | [r] => r
  | r :: rs' => rAlt r (rAny rs')
  end.

(** [parseInt(s, 10)] on a digit string: the value of the leading digits. *)
Fixpoint parseDigits (acc : number) (s : string) : number :=
  match s with
  | String c s' =>
      if isDigit c
      then parseDigits (10 * acc + (Z.of_nat (nat_of_ascii c) - 48)) s'
      else acc
  | EmptyString => acc
  end.

Definition parseInt10 (s : string) : number := parseDigits 0 s.

(** [s.split(/\r\n?|\n/g)] *)
Fixpoint splitLines (s : string) : list string :=
  match s with
  | EmptyString => [""]
  | String c s' =>
      if Ascii.eqb c CR then
        match s' with
        | String c' s'' =>
            if Ascii.eqb c' LF then "" :: splitLines s'' else "" :: splitLines s'
        | EmptyString => "" :: splitLines s'
        end
      else if Ascii.eqb c LF then "" :: splitLines s'
      else
        match splitLines s' with
        | l :: ls => String c l :: ls
        | [] => [String c ""]
        end
  end.

(** [lines.join(sep)] *)
Fixpoint join (sep : string) (lines : list string) : string :=
  match lines with
  | [] => ""
  | [l] => l
  | l :: ls => l +:+ sep +:+ join sep ls
  end.

Module Debug.

(** ** Declarations *)

Inductive LogLevel : Type :=
| Off
| Error
| Warning
| Info
| Verbose.

(** The numeric value of an enum member. *)
Definition LogLevel_value (l : LogLevel) : number :=
  match l with
  | Off => 0
  | Error => 1
  | Warning => 2
  | Info => 3
  | Verbose => 4
  end.

(** [interface LoggingHost { log(level, s): void }].  The host object is a
    value of type [H]; calling its method yields the host after the call. *)
Class LoggingHost (H : Type) : Type :=
  host_log : LogLevel -> string -> H -> H.

Record DeprecationOptions : Type := {
  message : option string;
  error : option bool;
  since : option string;
  until : option string
}.

(** Functions used as stack-crawl marks ([AnyFunction] arguments that are
    only passed on to [Error.captureStackTrace]). *)
Inductive CrawlMark : Type :=
| fn_assert
| fn_fail
| fn_assertEachNode
| fn_assertNode
| fn_assertOptionalNode
| fn_assertOptionalToken
| fn_assertMissingNode
| fn_failBadSyntaxKind
| fn_handleDeprecation.

(** A thrown value: an [Error] built by [fail], with its message and the
    function handed to [Error.captureStackTrace], or the [TypeError] of a
    property read on [undefined]. *)
Inductive JsError : Type :=
| mkError (errorMessage : string) (errorCrawlMark : CrawlMark)
| TypeError.

Inductive result (A : Type) : Type :=
| Ok (a : A)
| Throw (e : JsError).
Arguments Ok {A} a.
Arguments Throw {A} e.

(** The mutable variables of the namespace. *)
Record DebugState (H : Type) : Type := {
  currentAssertionLevel : number;
  currentLogLevel : LogLevel;
  isDebugging : bool;
  loggingHost : option H
}.
Arguments currentAssertionLevel {H} _.
Arguments currentLogLevel {H} _.
Arguments isDebugging {H} _.
Arguments loggingHost {H} _.

(** A computation that may read and write the namespace state and may
    throw.  State changes made before a throw persist. *)
Definition M (H A : Type) : Type := DebugState H -> result A * DebugState H.

Definition ret {H A : Type} (a : A) : M H A := fun w => (Ok a, w).

Definition bind {H A B : Type} (m : M H A) (f : A -> M H B) : M H B :=
  fun w =>
    match m w with
    | (Ok a, w') => f a w'
    | (Throw e, w') => (Throw e, w')
    end.

Notation "x <- m ;; k" := (bind m (fun x => k))
  (at level 100, m at next level, right associativity).

(** A JavaScript function value: its own [name] property (if it has one),
    its source text, and its behaviour when called. *)
Record JsFunction (H A B : Type) : Type := {
  fn_ownName : option (option string);
  fn_text : string;
  fn_call : A -> M H B
}.
Arguments fn_ownName {H A B} _.
Arguments fn_text {H A B} _.
Arguments fn_call {H A B} _.

(** Modelled from the spec: [Node] is declared outside the given sources;
    the assertions below only read its categorical tag [kind]. *)
Record Node : Type := { kind : number }.

(** [verboseDebugInfo?: string | (() => string)] *)
Inductive VerboseInfo (H : Type) : Type :=
| InfoString (s : string)
| InfoThunk (f : M H string).
Arguments InfoString {H} s.
Arguments InfoThunk {H} f.

(** ** Enumeration formatter *)

(** A property value of an enum container. *)
Inductive JsValue : Type :=
| JsNumber (n : number)
| JsString (s : string)
| JsOther.

(** An enum container: its enumerable properties in [for...in] order. *)
Definition EnumObject : Type := list (string * JsValue).

(** Modelled from the spec: [compareValues] and [stableSort] are declared
    outside the given sources.  The spec fixes their result: the members
    sorted ascending by value, ties in their original order. *)
Definition compareValues (a b : number) : comparison := Z.compare a b.

Fixpoint insertSorted {A : Type} (comparer : A -> A -> comparison)
    (x : A) (l : list A) : list A :=
  match l with
  | [] => [x]
  | y :: l' =>
      match comparer x y with
      | Gt => y :: insertSorted comparer x l'
      | _ => x :: y :: l'
      end
  end.

Definition stableSort {A : Type} (array : list A)
    (comparer : A -> A -> comparison) : list A :=
  foldr (insertSorted comparer) [] array.

Fixpoint collectEnumMembers (enumObject : EnumObject) : list (number * string) :=
  match enumObject with
  | [] => []
  | (name, JsNumber value) :: rest' => (value, name) :: collectEnumMembers rest'
  | _ :: rest' => collectEnumMembers rest'
  end.

Definition getEnumMembers (enumObject : EnumObject) : list (number * string) :=
  stableSort (collectEnumMembers enumObject)
             (fun x y => compareValues (fst x) (fst y)).

(** [!filterEnum || filterEnum(enumValue, enumName)] *)
Definition passesFilter (filterEnum : option (number -> string -> bool))
    (enumValue : number) (enumName : string) : bool :=
  match filterEnum with
  | None => true
  | Some f => f enumValue enumName
  end.

(** The loop
    [for (let i = members.length - 1; i >= 0 && remainingFlags !== 0; i--)];
    [n] is [i + 1]. *)
Fixpoint flagsLoop (members : list (number * string))
    (filterEnum : option (number -> string -> bool))
    (n : nat) (remainingFlags : number) (result : string) : number * string :=
  match n with
  | O => (remainingFlags, result)
  | S i =>
      if remainingFlags =? 0 then (remainingFlags, result)
      else
        match members !! i with
        | Some (enumValue, enumName) =>
            if passesFilter filterEnum enumValue enumName
               && negb (enumValue =? 0)
               && (bitAnd remainingFlags enumValue =? enumValue)
            then flagsLoop members filterEnum i
                   (bitAnd remainingFlags (bitNot enumValue))
                   (enumName +:+ (if truthy (Some result) then "|" else "") +:+ result)
            else flagsLoop members filterEnum i remainingFlags result
        | None => (remainingFlags, result)
        end
  end.

(** The loop [for (const [enumValue, enumName] of members)] with its
    early [return]. *)
Fixpoint firstNamed (members : list (number * string)) (value : number)
    : option string :=
  match members with
  | [] => None
  | (enumValue, enumName) :: rest' =>
      if enumValue =? value then Some enumName else firstNamed rest' value
  end.

(** [value] is optional with default [0]; an omitted [isFlags] is falsy. *)
Definition formatEnum (value : option number) (enumObject : EnumObject)
    (isFlags : bool) (filterEnum : option (number -> string -> bool)) : string :=
  let value := default 0 value in
  let members := getEnumMembers enumObject in
  if value =? 0 then
    let zeroMembers := List.filter (fun member => fst member =? 0) members in
    match zeroMembers with
    | member :: _ => snd member
    | [] => "0"
    end
  else if isFlags then
    let '(remainingFlags, result) :=
      flagsLoop members filterEnum (length members) value "" in
    if remainingFlags =? 0 then result else toString value
  else
    match firstNamed members value with
    | Some enumName => enumName
    | None => toString value
    end.

Definition formatSyntaxKind (SyntaxKind : EnumObject) (kind : option number) : string :=
  formatEnum kind SyntaxKind false None.

(** [/^function\s+([\w\$]+)\s*\(/] *)
Definition functionNameRegExp : regex :=
  rCat [rBol; rLit "function"; rPlus rSpace;
        rGroup 1 (rPlus (rChar (fun c => isWordChar c || Ascii.eqb c "$")));
        rStar true rSpace; rLit "("].

Section Logger.
Context {H : Type} `{LoggingHost H}.

Definition shouldLog (level : LogLevel) (w : DebugState H) : bool :=
  LogLevel_value (currentLogLevel w) <=? LogLevel_value level.

Definition logMessage (level : LogLevel) (s : string) : M H unit :=
  fun w =>
    match loggingHost w with
    | Some host =>
        if shouldLog level w
        then (Ok tt, {| currentAssertionLevel := currentAssertionLevel w;
                        currentLogLevel := currentLogLevel w;
                        isDebugging := isDebugging w;
                        loggingHost := Some (host_log level s host) |})
        else (Ok tt, w)
    | None => (Ok tt, w)
    end.

Definition log (s : string) : M H unit := logMessage Info s.

Definition log_error (s : string) : M H unit := logMessage Error s.
Definition log_warn (s : string) : M H unit := logMessage Warning s.
Definition log_log (s : string) : M H unit := logMessage Info s.
Definition log_trace (s : string) : M H unit := logMessage Verbose s.

(** ** Assertions *)

Definition shouldAssert (level : number) (w : DebugState H) : bool :=
  level <=? currentAssertionLevel w.

Definition fail {A : Type} (message : option string)
    (stackCrawlMark : option CrawlMark) : M H A :=
  fun w =>
    (Throw (mkError (if truthy message
                     then "Debug Failure. " +:+ coerce message
                     else "Debug Failure.")
                    (default fn_fail stackCrawlMark)), w).

Definition assert (expression : bool) (message : option string)
    (verboseDebugInfo : option (VerboseInfo H))
    (stackCrawlMark : option CrawlMark) : M H unit :=
  if negb expression then
    message' <-
      match verboseDebugInfo with
      | Some (InfoString s) =>
          if truthy (Some s)
          then ret (Some (coerce message +:+ CRLF +:+ "Verbose Debug Information: " +:+ s))
          else ret message
      | Some (InfoThunk f) =>
          s <- f ;;
          ret (Some (coerce message +:+ CRLF +:+ "Verbose Debug Information: " +:+ s))
      | None => ret message
      end ;;
    fail (if truthy message'
          then Some ("False expression: " +:+ coerce message')
          else Some "False expression.")
         (Some (default fn_assert stackCrawlMark))
  else ret tt.

Definition assertLessThan (a b : number) (msg : option string) : M H unit :=
  if a >=? b
  then fail (Some ("Expected " +:+ toString a +:+ " < " +:+ toString b +:+ ". "
                   +:+ orDefault msg "")) None
  else ret tt.

Definition assertLessThanOrEqual (a b : number) : M H unit :=
  if a >? b
  then fail (Some ("Expected " +:+ toString a +:+ " <= " +:+ toString b)) None
  else ret tt.

Definition assertGreaterThanOrEqual (a b : number) : M H unit :=
  if a <? b
  then fail (Some ("Expected " +:+ toString a +:+ " >= " +:+ toString b)) None
  else ret tt.

(** ** Node assertions *)

Definition getFunctionName {A B : Type} (func : option (JsFunction H A B)) : string :=
  match func with
  | None => ""
  | Some f =>
      match fn_ownName f with
      | Some name => orDefault name ""
      | None =>
          match exec functionNameRegExp (fn_text f) with
          | Some m => coerce (group 1 m)
          | None => ""
          end
      end
  end.

(** Modelled from the spec: [every] and [noop] are declared outside the
    given sources; [every] is the usual left-to-right test of all
    elements that stops at the first failure. *)
Fixpoint every {A : Type} (array : list A) (callback : JsFunction H A bool)
    : M H bool :=
  match array with
  | [] => ret true
  | a :: array' =>
      b <- fn_call callback a ;;
      if b then every array' callback else ret false
  end.

Definition noop {A B C : Type} (_ : A) (_ : B) (_ : C) : M H unit := ret tt.

(** [const assertEachNode = shouldAssert(AssertionLevel.Normal) ? ... : noop]:
    the choice is made once, in the state [w0] in which the namespace body
    runs; [Normal] is the value of [AssertionLevel.Normal]. *)
Definition assertEachNode (Normal : number) (w0 : DebugState H)
    : list Node -> option (JsFunction H Node bool) -> option string -> M H unit :=
  if shouldAssert Normal w0
  then fun nodes test message =>
    passed <- match test with
              | None => ret true
              | Some t => every nodes t
              end ;;
    assert passed
      (Some (orDefault message "Unexpected node."))
      (Some (InfoThunk
         (ret ("Node array did not pass test '" +:+ getFunctionName test +:+ "'."))))
      (Some fn_assertEachNode)
  else noop.

Definition assertNode (SyntaxKind : EnumObject) (Normal : number) (w0 : DebugState H)
    : option Node -> option (JsFunction H (option Node) bool) -> option string
      -> M H unit :=
  if shouldAssert Normal w0
  then fun node test message =>
    passed <- match test with
              | None => ret true
              | Some t => fn_call t node
              end ;;
    assert passed
      (Some (orDefault message "Unexpected node."))
      (Some (InfoThunk
         (match node with
          | Some n =>
              ret ("Node " +:+ formatSyntaxKind SyntaxKind (Some (kind n))
                   +:+ " did not pass test '" +:+ getFunctionName test +:+ "'.")
          | None => fun w => (Throw TypeError, w)
          end)))
      (Some fn_assertNode)
  else noop.

(** ** Deprecations *)

(** The closure returned by [createDeprecation]: the captured [options]
    and [formattedMessage], and the closure variable
    [hasWrittenDeprecation]. *)
Record Deprecation : Type := {
  options : DeprecationOptions;
  formattedMessage : string;
  hasWrittenDeprecation : bool
}.

Definition isSet (b : option bool) : bool := default false b.

(** [formatStringFromArgs] is declared outside the given sources and is
    taken as a parameter. *)
Definition createDeprecation
    (formatStringFromArgs : string -> list string -> number -> string)
    (name : string) (options : option DeprecationOptions) : Deprecation :=
  let options := default {| message := None; error := None;
                            since := None; until := None |} options in
  let formattedMessage :=
    if isSet (error options) then "DeprecationError: " else "DeprecationWarning: " in
  let formattedMessage :=
    formattedMessage +:+ "'" +:+ name +:+ "' " +:+
    (if truthy (since options)
     then "has been deprecated since " +:+ coerce (since options)
     else "is deprecated") in
  let formattedMessage :=
    formattedMessage +:+
    (if isSet (error options) then " and can no longer be used."
     else if truthy (until options)
          then " and will no longer be usable after " +:+ coerce (until options) +:+ "."
          else ".") in
  let formattedMessage :=
    formattedMessage +:+
    (if truthy (message options)
     then " " +:+ formatStringFromArgs (coerce (message options)) [name] 0
     else "") in
  {| options := options;
     formattedMessage := formattedMessage;
     hasWrittenDeprecation := false |}.

(** One call of the closure: the outcome, the closure afterwards and the
    namespace state afterwards. *)
Definition handleDeprecation (d : Deprecation) (w : DebugState H)
    : result unit * Deprecation * DebugState H :=
  if isSet (error (options d)) then
    let '(r, w') := fail (Some (formattedMessage d)) (Some fn_handleDeprecation) w in
    (r, d, w')
  else if hasWrittenDeprecation d then (Ok tt, d, w)
  else
    let d' := {| options := options d;
                 formattedMessage := formattedMessage d;
                 hasWrittenDeprecation := true |} in
    let '(r, w') := log_warn (formattedMessage d) w in
    (r, d', w').

End Logger.

(** ** Stack traces *)

#[warnings="-register-all"] Inductive StackFrame : Type := mkStackFrame {
  typeName : option string;
  functionName : option string;
  methodName : option string;
  fileName : option string;
  lineNumber : option number;
  columnNumber : option number;
  evalOrigin : option StackFrame;
  isConstructor : option bool;
  isAsync : option bool
}.

Record FilterStackOptions : Type := {
  stackTraceLimit : option number;
  exclude : option (StackFrame -> bool);
  excludeNode : bool;
  excludeTypeScript : bool;
  excludeMocha : bool;
  excludeBuiltin : bool;
  rewriteFrame : option (StackFrame -> StackFrame)
}.

(** What the filter takes from the rest of the compiler: [ts.sys.resolvePath],
    the path helpers [isRootedDiskPath] and [normalizeSlashes] (declared
    outside the given sources) and the current value of the variable
    [filterStack.defaultRewriteFrame]. *)
Class StackEnv : Type := {
  resolvePath : string -> string;
  isRootedDiskPath : string -> bool;
  normalizeSlashes : string -> string;
  defaultRewriteFrame : StackFrame -> StackFrame
}.

(** [/^eval at (.* )$/] (in these comments a blank separates a star from
    a closing parenthesis that follows it in the source) *)
Definition evalLocationRegExp : regex :=
  rCat [rBol; rLit "eval at "; rGroup 1 (rStar true rDot); rEol].

(** [/^(native|unknown location|<anonymous>|(?:(?:[a-zA-Z]|file|https?):)?[^:]+)(?::(\d+)(?::(\d+))?)?$/] *)
Definition fileLocationRegExp : regex :=
  rCat [rBol;
        rGroup 1
          (rAny [rLit "native";
                 rLit "unknown location";
                 rLit "<anonymous>";
                 rSeq (rOpt (rSeq (rAny [rChar isLetter;
                                         rLit "file";
                                         rSeq (rLit "http") (rOpt (rLit "s"))])
                                  (rLit ":")))
                      (rPlus (rNot ":"))]);
        rOpt (rCat [rLit ":"; rGroup 2 (rPlus rDigit);
                    rOpt (rSeq (rLit ":") (rGroup 3 (rPlus rDigit)))]);
        rEol].

(** [/^(async )?(new )?((?:[^.]+\.)+)?((?:(?! [\[(]).)* )(?: \[as ([^\]]+)\])? \((.* )\)$/] *)
Definition positionRegExp : regex :=
  rCat [rBol;
        rOpt (rGroup 1 (rLit "async "));
        rOpt (rGroup 2 (rLit "new "));
        rOpt (rGroup 3 (rPlus (rSeq (rPlus (rNot ".")) (rLit "."))));
        rGroup 4 (rStar true
          (rSeq (rLook false (rSeq (rLit " ") (rAlt (rLit "[") (rLit "("))))
                rDot));
        rOpt (rCat [rLit " [as "; rGroup 5 (rPlus (rNot "]")); rLit "]"]);
        rLit " (";
        rGroup 6 (rStar true rDot);
        rLit ")";
        rEol].

(** [/^    at (.* )$/] *)
Definition frameLineRegExp : regex :=
  rCat [rBol; rLit "    at "; rGroup 1 (rStar true rDot); rEol].

(** [/\bfile:\/\/\/(.*?)(?=(:\d+)*($|\)))/] *)
Definition fileUrlRegExp : regex :=
  rCat [rWordB; rLit "file:///";
        rGroup 1 (rStar false rDot);
        rLook true (rSeq (rStar true (rGroup 2 (rSeq (rLit ":") (rPlus rDigit))))
                         (rGroup 3 (rAlt rEol (rLit ")"))))].

(** [/[/](node_modules|components)[/]mocha(js)?[/]|[/]mocha\.js$/] *)
Definition mochaRegExp : regex :=
  rAlt (rCat [rLit "/"; rGroup 1 (rAlt (rLit "node_modules") (rLit "components"));
              rLit "/"; rLit "mocha"; rOpt (rGroup 2 (rLit "js")); rLit "/"])
       (rCat [rLit "/"; rLit "mocha.js"; rEol]).

(** [/(timers|events|node|module)\.js$/] *)
Definition nodeRegExp : regex :=
  rCat [rGroup 1 (rAny [rLit "timers"; rLit "events"; rLit "node"; rLit "module"]);
        rLit ".js"; rEol].

(** [/([/]|^)(built[/]local|lib)[/](cancellationToken|tsc|tsserver(library)?|typescript(Services)?|typingsInstaller|watchGuard|run)\.js/] *)
Definition builtRegExp : regex :=
  rCat [rGroup 1 (rAlt (rLit "/") rBol);
        rGroup 2 (rAlt (rLit "built/local") (rLit "lib"));
        rLit "/";
        rGroup 3 (rAny [rLit "cancellationToken";
                        rLit "tsc";
                        rSeq (rLit "tsserver") (rOpt (rGroup 4 (rLit "library")));
                        rSeq (rLit "typescript") (rOpt (rGroup 5 (rLit "Services")));
                        rLit "typingsInstaller";
                        rLit "watchGuard";
                        rLit "run"]);
        rLit ".js"].

(** [/([/]|^)src[/](compat|compiler|harness|server|services|shims|testRunner|tsc|tsserver|tsserverlibrary|typescriptServices|typingsInstaller(Core)?|watchGuard)[/]/] *)
Definition srcRegExp : regex :=
  rCat [rGroup 1 (rAlt (rLit "/") rBol);
        rLit "src"; rLit "/";
        rGroup 2 (rAny [rLit "compat"; rLit "compiler"; rLit "harness";
                        rLit "server"; rLit "services"; rLit "shims";
                        rLit "testRunner"; rLit "tsc"; rLit "tsserver";
                        rLit "tsserverlibrary"; rLit "typescriptServices";
                        rSeq (rLit "typingsInstaller") (rOpt (rGroup 3 (rLit "Core")));
                        rLit "watchGuard"]);
        rLit "/"].

(** [s.slice(0, -1)] *)
Definition dropLast (s : string) : string :=
  substring 0 (String.length s - 1) s.

Definition emptyFrame : StackFrame :=
  {| typeName := None; functionName := None; methodName := None;
     fileName := None; lineNumber := None; columnNumber := None;
     evalOrigin := None; isConstructor := None; isAsync := None |}.

(** An [Error] object: its [stack] property and its other properties. *)
Record ErrorObject (V : Type) : Type := {
  stack : option string;
  properties : gmap string V
}.
Arguments stack {V} _.
Arguments properties {V} _.

(** The first argument of [filterStack]: a string, or a reference to an
    [Error] object. *)
Inductive ErrorOrString : Type :=
| AString (s : string)
| AnError (ref : nat).

Section StackTraces.
Context `{StackEnv}.

(** [parseStackFrameLocation], with the recursive call to
    [parseStackFrame] as a parameter. *)
Definition parseStackFrameLocationWith
    (parseStackFrame : string -> option StackFrame) (location : string)
    : option StackFrame :=
  match exec evalLocationRegExp location with
  | Some m =>
      match parseStackFrame (coerce (group 1 m)) with
      | Some origin =>
          Some {| typeName := None; functionName := None; methodName := None;
                  fileName := None; lineNumber := None; columnNumber := None;
                  evalOrigin := Some origin;
                  isConstructor := None; isAsync := None |}
      | None => None
      end
  | None =>
      match exec fileLocationRegExp location with
      | Some m =>
          Some {| typeName := None; functionName := None; methodName := None;
                  fileName := group 1 m;
                  lineNumber :=
                    match group 2 m with
                    | Some line => Some (parseInt10 line - 1)
                    | None => None
                    end;
                  columnNumber :=
                    match group 3 m with
                    | Some character => Some (parseInt10 character - 1)
                    | None => None
                    end;
                  evalOrigin := None;
                  isConstructor := None; isAsync := None |}
      | None => None
      end
  end.

(** [parseStackFrame]; each nested call works on a strictly shorter text,
    so [fuel] above the length of [line] is never used up. *)
Fixpoint parseStackFrameFuel (fuel : nat) (line : string) : option StackFrame :=
  match fuel with
  | O => None
  | S fuel' =>
      match exec frameLineRegExp line with
      | None => None
      | Some m =>
          let position := coerce (group 1 m) in
          match exec positionRegExp position with
          | Some m =>
              let location :=
                default emptyFrame
                  (parseStackFrameLocationWith (parseStackFrameFuel fuel')
                     (coerce (group 6 m))) in
              Some {| typeName :=
                        match group 3 m with
                        | Some (String a t) => Some (dropLast (String a t))
                        | other => other
                        end;
                      functionName := group 4 m;
                      methodName := group 5 m;
                      fileName := fileName location;
                      lineNumber := lineNumber location;
                      columnNumber := columnNumber location;
                      evalOrigin := evalOrigin location;
                      isConstructor := Some (truthy (group 2 m));
                      isAsync := Some (truthy (group 1 m)) |}
          | None =>
              match parseStackFrameLocationWith (parseStackFrameFuel fuel') position with
              | Some location =>
                  if match evalOrigin location with Some _ => true | None => false end
                     || (truthy (fileName location)
                         && isRootedDiskPath (coerce (fileName location)))
                  then Some location
                  else None
              | None => None
              end
          end
      end
  end.

Definition parseStackFrame (line : string) : option StackFrame :=
  parseStackFrameFuel (S (String.length line)) line.

Definition parseStackFrameLocation (location : string) : option StackFrame :=
  parseStackFrameLocationWith parseStackFrame location.

(** [formatLocation], with the recursive call to [formatStackFrame] as a
    parameter. *)
Definition formatLocationWith (formatStackFrame : StackFrame -> string)
    (frame : StackFrame) : string :=
  if truthy (fileName frame) then
    let s := coerce (fileName frame) in
    match lineNumber frame with
    | Some line =>
        let s := s +:+ ":" +:+ toString (line + 1) in
        match columnNumber frame with
        | Some column => s +:+ ":" +:+ toString (column + 1)
        | None => s
        end
    | None => s
    end
  else
    match evalOrigin frame with
    | Some origin => "eval at " +:+ formatStackFrame origin
    | None => "unknown location"
    end.

Fixpoint formatStackFrame (frame : StackFrame) : string :=
  let s := "    at " in
  if truthy (functionName frame) then
    let s := if isSet (isAsync frame) then s +:+ "async "
             else if isSet (isConstructor frame) then s +:+ "new "
             else s in
    let s := if truthy (typeName frame)
             then s +:+ coerce (typeName frame) +:+ "."
             else s in
    let s := s +:+ coerce (functionName frame) in
    let s := if truthy (methodName frame)
             then s +:+ " [as " +:+ coerce (methodName frame) +:+ "]"
             else s in
    s +:+ " (" +:+ formatLocationWith formatStackFrame frame +:+ ")"
  else
    s +:+ formatLocationWith formatStackFrame frame.

Definition formatLocation (frame : StackFrame) : string :=
  formatLocationWith formatStackFrame frame.

Definition fileNameIs (frame : StackFrame) (name : string) : bool :=
  match fileName frame with
  | Some f => String.eqb f name
  | None => false
  end.

Definition isMochaStackFrame (frame : StackFrame) : bool :=
  truthy (fileName frame)
  && test mochaRegExp (normalizeSlashes (coerce (fileName frame))).

Definition isNodeStackFrame (frame : StackFrame) : bool :=
  truthy (fileName frame) && test nodeRegExp (coerce (fileName frame)).

Definition isTypeScriptStackFrame (frame : StackFrame) : bool :=
  if truthy (fileName frame) then
    let file := normalizeSlashes (coerce (fileName frame)) in
    if test builtRegExp file then true
    else if test srcRegExp file then true
    else false
  else false.

Definition isBuiltinStackFrame (frame : StackFrame) : bool :=
  (fileNameIs frame "native" || fileNameIs frame "<anonymous>")
  && truthy (functionName frame).

(** ** The stack filter *)

(** The variables of one [filterStack] call. *)
Record FilterRun : Type := {
  filtered : list string;
  frameCount : number;
  lastFrameWasExcluded : bool;
  excludedFrameCount : number;
  lastExcludedFrame : option string
}.

Definition initialRun : FilterRun :=
  {| filtered := []; frameCount := 0; lastFrameWasExcluded := false;
     excludedFrameCount := 0; lastExcludedFrame := None |}.

Definition skippingLine (excludedFrameCount : number) : string :=
  "    ... skipping " +:+ toString excludedFrameCount +:+ " frame"
  +:+ (if excludedFrameCount >? 1 then "s" else "") +:+ " ...".

(** [frame.fileName.replace(/\bfile:.../, (_, path) => ts.sys.resolvePath(path))] *)
Definition resolveFileUrl (fileName : string) : string :=
  match exec fileUrlRegExp fileName with
  | Some m =>
      before m +:+ resolvePath (coerce (group 1 m)) +:+ rest (final m)
  | None => fileName
  end.

(** The first [if] of the loop body: path resolution and the rewrite hook,
    for frames with a real file name. *)
Definition rewriteStackFrame (opts : FilterStackOptions) (frame : StackFrame)
    : StackFrame :=
  if truthy (fileName frame)
     && negb (fileNameIs frame "native")
     && negb (fileNameIs frame "unknown location")
     && negb (fileNameIs frame "<anonymous>")
  then
    let frame :=
      {| typeName := typeName frame; functionName := functionName frame;
         methodName := methodName frame;
         fileName := Some (resolveFileUrl (coerce (fileName frame)));
         lineNumber := lineNumber frame; columnNumber := columnNumber frame;
         evalOrigin := evalOrigin frame;
         isConstructor := isConstructor frame; isAsync := isAsync frame |} in
    default defaultRewriteFrame (rewriteFrame opts) frame
  else frame.

(** The condition of the second [if] of the loop body. *)
Definition isExcluded (opts : FilterStackOptions) (frameCount : number)
    (frame : StackFrame) : bool :=
  match stackTraceLimit opts with
  | Some limit => frameCount >=? limit
  | None => false
  end
  || (excludeNode opts && isNodeStackFrame frame)
  || (excludeMocha opts && isMochaStackFrame frame)
  || (excludeTypeScript opts && isTypeScriptStackFrame frame)
  || (excludeBuiltin opts && isBuiltinStackFrame frame)
  || match exclude opts with
     | Some p => p frame
     | None => false
     end.

(** One iteration of [for (let line of lines)]. *)
Definition filterLine (opts : FilterStackOptions) (run : FilterRun)
    (line : string) : FilterRun :=
  match parseStackFrame line with
  | Some frame =>
      let frame := rewriteStackFrame opts frame in
      if isExcluded opts (frameCount run) frame then
        if lastFrameWasExcluded run then
          {| filtered := filtered run;
             frameCount := frameCount run;
             lastFrameWasExcluded := lastFrameWasExcluded run;
             excludedFrameCount := excludedFrameCount run + 1;
             lastExcludedFrame := Some (formatStackFrame frame) |}
        else
          {| filtered := (filtered run ++ [formatStackFrame frame])%list;
             frameCount := frameCount run + 1;
             lastFrameWasExcluded := true;
             excludedFrameCount := excludedFrameCount run;
             lastExcludedFrame := lastExcludedFrame run |}
      else
        {| filtered :=
             ((if excludedFrameCount run >? 0
               then filtered run ++ [skippingLine (excludedFrameCount run)]
               else filtered run) ++ [formatStackFrame frame])%list;
           frameCount := frameCount run + 1;
           lastFrameWasExcluded := false;
           excludedFrameCount :=
             if excludedFrameCount run >? 0 then 0 else excludedFrameCount run;
           lastExcludedFrame := lastExcludedFrame run |}
  | None =>
      {| filtered := (filtered run ++ [line])%list;
         frameCount := frameCount run;
         lastFrameWasExcluded := lastFrameWasExcluded run;
         excludedFrameCount := excludedFrameCount run;
         lastExcludedFrame := lastExcludedFrame run |}
  end.

(** The code after the loop: the lines of the result. *)
Definition flushRun (run : FilterRun) : list string :=
  if excludedFrameCount run >? 0 then
    let excludedFrameCount := excludedFrameCount run - 1 in
    let filtered : list string :=
      if excludedFrameCount >? 0
      then (filtered run ++ [skippingLine excludedFrameCount])%list
      else filtered run in
    if truthy (lastExcludedFrame run)
    then (filtered ++ [coerce (lastExcludedFrame run)])%list
    else filtered
  else filtered run.

(** The body of [if (stack) { ... }]: the new stack text. *)
Definition filterStackText (opts : FilterStackOptions) (stack : string) : string :=
  join (String LF "")
    (flushRun (fold_left (filterLine opts) (splitLines stack) initialRun)).

(** [filterStack]: [error] is a string or a reference to an [Error]
    object in the heap; the result is the returned value and the heap
    after the call. *)
Definition filterStack {V : Type} (error : ErrorOrString)
    (opts : FilterStackOptions) (heap : gmap nat (ErrorObject V))
    : ErrorOrString * gmap nat (ErrorObject V) :=
  let stack :=
    match error with
    | AString s => Some s
    | AnError ref =>
        match heap !! ref with
        | Some e => stack e
        | None => None
        end
    end in
  if truthy stack then
    let text := filterStackText opts (coerce stack) in
    match error with
    | AString _ => (AString text, heap)
    | AnError ref =>
        (AnError ref,
         alter (fun e => {| stack := Some text; properties := properties e |})
               ref heap)
    end
  else (error, heap).

End StackTraces.

(** ** Further assertions *)

(** The values that [assertEqual] compares: the test [a !== b] and the
    string conversion of the template [`${a}`]. *)
Class Comparable (T : Type) : Type := {
  strictEquals : T -> T -> bool;
  templateText : T -> string
}.

#[export] Instance number_Comparable : Comparable number :=
  {| strictEquals := Z.eqb; templateText := toString |}.

#[export] Instance string_Comparable : Comparable string :=
  {| strictEquals := String.eqb; templateText := fun s => s |}.

Section MoreAssertions.
Context {H : Type} `{LoggingHost H}.

Definition assertEqual {T : Type} `{Comparable T} (a b : T)
    (msg msg2 : option string) : M H unit :=
  if negb (strictEquals a b) then
    let message :=
      if truthy msg
      then if truthy msg2 then coerce msg +:+ " " +:+ coerce msg2 else coerce msg
      else "" in
    fail (Some ("Expected " +:+ templateText a +:+ " === " +:+ templateText b
                +:+ ". " +:+ message)) None
  else ret tt.

(** [value: T | null | undefined]: [None] stands for [null] and for
    [undefined]. *)
Definition assertDefined {T : Type} (value : option T) (message : option string)
    : M H T :=
  match value with
  | None => fail message None
  | Some v => ret v
  end.

(** The loop [for (const v of value) assertDefined(v, message)]. *)
Fixpoint assertEachDefined_loop {T : Type} (value : list (option T))
    (message : option string) : M H unit :=
  match value with
  | [] => ret tt
  | v :: value' =>
      _ <- assertDefined v message ;;
      assertEachDefined_loop value' message
  end.

Definition assertEachDefined {T : Type} (value : list (option T))
    (message : option string) : M H (list (option T)) :=
  _ <- assertEachDefined_loop value message ;;
  ret value.

Definition failBadSyntaxKind {A : Type} (SyntaxKind : EnumObject) (node : Node)
    (message : option string) : M H A :=
  fail (Some (orDefault message "Unexpected node." +:+ CRLF +:+ "Node "
              +:+ formatSyntaxKind SyntaxKind (Some (kind node))
              +:+ " was unexpected."))
       (Some fn_failBadSyntaxKind).

(** The declared types of [node], [test] and [kind] leave [undefined] out,
    but the code compares each of them with [undefined]: they are optional
    here. *)
Definition assertOptionalNode (SyntaxKind : EnumObject) (Normal : number)
    (w0 : DebugState H)
    : option Node -> option (JsFunction H Node bool) -> option string -> M H unit :=
  if shouldAssert Normal w0
  then fun node test message =>
    passed <- match test with
              | None => ret true
              | Some t =>
                  match node with
                  | None => ret true
                  | Some n => fn_call t n
                  end
              end ;;
    assert passed
      (Some (orDefault message "Unexpected node."))
      (Some (InfoThunk
         (match node with
          | Some n =>
              ret ("Node " +:+ formatSyntaxKind SyntaxKind (Some (kind n))
                   +:+ " did not pass test '" +:+ getFunctionName test +:+ "'.")
          | None => fun w => (Throw TypeError, w)
          end)))
      (Some fn_assertOptionalNode)
  else noop.

Definition assertOptionalToken (SyntaxKind : EnumObject) (Normal : number)
    (w0 : DebugState H)
    : option Node -> option number -> option string -> M H unit :=
  if shouldAssert Normal w0
  then fun node kind' message =>
    assert
      (match kind' with
       | None => true
       | Some k =>
           match node with
           | None => true
           | Some n => kind n =? k
           end
       end)
      (Some (orDefault message "Unexpected node."))
      (Some (InfoThunk
         (match node with
          | Some n =>
              ret ("Node " +:+ formatSyntaxKind SyntaxKind (Some (kind n))
                   +:+ " was not a '" +:+ formatSyntaxKind SyntaxKind kind'
                   +:+ "' token.")
          | None => fun w => (Throw TypeError, w)
          end)))
      (Some fn_assertOptionalToken)
  else noop.

(** [noop] is called with the two arguments of [assertMissingNode]. *)
Definition assertMissingNode (SyntaxKind : EnumObject) (Normal : number)
    (w0 : DebugState H) : option Node -> option string -> M H unit :=
  if shouldAssert Normal w0
  then fun node message =>
    assert
      (match node with None => true | Some _ => false end)
      (Some (orDefault message "Unexpected node."))
      (Some (InfoThunk
         (match node with
          | Some n =>
              ret ("Node " +:+ formatSyntaxKind SyntaxKind (Some (kind n))
                   +:+ " was unexpected'.")
          | None => fun w => (Throw TypeError, w)
          end)))
      (Some fn_assertMissingNode)
  else fun node message => noop node message tt.

(** ** Deprecated functions *)

(** The function returned by [wrapFunction]: a closure over [deprecation]
    and [func]. *)
Record WrappedFunction (A B : Type) : Type := {
  wrapped_deprecation : Deprecation;
  wrapped_func : A -> M H B
}.
Arguments wrapped_deprecation {A B} _.
Arguments wrapped_func {A B} _.

Definition wrapFunction {A B : Type} (deprecation : Deprecation)
    (func : A -> M H B) : WrappedFunction A B :=
  {| wrapped_deprecation := deprecation; wrapped_func := func |}.

(** One call of a wrapped function, [deprecation(); return func.apply(this,
    arguments)]: the outcome, the wrapped function afterwards (its
    deprecation may have written its warning) and the namespace state. *)
Definition callWrapped {A B : Type} (f : WrappedFunction A B) (arguments : A)
    (w : DebugState H) : result B * WrappedFunction A B * DebugState H :=
  let '(r, d', w') := handleDeprecation (wrapped_deprecation f) w in
  let f' := {| wrapped_deprecation := d'; wrapped_func := wrapped_func f |} in
  match r with
  | Ok _ => let '(r', w'') := wrapped_func f arguments w' in (r', f', w'')
  | Throw e => (Throw e, f', w')
  end.

Definition deprecateFunction {A B : Type}
    (formatStringFromArgs : string -> list string -> number -> string)
    (func : JsFunction H A B) (options : option DeprecationOptions)
    : WrappedFunction A B :=
  let deprecation :=
    createDeprecation formatStringFromArgs (getFunctionName (Some func)) options in
  wrapFunction deprecation (fn_call func).

End MoreAssertions.

Arguments wrapped_deprecation {H A B} _.
Arguments wrapped_func {H A B} _.

(** ** Deprecated properties

    The object [ns] is the map of its own properties to their descriptors.
    A descriptor is the object that [Object.getOwnPropertyDescriptor] gives:
    [value] and [writable] for a data property, [get] and [set] for an
    accessor property, a field of the other kind reading [undefined].

    The functions found in descriptors are functions of the program or the
    closures made by [wrapFunction] and [wrapValue].  The closures of one
    [deprecateProperty] call share the variables they capture, the
    [deprecation] with its flag and the [value] of [wrapValue]: these
    variables live in a store and the closures hold references to them. *)

Section DeprecatedProperties.
Context {H : Type} `{LoggingHost H} {V : Type}.

Inductive Getter : Type :=
| GetOriginal (f : JsFunction H unit (option V))
| GetWrapped (deprecation : nat) (func : Getter)
| GetValue (deprecation : nat) (value : nat).

Inductive Setter : Type :=
| SetOriginal (f : JsFunction H (option V) unit)
| SetWrapped (deprecation : nat) (func : Setter)
| SetValue (deprecation : nat) (value : nat).

Record PropertyDescriptor : Type := {
  desc_value : option V;
  desc_writable : bool;
  desc_get : option Getter;
  desc_set : option Setter;
  desc_enumerable : bool;
  desc_configurable : bool
}.

(** The captured variables, and the variables of the namespace. *)
Record Store : Type := {
  deprecations : list Deprecation;
  values : list (option V);
  debug : DebugState H
}.

(** A call [deprecation()] of the closure behind a reference. *)
Definition runDeprecation (deprecation : nat) (s : Store) : result unit * Store :=
  match deprecations s !! deprecation with
  | Some d =>
      let '(r, d', w') := handleDeprecation d (debug s) in
      (r, {| deprecations := <[deprecation := d']> (deprecations s);
             values := values s;
             debug := w' |})
  | None => (Ok tt, s)
  end.

(** A call of a getter: for a function of the program its own code; for
    [wrapFunction]'s closure, [deprecation(); return func.apply(this,
    arguments)]; for [wrapValue]'s, [deprecation(); return value]. *)
Fixpoint callGetter (get : Getter) (s : Store) : result (option V) * Store :=
  match get with
  | GetOriginal f =>
      let '(r, w') := fn_call f tt (debug s) in
      (r, {| deprecations := deprecations s; values := values s; debug := w' |})
  | GetWrapped deprecation func =>
      match runDeprecation deprecation s with
      | (Ok _, s') => callGetter func s'
      | (Throw e, s') => (Throw e, s')
      end
  | GetValue deprecation value =>
      match runDeprecation deprecation s with
      | (Ok _, s') => (Ok (default None (values s' !! value)), s')
      | (Throw e, s') => (Throw e, s')
      end
  end.

(** A call of a setter; [wrapValue]'s is
    [_value => { deprecation(); value = _value; }]. *)
Fixpoint callSetter (set : Setter) (v : option V) (s : Store) : result unit * Store :=
  match set with
  | SetOriginal f =>
      let '(r, w') := fn_call f v (debug s) in
      (r, {| deprecations := deprecations s; values := values s; debug := w' |})
  | SetWrapped deprecation func =>
      match runDeprecation deprecation s with
      | (Ok _, s') => callSetter func v s'
      | (Throw e, s') => (Throw e, s')
      end
  | SetValue deprecation value =>
      match runDeprecation deprecation s with
      | (Ok _, s') =>
          (Ok tt, {| deprecations := deprecations s';
                     values := <[value := v]> (values s');
                     debug := debug s' |})
      | (Throw e, s') => (Throw e, s')
      end
  end.

(** Reading the property [key] of [ns]: the getter's result if the
    property has a getter, else its value ([undefined] for an accessor
    without getter and for a property that [ns] does not have). *)
Definition getProperty (ns : gmap string PropertyDescriptor) (key : string)
    (s : Store) : result (option V) * Store :=
  match ns !! key with
  | Some desc =>
      match desc_get desc with
      | Some get => callGetter get s
      | None => (Ok (desc_value desc), s)
      end
  | None => (Ok None, s)
  end.

(** The assignment [ns[key] = v] to an own property of [ns]: the setter is
    called if there is one; the value of a writable data property is
    replaced; any other assignment is rejected (answer [false]: it is
    ignored, or raises a [TypeError] in strict code). *)
Definition setProperty (ns : gmap string PropertyDescriptor) (key : string)
    (v : option V) (s : Store)
    : result bool * gmap string PropertyDescriptor * Store :=
  match ns !! key with
  | Some desc =>
      match desc_set desc with
      | Some set =>
          let '(r, s') := callSetter set v s in
          (match r with Ok _ => Ok true | Throw e => Throw e end, ns, s')
      | None =>
          match desc_get desc with
          | Some _ => (Ok false, ns, s)
          | None =>
              if desc_writable desc
              then (Ok true,
                    <[key := {| desc_value := v;
                                desc_writable := true;
                                desc_get := None;
                                desc_set := None;
                                desc_enumerable := desc_enumerable desc;
                                desc_configurable := desc_configurable desc |}]> ns,
                    s)
              else (Ok false, ns, s)
          end
      end
  | None => (Ok false, ns, s)
  end.

(** [wrapAccessor]; [deprecation] is the reference of the closure. *)
Definition wrapAccessor (deprecation : nat) (desc : PropertyDescriptor)
    : PropertyDescriptor :=
  {| desc_value := None;
     desc_writable := false;
     desc_get := GetWrapped deprecation <$> desc_get desc;
     desc_set := SetWrapped deprecation <$> desc_set desc;
     desc_enumerable := desc_enumerable desc;
     desc_configurable := desc_configurable desc |}.

(** [wrapValue]: the variable [value] is a new cell of the store. *)
Definition wrapValue (deprecation : nat) (desc : PropertyDescriptor) (s : Store)
    : PropertyDescriptor * Store :=
  let value := length (values s) in
  ({| desc_value := None;
      desc_writable := false;
      desc_get := Some (GetValue deprecation value);
      desc_set := if desc_writable desc
                  then Some (SetValue deprecation value)
                  else None;
      desc_enumerable := desc_enumerable desc;
      desc_configurable := desc_configurable desc |},
   {| deprecations := deprecations s;
      values := values s ++ [desc_value desc];
      debug := debug s |}).

(** [Object.defineProperty(ns, key, newDesc)] for an own property [key] of
    [ns] and the descriptors that [wrapAccessor] and [wrapValue] build: they
    are accessor descriptors with new functions, which a property that is
    not configurable rejects with a [TypeError]; a configurable property
    becomes the accessor property that [newDesc] describes. *)
Definition defineProperty (ns : gmap string PropertyDescriptor) (key : string)
    (current newDesc : PropertyDescriptor)
    : result unit * gmap string PropertyDescriptor :=
  if desc_configurable current
  then (Ok tt, <[key := newDesc]> ns)
  else (Throw TypeError, ns).

Definition deprecateProperty
    (formatStringFromArgs : string -> list string -> number -> string)
    (ns : gmap string PropertyDescriptor) (key : string)
    (options : option DeprecationOptions) (s : Store)
    : result unit * gmap string PropertyDescriptor * Store :=
  match ns !! key with
  | None => (Ok tt, ns, s)
  | Some desc =>
      let deprecation := length (deprecations s) in
      let s :=
        {| deprecations :=
             deprecations s ++ [createDeprecation formatStringFromArgs key options];
           values := values s;
           debug := debug s |} in
      let '(newDesc, s) :=
        match desc_get desc, desc_set desc with
        | None, None => wrapValue deprecation desc s
        | _, _ => (wrapAccessor deprecation desc, s)
        end in
      let '(r, ns) := defineProperty ns key desc newDesc in
      (r, ns, s)
  end.

(** The loop [for (const key of keys) deprecateProperty(ns, key, options)]. *)
Fixpoint deprecateProperties
    (formatStringFromArgs : string -> list string -> number -> string)
    (ns : gmap string PropertyDescriptor) (keys : list string)
    (options : option DeprecationOptions) (s : Store)
    : result unit * gmap string PropertyDescriptor * Store :=
  match keys with
  | [] => (Ok tt, ns, s)
  | key :: keys' =>
      match deprecateProperty formatStringFromArgs ns key options s with
      | (Ok _, ns', s') => deprecateProperties formatStringFromArgs ns' keys' options s'
      | (Throw e, ns', s') => (Throw e, ns', s')
      end
  end.

End DeprecatedProperties.

Arguments Getter H V : clear implicits.
Arguments Setter H V : clear implicits.
Arguments PropertyDescriptor H V : clear implicits.
Arguments Store H V : clear implicits.

(** ** Formatters of the flag enums

    The enum containers [ts.NodeFlags], ... are declared outside the given
    sources and are parameters. *)

Definition formatNodeFlags (NodeFlags : EnumObject) (flags : option number) : string :=
  formatEnum flags NodeFlags true None.

Definition formatModifierFlags (ModifierFlags : EnumObject) (flags : option number)
    : string :=
  formatEnum flags ModifierFlags true None.

(** [/^Assert|Excludes$|PropagatingFlags$/] *)
Definition transformFlagsRegExp : regex :=
  rAny [rSeq rBol (rLit "Assert");
        rSeq (rLit "Excludes") rEol;
        rSeq (rLit "PropagatingFlags") rEol].

Definition formatTransformFlags (TransformFlags : EnumObject) (flags : option number)
    : string :=
  formatEnum flags TransformFlags true
    (Some (fun _ name => negb (test transformFlagsRegExp name))).

Definition formatEmitFlags (EmitFlags : EnumObject) (flags : option number) : string :=
  formatEnum flags EmitFlags true None.

Definition formatSymbolFlags (SymbolFlags : EnumObject) (flags : option number)
    : string :=
  formatEnum flags SymbolFlags true None.

Definition formatTypeFlags (TypeFlags : EnumObject) (flags : option number) : string :=
  formatEnum flags TypeFlags true None.

Definition formatObjectFlags (ObjectFlags : EnumObject) (flags : option number)
    : string :=
  formatEnum flags ObjectFlags true None.

End Debug.

(* ================================================================== *)
(** * Part II: definitions used to state the properties                *)
(* ================================================================== *)

Import Debug.

(** A sink that records what it receives, oldest first. *)
#[export] Instance recordingHost : LoggingHost (list (LogLevel * string)) :=
  fun level s received => (received ++ [(level, s)])%list.

(** The namespace state with another host object. *)
Definition withHost {H : Type} (w : DebugState H) (host : H) : DebugState H :=
  {| currentAssertionLevel := currentAssertionLevel w;
     currentLogLevel := currentLogLevel w;
     isDebugging := isDebugging w;
     loggingHost := Some host |}.

(** The namespace state with another assertion level. *)
Definition withAssertionLevel {H : Type} (w : DebugState H) (level : number)
    : DebugState H :=
  {| currentAssertionLevel := level;
     currentLogLevel := currentLogLevel w;
     isDebugging := isDebugging w;
     loggingHost := loggingHost w |}.

(** [n] successive invocations of a deprecation closure, each made whatever
    the outcome of the one before: the outcomes in order, the closure and the
    namespace state at the end. *)
Fixpoint invokeTimes {H : Type} `{LoggingHost H} (n : nat) (d : Deprecation)
    (w : DebugState H) : list (result unit) * Deprecation * DebugState H :=
  match n with
  | O => ([], d, w)
  | S n' =>
      let '(r, d', w') := handleDeprecation d w in
      let '(rs, d'', w'') := invokeTimes n' d' w' in
      (r :: rs, d'', w'')
  end.

(** A closure after its first warning. *)
Definition warned (d : Deprecation) : Deprecation :=
  {| options := options d;
     formattedMessage := formattedMessage d;
     hasWrittenDeprecation := true |}.

(** A predicate that always answers [false] and, when it runs, raises the
    assertion level of the namespace, so that a run is observable. *)
Definition alwaysFails {H A : Type} : JsFunction H A bool :=
  {| fn_ownName := Some (Some "alwaysFails");
     fn_text := "function alwaysFails(node) { return false; }";
     fn_call := fun _ w => (Ok false, withAssertionLevel w 3) |}.

(** ** The reference algorithm of [formatEnum]

    The four steps of the specification, in its words: derive the members
    sorted ascending by value; for [0] the first member of value 0, else
    ["0"]; without [isFlags] the first member whose value equals [value],
    else the decimal string; with [isFlags] a scan from the highest value to
    the lowest that skips zero-valued members and members rejected by the
    filter, consumes a member when [(remaining & member) === member], clears
    its bits and prepends its name, pipe-joined; the accumulated string if
    nothing remains, else the decimal string of the original value. *)

Definition pipeJoin (name accumulated : string) : string :=
  match accumulated with
  | EmptyString => name
  | _ => name +:+ "|" +:+ accumulated
  end.

Definition consumeFlag (filter : option (number -> string -> bool))
    (acc : number * string) (member : number * string) : number * string :=
  let '(remaining, accumulated) := acc in
  if (fst member =? 0) || negb (passesFilter filter (fst member) (snd member))
  then acc
  else if bitAnd remaining (fst member) =? fst member
       then (bitAnd remaining (bitNot (fst member)), pipeJoin (snd member) accumulated)
       else acc.

Definition formatEnum_reference (value : option number) (enumObject : EnumObject)
    (isFlags : bool) (filter : option (number -> string -> bool)) : string :=
  let value := default 0 value in
  let members := getEnumMembers enumObject in
  if value =? 0 then
    match List.find (fun member => fst member =? 0) members with
    | Some member => snd member
    | None => "0"
    end
  else if negb isFlags then
    match List.find (fun member => fst member =? value) members with
    | Some member => snd member
    | None => toString value
    end
  else
    let '(remaining, accumulated) :=
      fold_left (consumeFlag filter) (rev members) (value, "") in
    if remaining =? 0 then accumulated else toString value.

(** ** What a match of a regular expression says about the text

    [Matches r x s c c']: [r] can match the text [x] when [x] is followed by
    [s], taking the captures from [c] to [c'].  The relation forgets the
    priorities of the matcher; it is what a successful run guarantees. *)

Inductive Star (R : string -> string -> list (nat * string) -> list (nat * string) -> Prop)
  : string -> string -> list (nat * string) -> list (nat * string) -> Prop :=
| Star_nil (s : string) (c : list (nat * string)) : Star R "" s c c
| Star_cons (x1 x2 s : string) (c cm c' : list (nat * string)) :
    R x1 (x2 +:+ s) c cm -> Star R x2 s cm c' -> Star R (x1 +:+ x2) s c c'.

Fixpoint Matches (r : regex) (x s : string) (c c' : list (nat * string)) : Prop :=
  match r with
  | rEmpty => x = "" /\ c' = c
  | rChar p => exists a, x = String a "" /\ p a = true /\ c' = c
  | rSeq r1 r2 =>
      exists x1 x2 cm,
        x = x1 +:+ x2 /\ Matches r1 x1 (x2 +:+ s) c cm /\ Matches r2 x2 s cm c'
  | rAlt r1 r2 => Matches r1 x s c c' \/ Matches r2 x s c c'
  | rStar _ r1 => Star (Matches r1) x s c c'
  | rGroup i r1 => exists cm, Matches r1 x s c cm /\ c' = (i, x) :: cm
  | rLook true r1 => x = "" /\ exists y s', s = y +:+ s' /\ Matches r1 y s' c c'
  | rLook false _ => x = "" /\ c' = c
  | rBol => x = "" /\ c' = c
  | rEol => x = "" /\ c' = c /\ s = ""
  | rWordB => x = "" /\ c' = c
  end.

(** Expressions without capture groups. *)
Fixpoint noGroup (r : regex) : bool :=
  match r with
  | rSeq r1 r2 | rAlt r1 r2 => noGroup r1 && noGroup r2
  | rStar _ r1 | rLook _ r1 => noGroup r1
  | rGroup _ _ => false
  | _ => true
  end.

(** All characters of a string satisfy [p]. *)
Fixpoint allChars (p : ascii -> bool) (s : string) : bool :=
  match s with
  | EmptyString => true
  | String a s' => p a && allChars p s'
  end.


(** Expressions that cannot match the empty text. *)
Fixpoint nonNull (r : regex) : bool :=
  match r with
  | rChar _ => true
  | rSeq r1 r2 => nonNull r1 || nonNull r2
  | rAlt r1 r2 => nonNull r1 && nonNull r2
  | rGroup _ r1 => nonNull r1
  | _ => false
  end.

(** The text of an optional capture. *)
Definition optText (s : option string) : string :=
  match s with
  | Some s => s
  | None => ""
  end.

(** The text [ [as methodName]] of an optional method name. *)
Definition methodText (methodName : option string) : string :=
  match methodName with
  | Some m => " [as " +:+ m +:+ "]"
  | None => ""
  end.


(** ** Frame lines that survive parsing and serialization *)







(** An environment for the examples: paths are resolved to themselves, a
    rooted path starts with a slash, and the default rewrite hook is the
    identity, its initial value. *)
Definition sampleEnv : StackEnv :=
  {| resolvePath := fun path => path;
     isRootedDiskPath := fun path => String.prefix "/" path;
     normalizeSlashes := fun path => path;
     defaultRewriteFrame := fun frame => frame |}.



(** ** Notions used to state the properties of the filter *)

Section FilterNotions.
Context `{StackEnv}.

(** The frame of a line, after the rewrite step; [None] when the line is not
    a frame line. *)
Definition frameOf (opts : FilterStackOptions) (line : string) : option StackFrame :=
  rewriteStackFrame opts <$> parseStackFrame line.

(** The line is a frame line whose frame is excluded when [frameCount]
    frames have been counted. *)
Definition isExcludedLine (opts : FilterStackOptions) (frameCount : number)
    (line : string) : bool :=
  match frameOf opts line with
  | Some frame => isExcluded opts frameCount frame
  | None => false
  end.

(** The line is a frame line whose frame is kept. *)
Definition isKeptLine (opts : FilterStackOptions) (frameCount : number)
    (line : string) : bool :=
  match frameOf opts line with
  | Some frame => negb (isExcluded opts frameCount frame)
  | None => false
  end.

(** The line as the filter writes it: a frame line reformatted, any other
    line as it is. *)
Definition reformatted (opts : FilterStackOptions) (line : string) : string :=
  match frameOf opts line with
  | Some frame => formatStackFrame frame
  | None => line
  end.

(** The state of the loop after the given lines. *)
Definition runAfter (opts : FilterStackOptions) (lines : list string) : FilterRun :=
  fold_left (filterLine opts) lines initialRun.

(** The lines of the result for the given lines of the input. *)
Definition outputLines (opts : FilterStackOptions) (lines : list string) : list string :=
  flushRun (runAfter opts lines).

End FilterNotions.

(** Options that exclude the frames of the file [/x/a.js] and nothing else. *)
Definition excludeFileA : FilterStackOptions :=
  {| stackTraceLimit := None;
     exclude := Some (fun frame => fileNameIs frame "/x/a.js");
     excludeNode := false; excludeTypeScript := false;
     excludeMocha := false; excludeBuiltin := false;
     rewriteFrame := None |}.

(** Three excluded frames followed by a kept one. *)
Definition threeExcludedOneKept : list string :=
  ["    at e1 (/x/a.js:1:1)"; "    at e2 (/x/a.js:2:1)";
   "    at e3 (/x/a.js:3:1)"; "    at keep (/x/b.js:4:1)"].

Definition newline : string := String LF "".

(** The [stack] property of the object behind a reference ([undefined] when
    the object has none). *)
Definition stackOf {V : Type} (heap : gmap nat (ErrorObject V)) (ref : nat)
    : option string :=
  match heap !! ref with
  | Some e => stack e
  | None => None
  end.

(** A heap with one [Error] object, at reference 7, and its properties other
    than [stack]. *)
Definition sampleProperties : gmap string string :=
  {[ "name" := "Error"; "message" := "boom" ]}.

Definition sampleHeap : gmap nat (ErrorObject string) :=
  {[ 7%nat := {| stack := Some (join newline ("Error: boom" :: threeExcludedOneKept));
               properties := sampleProperties |} ]}.

(** ** Notions used to state the idempotence of the filter *)

(** The text holds no line terminator. *)
Definition noLineBreak (s : string) : bool :=
  allChars (fun c => negb (isLineTerminator c)) s.

Section StableLines.
Context `{StackEnv}.

(** The part of the exclusion test that looks at the count of frames. *)
Definition limitReached (opts : FilterStackOptions) (frameCount : number) : bool :=
  match stackTraceLimit opts with
  | Some limit => frameCount >=? limit
  | None => false
  end.

(** The part of the exclusion test that looks at the frame. *)
Definition excludedByCategory (opts : FilterStackOptions) (frame : StackFrame) : bool :=
  (excludeNode opts && isNodeStackFrame frame)
  || (excludeMocha opts && isMochaStackFrame frame)
  || (excludeTypeScript opts && isTypeScriptStackFrame frame)
  || (excludeBuiltin opts && isBuiltinStackFrame frame)
  || match exclude opts with
     | Some p => p frame
     | None => false
     end.

(** A line is stable under the filter when it is not a frame line, or when
    the line that the filter writes for its frame is a frame line in turn,
    is written by the filter as it is, and has a frame that the categories
    exclude or keep like the original one. *)
Definition stableLine (opts : FilterStackOptions) (line : string) : bool :=
  match frameOf opts line with
  | None => true
  | Some frame =>
      match frameOf opts (formatStackFrame frame) with
      | Some frame' =>
          String.eqb (formatStackFrame frame') (formatStackFrame frame)
          && Bool.eqb (excludedByCategory opts frame') (excludedByCategory opts frame)
      | None => false
      end
  end.

End StableLines.

Section FilterInvariants.
Context `{StackEnv}.

(** [text] is a frame line that the filter writes as it is, and whose frame
    is excluded, at each count of frames, as [excluded] says. *)
Definition writtenFrame (opts : FilterStackOptions) (excluded : number -> bool)
    (text : string) : Prop :=
  exists frame,
    frameOf opts text = Some frame
    /\ formatStackFrame frame = text
    /\ forall frameCount, isExcluded opts frameCount frame = excluded frameCount.

(** The state of a second pass that has read what a first pass has written
    so far: the same lines written, the same count of frames, the same
    memory of the last frame, and no frame counted. *)
Definition Agree (first second : FilterRun) : Prop :=
  filtered second = filtered first
  /\ frameCount second = frameCount first
  /\ lastFrameWasExcluded second = lastFrameWasExcluded first
  /\ excludedFrameCount second = 0.

(** What a pass knows when it has counted excluded frames: the last frame
    seen was excluded, and the remembered line is a frame line that the
    filter would write as it is and exclude at the current count. *)
Definition Pending (opts : FilterStackOptions) (run : FilterRun) : Prop :=
  0 <= excludedFrameCount run
  /\ (0 < excludedFrameCount run ->
      lastFrameWasExcluded run = true
      /\ exists text excluded,
           lastExcludedFrame run = Some text
           /\ writtenFrame opts excluded text
           /\ excluded (frameCount run) = true).

End FilterInvariants.

(** No line written so far holds a line terminator. *)
Definition Clean `{StackEnv} (run : FilterRun) : Prop :=
  Forall (fun l => noLineBreak l = true) (filtered run).

(** Options with the built-in category only. *)
Definition excludeBuiltinOnly : FilterStackOptions :=
  {| stackTraceLimit := None; exclude := None;
     excludeNode := false; excludeTypeScript := false;
     excludeMocha := false; excludeBuiltin := true;
     rewriteFrame := None |}.

(** Three frame lines with an empty function name and a location that
    reads like a call. *)
Definition threeOddFrames : string :=
  join newline ["    at  (a (native))"; "    at  (a (native))"; "    at  (a (native))"].

(** A rewrite hook that marks the function name of a frame. *)
Definition markFrame (frame : StackFrame) : StackFrame :=
  {| typeName := typeName frame;
     functionName := Some (coerce (functionName frame) +:+ "_");
     methodName := methodName frame; fileName := fileName frame;
     lineNumber := lineNumber frame; columnNumber := columnNumber frame;
     evalOrigin := evalOrigin frame;
     isConstructor := isConstructor frame; isAsync := isAsync frame |}.

Definition markingOptions : FilterStackOptions :=
  {| stackTraceLimit := None; exclude := None;
     excludeNode := false; excludeTypeScript := false;
     excludeMocha := false; excludeBuiltin := false;
     rewriteFrame := Some markFrame |}.

(** Whether [options.error] is set in the argument of [createDeprecation]. *)
Definition errorIsSet (options : option DeprecationOptions) : bool :=
  match options with
  | Some o => isSet (error o)
  | None => false
  end.


(** An enum with reverse-mapping entries, an alias and a composite flag. *)
Definition sampleFlags : EnumObject :=
  [("0", JsString "None"); ("1", JsString "A"); ("2", JsString "B");
   ("4", JsString "C"); ("None", JsNumber 0); ("A", JsNumber 1);
   ("B", JsNumber 2); ("AB", JsNumber 3); ("C", JsNumber 4);
   ("Alias", JsNumber 2)].

(** A matcher [body] is sound for a relation [R]: when it succeeds it has
    consumed a text that [R] accepts, and its continuation has succeeded on
    what follows. *)
Definition Sound
    (body : (MatchState -> option MatchState) -> MatchState -> option MatchState)
    (R : string -> string -> list (nat * string) -> list (nat * string) -> Prop) : Prop :=
  forall k st res,
    body k st = Some res ->
    exists x s c' p',
      rest st = x +:+ s /\ R x s (caps st) c'
      /\ k {| prev := p'; rest := s; caps := c' |} = Some res.

(** A matcher that only looks at the values of its continuation, and a
    matcher that fails when its continuation always fails. *)
Definition Extensional
    (body : (MatchState -> option MatchState) -> MatchState -> option MatchState) : Prop :=
  forall k1 k2 st, (forall s, k1 s = k2 s) -> body k1 st = body k2 st.

Definition FailsWith
    (body : (MatchState -> option MatchState) -> MatchState -> option MatchState) : Prop :=
  forall k st, (forall s, k s = None) -> body k st = None.

(** ** The texts a regular expression accepts

    [Accepts r p x s]: [r] matches the text [x] at a position that comes
    after the character [p] (none at the start of the text) and before
    [s].  Unlike [Matches], the relation keeps track of the position, so
    that the anchors and the negative look-ahead mean what they mean for
    the matcher, and it leaves the captures out: it says exactly when the
    matcher succeeds. *)

(** The character before the position reached after reading [x]. *)
Fixpoint prevAfter (p : option ascii) (x : string) : option ascii :=
  match x with
  | EmptyString => p
  | String a x' => prevAfter (Some a) x'
  end.

Definition wordBefore (p : option ascii) : bool :=
  match p with Some c => isWordChar c | None => false end.

Definition wordAfter (s : string) : bool :=
  match s with String c _ => isWordChar c | EmptyString => false end.

Inductive Iter (R : option ascii -> string -> string -> Prop)
  : option ascii -> string -> string -> Prop :=
| Iter_nil (p : option ascii) (s : string) : Iter R p "" s
| Iter_cons (p : option ascii) (x1 x2 s : string) :
    R p x1 (x2 +:+ s) -> Iter R (prevAfter p x1) x2 s -> Iter R p (x1 +:+ x2) s.

Fixpoint Accepts (r : regex) (p : option ascii) (x s : string) : Prop :=
  match r with
  | rEmpty => x = ""
  | rChar q => exists a, x = String a "" /\ q a = true
  | rSeq r1 r2 =>
      exists x1 x2,
        x = x1 +:+ x2 /\ Accepts r1 p x1 (x2 +:+ s)
        /\ Accepts r2 (prevAfter p x1) x2 s
  | rAlt r1 r2 => Accepts r1 p x s \/ Accepts r2 p x s
  | rStar _ r1 => Iter (Accepts r1) p x s
  | rGroup _ r1 => Accepts r1 p x s
  | rLook true r1 => x = "" /\ exists y s', s = y +:+ s' /\ Accepts r1 p y s'
  | rLook false r1 => x = "" /\ ~ exists y s', s = y +:+ s' /\ Accepts r1 p y s'
  | rBol => x = "" /\ p = None
  | rEol => x = "" /\ s = ""
  | rWordB => x = "" /\ xorb (wordBefore p) (wordAfter s) = true
  end.

(** The continuation [k] succeeds exactly at the positions that satisfy
    [K], whatever the captures. *)
Definition Decides (k : MatchState -> option MatchState)
    (K : option ascii -> string -> Prop) : Prop :=
  forall st, k st <> None <-> K (prev st) (rest st).

(** A matcher [body] succeeds exactly when it can read a text that [R]
    accepts and its continuation succeeds after it. *)
Definition Complete
    (body : (MatchState -> option MatchState) -> MatchState -> option MatchState)
    (R : option ascii -> string -> string -> Prop) : Prop :=
  forall k K, Decides k K ->
  forall st,
    body k st <> None <->
    exists x s, rest st = x +:+ s /\ R (prev st) x s /\ K (prevAfter (prev st) x) s.

(** The text before a match of [([/]|^)...]: empty, or ending with a
    slash. *)
Definition segmentStart (pre : string) : Prop :=
  pre = "" \/ exists h, pre = h +:+ "/".

(** A character of a function name, [[\w\$]]. *)
Definition isNameChar (c : ascii) : bool := isWordChar c || Ascii.eqb c "$".

(** The text does not start with a character that satisfies [p]. *)
Definition stopsAt (p : ascii -> bool) (s : string) : Prop :=
  match s with
  | EmptyString => True
  | String c _ => p c = false
  end.

(** ** Further notions about the filter *)

Section MoreFilterNotions.
Context `{StackEnv}.

(** The line is a frame line. *)
Definition isFrameLine (line : string) : bool :=
  match parseStackFrame line with
  | Some _ => true
  | None => false
  end.

(** Where a line of the result comes from: it is what the filter writes
    for a line of the input, or a line that stands for skipped frames. *)
Definition hasOrigin (opts : FilterStackOptions) (lines : list string)
    (written : string) : Prop :=
  (exists line, In line lines /\ written = reformatted opts line)
  \/ (exists n, 0 < n /\ written = skippingLine n).

End MoreFilterNotions.

(** The options exclude no frame for what it is: only the limit on the
    number of frames may be set. *)
Definition noCategory (opts : FilterStackOptions) : bool :=
  negb (excludeNode opts) && negb (excludeMocha opts)
  && negb (excludeTypeScript opts) && negb (excludeBuiltin opts)
  && match exclude opts with
     | None => true
     | Some _ => false
     end.

(** Options with a limit on the number of frames and nothing else. *)
Definition limitOnly (limit : number) : FilterStackOptions :=
  {| stackTraceLimit := Some limit; exclude := None;
     excludeNode := false; excludeTypeScript := false;
     excludeMocha := false; excludeBuiltin := false;
     rewriteFrame := None |}.

(** A stack of five frames under its message line. *)
Definition fiveFrames : list string :=
  ["Error: boom"; "    at f1 (/x/a.js:1:1)"; "    at f2 (/x/a.js:2:1)";
   "    at f3 (/x/a.js:3:1)"; "    at f4 (/x/a.js:4:1)"; "    at f5 (/x/a.js:5:1)"].

(** A character of a path that ends neither the path of a file URL nor
    the line: no colon, no closing parenthesis, no line terminator. *)
Definition isPathChar (c : ascii) : bool :=
  negb (isLineTerminator c) && negb (Ascii.eqb c ":") && negb (Ascii.eqb c ")").

(** Options that set nothing. *)
Definition noOptions : FilterStackOptions :=
  {| stackTraceLimit := None; exclude := None;
     excludeNode := false; excludeTypeScript := false;
     excludeMocha := false; excludeBuiltin := false;
     rewriteFrame := None |}.

(** An environment that resolves a path against the directory [/root]. *)
Definition rootedEnv : StackEnv :=
  {| resolvePath := fun path => "/root/" +:+ path;
     isRootedDiskPath := fun path => String.prefix "/" path;
     normalizeSlashes := fun path => path;
     defaultRewriteFrame := fun frame => frame |}.

(** ** Samples for the deprecated properties *)

(** A store without captured variables, with a recording sink. *)
Definition emptyStore : Store (list (LogLevel * string)) number :=
  {| deprecations := []; values := [];
     debug := {| currentAssertionLevel := 0; currentLogLevel := Warning;
                 isDebugging := false; loggingHost := Some [] |} |}.

(** A writable, enumerable, configurable data property with the value 3. *)
Definition versionProperty : PropertyDescriptor (list (LogLevel * string)) number :=
  {| desc_value := Some 3; desc_writable := true;
     desc_get := None; desc_set := None;
     desc_enumerable := true; desc_configurable := true |}.

(** A configurable property with a getter that answers 7, and no setter. *)
Definition sizeProperty : PropertyDescriptor (list (LogLevel * string)) number :=
  {| desc_value := None; desc_writable := false;
     desc_get := Some (GetOriginal
                         {| fn_ownName := Some (Some "get size");
                            fn_text := "get size() { return 7; }";
                            fn_call := fun _ => ret (Some 7) |});
     desc_set := None;
     desc_enumerable := false; desc_configurable := true |}.

(** A frozen property. *)
Definition frozenProperty : PropertyDescriptor (list (LogLevel * string)) number :=
  {| desc_value := Some 1; desc_writable := false;
     desc_get := None; desc_set := None;
     desc_enumerable := true; desc_configurable := false |}.

(** Objects with one of these properties each. *)
Definition versionObject
    : gmap string (PropertyDescriptor (list (LogLevel * string)) number) :=
  {[ "version" := versionProperty ]}.

Definition sizeObject
    : gmap string (PropertyDescriptor (list (LogLevel * string)) number) :=
  {[ "size" := sizeProperty ]}.

Definition frozenObject
    : gmap string (PropertyDescriptor (list (LogLevel * string)) number) :=
  {[ "frozen" := frozenProperty ]}.

(** ** What the lines of the result stand for *)

(** A line of the result stands for lines of the stack: a written line
    for one line, a skipping line for the frames that it counts. *)
Inductive OutputItem : Type :=
| Written (line : string)
| Skipped (frames : list string).

Definition expand (item : OutputItem) : list string :=
  match item with
  | Written line => [line]
  | Skipped frames => frames
  end.

Section OutputItems.
Context `{StackEnv}.

Definition render (opts : FilterStackOptions) (item : OutputItem) : string :=
  match item with
  | Written line => reformatted opts line
  | Skipped frames => skippingLine (Z.of_nat (length frames))
  end.

(** A skipping line counts at least one line, and frame lines only. *)
Definition countsFrames (item : OutputItem) : Prop :=
  match item with
  | Written _ => True
  | Skipped frames => frames <> [] /\ Forall (fun line => isFrameLine line = true) frames
  end.

(** What the loop has done with the lines read so far: the lines written
    are the items, and the frames counted since the last skipping line are
    pending. *)
Definition Accounted (opts : FilterStackOptions) (read : list string)
    (run : FilterRun) : Prop :=
  exists items pending,
    filtered run = map (render opts) items
    /\ Forall countsFrames items
    /\ excludedFrameCount run = Z.of_nat (length pending)
    /\ Forall (fun line => isFrameLine line = true) pending
    /\ (lastFrameWasExcluded run = false -> pending = [])
    /\ (forall line, last pending = Some line ->
                     lastExcludedFrame run = Some (reformatted opts line))
    /\ Permutation (concat (map expand items) ++ pending) read.

End OutputItems.

(* ================================================================== *)
(** * Part III: properties                                             *)
(* ================================================================== *)

(** ** Strings *)

Lemma append_cons (a : ascii) (s1 s2 : string) :
  String a s1 +:+ s2 = String a (s1 +:+ s2).
Proof. reflexivity. Qed.

Lemma append_nil_l (s : string) : "" +:+ s = s.
Proof. reflexivity. Qed.

Lemma append_nil_r (s : string) : s +:+ "" = s.
Proof.
  induction s as [|a s IH]; [reflexivity|]. now rewrite append_cons, IH.
Qed.

Lemma append_assoc (s1 s2 s3 : string) : (s1 +:+ s2) +:+ s3 = s1 +:+ (s2 +:+ s3).
Proof.
  induction s1 as [|a s1 IH]; [reflexivity|]. now rewrite !append_cons, IH.
Qed.

Lemma length_append (s1 s2 : string) :
  String.length (s1 +:+ s2) = (String.length s1 + String.length s2)%nat.
Proof.
  induction s1 as [|a s1 IH]; [reflexivity|].
  rewrite append_cons. cbn [String.length]. now rewrite IH.
Qed.

(** ** The logger *)

Section LoggerProperties.
Context {H : Type} `{LoggingHost H}.

Lemma shouldLog_spec (level : LogLevel) (w : DebugState H) :
  shouldLog level w = true <-> LogLevel_value (currentLogLevel w) <= LogLevel_value level.
Proof. unfold shouldLog. apply Z.leb_le. Qed.

Lemma LogLevel_order :
  LogLevel_value Off = 0 /\ LogLevel_value Error = 1 /\ LogLevel_value Warning = 2
  /\ LogLevel_value Info = 3 /\ LogLevel_value Verbose = 4.
Proof. repeat split. Qed.

(** C8: a logging call hands [(severity, text)] to the sink exactly when a
    sink is registered and the threshold is numerically at most the
    severity of the message (Off = 0 < Error = 1 < Warning = 2 < Info = 3 <
    Verbose = 4); otherwise it changes nothing; and it never raises, in
    particular not when no sink is registered. *)
Theorem logMessage_forwards_iff_enabled (level : LogLevel) (text : string)
    (w : DebugState H) :
  fst (logMessage level text w) = Ok tt
  /\ snd (logMessage level text w) =
       match loggingHost w with
       | Some host =>
           if LogLevel_value (currentLogLevel w) <=? LogLevel_value level
           then withHost w (host_log level text host)
           else w
       | None => w
       end
  /\ (LogLevel_value Off = 0 /\ LogLevel_value Error = 1
      /\ LogLevel_value Warning = 2 /\ LogLevel_value Info = 3
      /\ LogLevel_value Verbose = 4).
Proof.
  unfold logMessage, shouldLog, withHost.
  destruct (loggingHost w) as [host|]; simpl.
  - destruct (LogLevel_value (currentLogLevel w) <=? LogLevel_value level);
      simpl; repeat split.
  - repeat split.
Qed.

Lemma logMessage_returns (level : LogLevel) (text : string) (w : DebugState H) :
  fst (logMessage level text w) = Ok tt.
Proof.
  unfold logMessage. destruct (loggingHost w); [|reflexivity].
  now destruct (shouldLog level w).
Qed.

Lemma logMessage_no_sink (level : LogLevel) (text : string) (w : DebugState H) :
  loggingHost w = None -> logMessage level text w = (Ok tt, w).
Proof. intros E. unfold logMessage. now rewrite E. Qed.

Lemma logMessage_below_threshold (level : LogLevel) (text : string) (w : DebugState H) :
  LogLevel_value level < LogLevel_value (currentLogLevel w) ->
  logMessage level text w = (Ok tt, w).
Proof.
  intros L. unfold logMessage, shouldLog.
  destruct (loggingHost w); [|reflexivity].
  destruct (Z.leb_spec (LogLevel_value (currentLogLevel w)) (LogLevel_value level));
    [lia|reflexivity].
Qed.

(** ** Assertions *)

Lemma fail_throws {A : Type} (message : option string) (mark : option CrawlMark)
    (w : DebugState H) :
  exists e, @fail H A message mark w = (Throw e, w).
Proof. unfold fail. eauto. Qed.

Lemma assert_true_noop (message : option string)
    (info : option (VerboseInfo H)) (mark : option CrawlMark) (w : DebugState H) :
  assert true message info mark w = (Ok tt, w).
Proof. reflexivity. Qed.

Lemma assert_false_message (m : string) (mark : option CrawlMark) (w : DebugState H) :
  m <> "" ->
  assert false (Some m) None mark w =
  (Throw (mkError ("Debug Failure. False expression: " +:+ m) (default fn_assert mark)), w).
Proof. intros Hm. destruct m as [|a m]; [congruence|reflexivity]. Qed.

Lemma assert_false_no_message (mark : option CrawlMark) (w : DebugState H) :
  assert false None None mark w =
  (Throw (mkError "Debug Failure. False expression." (default fn_assert mark)), w).
Proof. reflexivity. Qed.

Lemma assert_false_message_info (m info : string) (mark : option CrawlMark)
    (w : DebugState H) :
  m <> "" -> info <> "" ->
  assert false (Some m) (Some (InfoString info)) mark w =
  (Throw (mkError ("Debug Failure. False expression: " +:+ m +:+ CRLF
                   +:+ "Verbose Debug Information: " +:+ info)
                  (default fn_assert mark)), w).
Proof.
  intros Hm Hi. destruct m as [|a m]; [congruence|].
  destruct info as [|b info]; [congruence|]. reflexivity.
Qed.

(** The thunk runs on the failure path only, and exactly once there. *)
Lemma assert_false_thunk (m : string) (f : M H string) (mark : option CrawlMark)
    (w w' : DebugState H) (info : string) :
  m <> "" -> f w = (Ok info, w') ->
  assert false (Some m) (Some (InfoThunk f)) mark w =
  (Throw (mkError ("Debug Failure. False expression: " +:+ m +:+ CRLF
                   +:+ "Verbose Debug Information: " +:+ info)
                  (default fn_assert mark)), w').
Proof.
  intros Hm Hf. destruct m as [|a m]; [congruence|].
  unfold assert, bind; simpl. rewrite Hf. reflexivity.
Qed.

Lemma assert_raises_iff (expression : bool) (m : option string) (mark : option CrawlMark)
    (w : DebugState H) :
  (exists e, fst (assert expression m None mark w) = Throw e) <-> expression = false.
Proof.
  destruct expression; simpl; split.
  - intros [e E]. discriminate.
  - discriminate.
  - reflexivity.
  - intros _. unfold assert, bind, ret, fail; simpl. eauto.
Qed.

(** C5 (defect of the code): with no message and verbose information, the
    error does not read ["False expression."] followed by the information:
    the absent message is concatenated as the text [undefined]. *)
Theorem assert_absent_message_reads_undefined (w : DebugState H) :
  assert false None (Some (InfoString "info")) None w =
  (Throw (mkError ("Debug Failure. False expression: undefined" +:+ CRLF
                   +:+ "Verbose Debug Information: info") fn_assert), w).
Proof. reflexivity. Qed.

Lemma assertLessThan_holds (a b : number) (msg : option string) (w : DebugState H) :
  a < b -> assertLessThan a b msg w = (Ok tt, w).
Proof.
  intros L. unfold assertLessThan.
  destruct (Z.geb_spec a b); [lia|reflexivity].
Qed.

Lemma assertLessThan_violated (a b : number) (msg : option string) (w : DebugState H) :
  b <= a ->
  assertLessThan a b msg w =
  (Throw (mkError ("Debug Failure. Expected " +:+ toString a +:+ " < " +:+ toString b
                   +:+ ". " +:+ orDefault msg "") fn_fail), w).
Proof.
  intros L. unfold assertLessThan.
  destruct (Z.geb_spec a b); [reflexivity|lia].
Qed.

Lemma assertLessThanOrEqual_holds (a b : number) (w : DebugState H) :
  a <= b -> assertLessThanOrEqual a b w = (Ok tt, w).
Proof.
  intros L. unfold assertLessThanOrEqual.
  destruct (Z.gtb_spec a b); [lia|reflexivity].
Qed.

Lemma assertLessThanOrEqual_violated (a b : number) (w : DebugState H) :
  b < a ->
  assertLessThanOrEqual a b w =
  (Throw (mkError ("Debug Failure. Expected " +:+ toString a +:+ " <= " +:+ toString b)
                  fn_fail), w).
Proof.
  intros L. unfold assertLessThanOrEqual.
  destruct (Z.gtb_spec a b); [reflexivity|lia].
Qed.

Lemma assertGreaterThanOrEqual_holds (a b : number) (w : DebugState H) :
  b <= a -> assertGreaterThanOrEqual a b w = (Ok tt, w).
Proof.
  intros L. unfold assertGreaterThanOrEqual.
  destruct (Z.ltb_spec a b); [lia|reflexivity].
Qed.

Lemma assertGreaterThanOrEqual_violated (a b : number) (w : DebugState H) :
  a < b ->
  assertGreaterThanOrEqual a b w =
  (Throw (mkError ("Debug Failure. Expected " +:+ toString a +:+ " >= " +:+ toString b)
                  fn_fail), w).
Proof.
  intros L. unfold assertGreaterThanOrEqual.
  destruct (Z.ltb_spec a b); [reflexivity|lia].
Qed.

(** C7 (defect of the code): the messages of [assertLessThanOrEqual] and
    [assertGreaterThanOrEqual] end without the period that the message of
    [assertLessThan] has. *)
Theorem ordering_assertions_messages_at_2_1 (w : DebugState H) :
  assertLessThanOrEqual 2 1 w =
    (Throw (mkError "Debug Failure. Expected 2 <= 1" fn_fail), w)
  /\ assertGreaterThanOrEqual 1 2 w =
    (Throw (mkError "Debug Failure. Expected 1 >= 2" fn_fail), w)
  /\ assertLessThan 2 1 None w =
    (Throw (mkError "Debug Failure. Expected 2 < 1. " fn_fail), w).
Proof. repeat split. Qed.

End LoggerProperties.

(** ** Node assertions *)

Section NodeAssertionProperties.
Context {H : Type} `{LoggingHost H}.

(** C6: when the assertion level at initialization is below [Normal],
    [assertNode] and [assertEachNode] are no-ops for good: whatever the node
    or node array, the predicate and the state at the time of the call
    (a later, higher assertion level included), the call returns normally
    and leaves the state as it was, so the predicate was not run. *)
Theorem node_assertions_disabled_are_noops (SyntaxKind : EnumObject)
    (Normal : number) (w0 : DebugState H) :
  currentAssertionLevel w0 < Normal ->
  (forall node test message w,
      assertNode SyntaxKind Normal w0 node test message w = (Ok tt, w))
  /\ (forall nodes test message w,
      assertEachNode Normal w0 nodes test message w = (Ok tt, w)).
Proof.
  intros L.
  assert (E : shouldAssert Normal w0 = false).
  { unfold shouldAssert. apply Z.leb_gt. exact L. }
  unfold assertNode, assertEachNode. rewrite E. split; reflexivity.
Qed.

(** When the level at initialization reaches [Normal], the predicate is run
    and a failing one makes the call fail. *)
Lemma assertNode_enabled_runs_test (SyntaxKind : EnumObject) (Normal : number)
    (w0 w : DebugState H) (n : Node) :
  Normal <= currentAssertionLevel w0 ->
  exists e, assertNode SyntaxKind Normal w0 (Some n) (Some alwaysFails) None w
            = (Throw e, withAssertionLevel w 3).
Proof.
  intros L.
  assert (E : shouldAssert Normal w0 = true).
  { unfold shouldAssert. apply Z.leb_le. exact L. }
  unfold assertNode. rewrite E. unfold bind, assert, fail, ret; simpl. eauto.
Qed.

End NodeAssertionProperties.

Lemma node_assertions_disabled_witness :
  let w0 : DebugState (list (LogLevel * string)) :=
    {| currentAssertionLevel := 0; currentLogLevel := Warning;
       isDebugging := false; loggingHost := Some [] |} in
  assertNode [] 1 w0 (Some {| kind := 7 |}) (Some alwaysFails) None
    (withAssertionLevel w0 3) = (Ok tt, withAssertionLevel w0 3)
  /\ assertEachNode 1 w0 [{| kind := 7 |}] (Some alwaysFails) None
    (withAssertionLevel w0 3) = (Ok tt, withAssertionLevel w0 3).
Proof.
  intros w0.
  pose proof (node_assertions_disabled_are_noops [] 1 w0 ltac:(simpl; lia)) as [HN HE].
  split; [apply HN | apply HE].
Defined.

(** ** Deprecations *)

Section DeprecationProperties.
Context {H : Type} `{LoggingHost H}.

Variable formatStringFromArgs : string -> list string -> number -> string.

Lemma createDeprecation_error (name : string) (o : option DeprecationOptions) :
  isSet (error (options (createDeprecation formatStringFromArgs name o))) = errorIsSet o.
Proof. destruct o; reflexivity. Qed.

Lemma createDeprecation_fresh (name : string) (o : option DeprecationOptions) :
  hasWrittenDeprecation (createDeprecation formatStringFromArgs name o) = false.
Proof. reflexivity. Qed.

Lemma createDeprecation_message_nonempty (name : string) (o : option DeprecationOptions) :
  truthy (Some (formattedMessage (createDeprecation formatStringFromArgs name o))) = true.
Proof.
  unfold createDeprecation; simpl.
  destruct (isSet (error (default _ o))); reflexivity.
Qed.

Lemma handleDeprecation_error (d : Deprecation) (w : DebugState H) :
  isSet (error (options d)) = true ->
  truthy (Some (formattedMessage d)) = true ->
  handleDeprecation d w =
  (Throw (mkError ("Debug Failure. " +:+ formattedMessage d) fn_handleDeprecation), d, w).
Proof.
  intros E T. unfold handleDeprecation. rewrite E. unfold fail.
  rewrite T. reflexivity.
Qed.

Lemma handleDeprecation_first (d : Deprecation) (w : DebugState H) :
  isSet (error (options d)) = false ->
  hasWrittenDeprecation d = false ->
  handleDeprecation d w =
  (Ok tt, warned d, snd (logMessage Warning (formattedMessage d) w)).
Proof.
  intros E F. unfold handleDeprecation. rewrite E, F. unfold log_warn.
  pose proof (logMessage_returns Warning (formattedMessage d) w) as R.
  destruct (logMessage Warning (formattedMessage d) w) as [r w']; simpl in *.
  subst r. reflexivity.
Qed.

Lemma handleDeprecation_later (d : Deprecation) (w : DebugState H) :
  isSet (error (options d)) = false ->
  hasWrittenDeprecation d = true ->
  handleDeprecation d w = (Ok tt, d, w).
Proof. intros E F. unfold handleDeprecation. now rewrite E, F. Qed.

Lemma invokeTimes_error (d : Deprecation) (n : nat) (w : DebugState H) :
  isSet (error (options d)) = true ->
  truthy (Some (formattedMessage d)) = true ->
  invokeTimes n d w =
  (repeat (Throw (mkError ("Debug Failure. " +:+ formattedMessage d)
                          fn_handleDeprecation)) n, d, w).
Proof.
  intros E T. induction n as [|n IH]; simpl; [reflexivity|].
  rewrite (handleDeprecation_error d w E T), IH. reflexivity.
Qed.

Lemma invokeTimes_later (d : Deprecation) (n : nat) (w : DebugState H) :
  isSet (error (options d)) = false ->
  hasWrittenDeprecation d = true ->
  invokeTimes n d w = (repeat (Ok tt) n, d, w).
Proof.
  intros E F. induction n as [|n IH]; simpl; [reflexivity|].
  rewrite (handleDeprecation_later d w E F), IH. reflexivity.
Qed.

(** C4: for the closure [d] returned by [createDeprecation] and [n >= 1]
    invocations of it.  If [options.error] is set, every invocation raises
    the same error, built from the formatted message, and neither the
    closure nor the namespace state changes.  Otherwise every invocation
    returns normally; the first one hands the formatted message to the
    logger with severity Warning and sets the closure's flag, and every
    later one changes nothing, so that the state after the [n] invocations
    is the state after that single logger call. *)
Theorem deprecation_fails_always_or_warns_once (name : string)
    (o : option DeprecationOptions) (n : nat) (w : DebugState H) :
  (1 <= n)%nat ->
  let d := createDeprecation formatStringFromArgs name o in
  if errorIsSet o
  then invokeTimes n d w =
         (repeat (Throw (mkError ("Debug Failure. " +:+ formattedMessage d)
                                 fn_handleDeprecation)) n, d, w)
  else invokeTimes n d w =
         (repeat (Ok tt) n, warned d, snd (logMessage Warning (formattedMessage d) w))
       /\ handleDeprecation d w =
            (Ok tt, warned d, snd (logMessage Warning (formattedMessage d) w))
       /\ forall w', handleDeprecation (warned d) w' = (Ok tt, warned d, w').
Proof using Type.
  intros L d.
  pose proof (createDeprecation_error name o) as E. fold d in E.
  destruct (errorIsSet o).
  - apply invokeTimes_error; [exact E|apply createDeprecation_message_nonempty].
  - assert (F : hasWrittenDeprecation d = false) by reflexivity.
    split; [|split].
    + destruct n as [|n]; [lia|]. simpl.
      rewrite (handleDeprecation_first d w E F).
      rewrite (invokeTimes_later (warned d) n _ E eq_refl). reflexivity.
    + apply handleDeprecation_first; assumption.
    + intros w'. apply handleDeprecation_later; [exact E|reflexivity].
Qed.

End DeprecationProperties.

(** With a recording sink and the default threshold, three invocations of a
    default deprecation leave exactly one Warning in the sink; with
    [error: true], three invocations raise three times and the sink stays
    empty. *)
Lemma deprecation_witness :
  let w : DebugState (list (LogLevel * string)) :=
    {| currentAssertionLevel := 0; currentLogLevel := Warning;
       isDebugging := false; loggingHost := Some [] |} in
  let fmt := fun (text : string) (_ : list string) (_ : number) => text in
  (fst (fst (invokeTimes 3 (createDeprecation fmt "f" None) w)) = [Ok tt; Ok tt; Ok tt]
   /\ loggingHost (snd (invokeTimes 3 (createDeprecation fmt "f" None) w))
      = Some [(Warning, "DeprecationWarning: 'f' is deprecated.")])
  /\ (fst (fst (invokeTimes 3 (createDeprecation fmt "f"
                  (Some {| message := None; error := Some true;
                           since := None; until := None |})) w))
      = repeat (Throw (mkError
          "Debug Failure. DeprecationError: 'f' is deprecated and can no longer be used."
          fn_handleDeprecation)) 3
      /\ snd (invokeTimes 3 (createDeprecation fmt "f"
                  (Some {| message := None; error := Some true;
                           since := None; until := None |})) w) = w).
Proof.
  intros w fmt. split.
  - pose proof (deprecation_fails_always_or_warns_once fmt "f" None 3 w
                  ltac:(lia)) as E.
    hnf in E. destruct E as [E _]. split.
    + exact (f_equal (fun x => fst (fst x)) E).
    + exact (f_equal (fun x => loggingHost (snd x)) E).
  - pose proof (deprecation_fails_always_or_warns_once fmt "f"
                  (Some {| message := None; error := Some true;
                           since := None; until := None |}) 3 w ltac:(lia)) as E.
    hnf in E. split.
    + exact (f_equal (fun x => fst (fst x)) E).
    + exact (f_equal snd E).
Defined.

(** ** The enumeration formatter *)


Lemma insertSorted_perm {A : Type} (cmp : A -> A -> comparison) (x : A) (l : list A) :
  Permutation (insertSorted cmp x l) (x :: l).
Proof.
  induction l as [|y l IH]; simpl; [reflexivity|].
  destruct (cmp x y); try reflexivity.
  rewrite IH. apply perm_swap.
Qed.

(** Members of equal value keep their relative order. *)
Lemma insertSorted_stable (v : number) (x : number * string)
    (l : list (number * string)) :
  List.filter (fun m => fst m =? v)
    (insertSorted (fun a b => compareValues (fst a) (fst b)) x l)
  = List.filter (fun m => fst m =? v) (x :: l).
Proof.
  induction l as [|y l IH]; [reflexivity|].
  cbn [insertSorted]. unfold compareValues at 1.
  destruct (Z.compare_spec (fst x) (fst y)) as [E|L|G]; try reflexivity.
  cbn [List.filter] in *. rewrite IH.
  destruct (Z.eqb_spec (fst x) v), (Z.eqb_spec (fst y) v); try reflexivity; lia.
Qed.


Lemma getEnumMembers_perm (enumObject : EnumObject) :
  Permutation (getEnumMembers enumObject) (collectEnumMembers enumObject).
Proof.
  unfold getEnumMembers, stableSort.
  induction (collectEnumMembers enumObject) as [|x l IH]; simpl; [reflexivity|].
  rewrite insertSorted_perm. now constructor.
Qed.

Lemma getEnumMembers_stable (enumObject : EnumObject) (v : number) :
  List.filter (fun m => fst m =? v) (getEnumMembers enumObject)
  = List.filter (fun m => fst m =? v) (collectEnumMembers enumObject).
Proof.
  unfold getEnumMembers, stableSort.
  induction (collectEnumMembers enumObject) as [|x l IH]; [reflexivity|].
  cbn [foldr]. rewrite insertSorted_stable. cbn [List.filter]. now rewrite IH.
Qed.

Lemma filter_head_find {A : Type} (f : A -> bool) (l : list A) :
  match List.filter f l with x :: _ => Some x | [] => None end = List.find f l.
Proof.
  induction l as [|x l IH]; simpl; [reflexivity|]. now destruct (f x).
Qed.

Lemma firstNamed_find (members : list (number * string)) (value : number) :
  firstNamed members value
  = option_map snd (List.find (fun member => fst member =? value) members).
Proof.
  induction members as [|[v n] l IH]; simpl; [reflexivity|].
  now destruct (v =? value).
Qed.

Lemma bitAnd_0_l (v : number) : bitAnd 0 v = 0.
Proof. unfold bitAnd. reflexivity. Qed.

Lemma consumeFlag_zero (filter : option (number -> string -> bool))
    (text : string) (member : number * string) :
  consumeFlag filter (0, text) member = (0, text).
Proof.
  unfold consumeFlag.
  destruct (Z.eqb_spec (fst member) 0) as [E|N]; cbn [orb]; [reflexivity|].
  destruct (negb _); [reflexivity|].
  rewrite bitAnd_0_l.
  destruct (Z.eqb_spec 0 (fst member)); [lia|reflexivity].
Qed.

Lemma consumeFlag_nothing_left (filter : option (number -> string -> bool))
    (text : string) (l : list (number * string)) :
  fold_left (consumeFlag filter) l (0, text) = (0, text).
Proof.
  induction l as [|m l IH]; cbn [fold_left]; [reflexivity|].
  now rewrite consumeFlag_zero.
Qed.

Lemma pipeJoin_template (name accumulated : string) :
  name +:+ (if truthy (Some accumulated) then "|" else "") +:+ accumulated
  = pipeJoin name accumulated.
Proof.
  destruct accumulated; [|reflexivity].
  cbn [truthy pipeJoin]. now rewrite !append_nil_r.
Qed.

(** The index loop with its early exit is the right-to-left scan. *)
Lemma flagsLoop_scan (members : list (number * string))
    (filter : option (number -> string -> bool)) (n : nat)
    (remaining : number) (text : string) :
  (n <= length members)%nat ->
  flagsLoop members filter n remaining text
  = fold_left (consumeFlag filter) (rev (take n members)) (remaining, text).
Proof.
  revert remaining text.
  induction n as [|i IH]; intros remaining text L.
  - reflexivity.
  - cbn [flagsLoop].
    destruct (lookup_lt_is_Some_2 members i ltac:(lia)) as [[v name] Hi].
    rewrite (take_S_r _ _ _ Hi), rev_app_distr. cbn [rev app fold_left].
    rewrite Hi.
    destruct (Z.eqb_spec remaining 0) as [Z0|NZ].
    { subst remaining. symmetry. apply (consumeFlag_nothing_left filter text (_ :: _)). }
    unfold consumeFlag at 2. cbn [fst snd].
    destruct (passesFilter filter v name); cbn [negb andb orb].
    + destruct (Z.eqb_spec v 0); cbn [negb andb orb].
      * apply IH. lia.
      * destruct (bitAnd remaining v =? v).
        -- rewrite pipeJoin_template. apply IH. lia.
        -- apply IH. lia.
    + rewrite orb_true_r. apply IH. lia.
Qed.

Lemma formatEnum_reference_eq (value : option number)
    (enumObject : EnumObject) (isFlags : bool)
    (filter : option (number -> string -> bool)) :
  formatEnum value enumObject isFlags filter
  = formatEnum_reference value enumObject isFlags filter.
Proof.
  unfold formatEnum, formatEnum_reference.
  set (v := default 0 value). set (members := getEnumMembers enumObject).
  destruct (v =? 0).
  - rewrite <- filter_head_find. now destruct (List.filter _ members).
  - destruct isFlags; cbn [negb].
    + rewrite flagsLoop_scan by lia. rewrite firstn_all. reflexivity.
    + rewrite firstNamed_find. now destruct (List.find _ members).
Qed.


(** Without [isFlags]: the name when exactly one member has the value, the
    decimal string when none has. *)
Lemma formatEnum_plain_no_member (v : number) (enumObject : EnumObject) :
  v <> 0 ->
  (forall m, In m (getEnumMembers enumObject) -> fst m <> v) ->
  formatEnum (Some v) enumObject false None = toString v.
Proof.
  intros NZ Hnone.
  rewrite formatEnum_reference_eq.
  unfold formatEnum_reference. change (default 0 (Some v)) with v. cbn [negb].
  destruct (Z.eqb_spec v 0); [contradiction|].
  destruct (List.find _ _) as [m|] eqn:F; [|reflexivity].
  apply find_some in F as [Hin Hv]. apply Z.eqb_eq in Hv.
  now destruct (Hnone m Hin).
Qed.

Lemma formatEnum_plain_member (v : number) (enumObject : EnumObject) :
  v <> 0 ->
  (exists m, In m (getEnumMembers enumObject) /\ fst m = v) ->
  exists m, In m (getEnumMembers enumObject) /\ fst m = v
            /\ formatEnum (Some v) enumObject false None = snd m.
Proof.
  intros NZ [m0 [Hin0 Hv0]].
  rewrite formatEnum_reference_eq.
  unfold formatEnum_reference. change (default 0 (Some v)) with v. cbn [negb].
  destruct (Z.eqb_spec v 0); [contradiction|].
  destruct (List.find _ _) as [m|] eqn:F.
  - apply find_some in F as [Hin Hv]. apply Z.eqb_eq in Hv. eauto.
  - pose proof (find_none _ _ F m0 Hin0) as X. cbn beta in X.
    apply Z.eqb_neq in X. contradiction.
Qed.

(** With leftover bits the result is the decimal string of the original
    value, whatever was decomposed before. *)
Lemma formatEnum_flags_leftover (v : number) (enumObject : EnumObject)
    (filter : option (number -> string -> bool)) :
  v <> 0 ->
  fst (fold_left (consumeFlag filter) (rev (getEnumMembers enumObject)) (v, "")) <> 0 ->
  formatEnum (Some v) enumObject true filter = toString v.
Proof.
  intros NZ Hleft.
  rewrite formatEnum_reference_eq.
  unfold formatEnum_reference. change (default 0 (Some v)) with v. cbn [negb].
  destruct (Z.eqb_spec v 0); [contradiction|].
  destruct (fold_left _ _ _) as [remaining text]. cbn [fst] in Hleft.
  destruct (Z.eqb_spec remaining 0); [contradiction|reflexivity].
Qed.

Example formatEnum_samples :
  getEnumMembers sampleFlags
    = [(0, "None"); (1, "A"); (2, "B"); (2, "Alias"); (3, "AB"); (4, "C")]
  /\ formatEnum None sampleFlags true None = "None"
  /\ formatEnum (Some 2) sampleFlags false None = "B"
  /\ formatEnum (Some 9) sampleFlags false None = "9"
  /\ formatEnum (Some 7) sampleFlags true None = "AB|C"
  /\ formatEnum (Some 6) sampleFlags true None = "Alias|C"
  /\ formatEnum (Some 12) sampleFlags true None = "12"
  /\ formatEnum (Some 7) sampleFlags true
       (Some (fun _ name => negb (String.eqb name "AB"))) = "A|Alias|C"
  /\ formatEnum (Some 4294967297) sampleFlags true None = "A".
Proof. vm_compute. repeat split. Qed.

(** ** Soundness of the matcher *)

Lemma substring_0_append (x s : string) :
  substring 0 (String.length x) (x +:+ s) = x.
Proof.
  induction x as [|a x IH]; cbn [String.length].
  - destruct s; reflexivity.
  - rewrite append_cons. cbn [substring]. now rewrite IH.
Qed.

Lemma consumed_append (x s : string) : consumed (x +:+ s) s = x.
Proof.
  unfold consumed. rewrite length_append.
  replace (String.length x + String.length s - String.length s)%nat
    with (String.length x) by lia.
  apply substring_0_append.
Qed.

Lemma starLoop_sound body R greedy :
  Sound body R ->
  forall fuel k st res,
    starLoop body greedy k fuel st = Some res ->
    exists x s c' p',
      rest st = x +:+ s /\ Star R x s (caps st) c'
      /\ k {| prev := p'; rest := s; caps := c' |} = Some res.
Proof.
  intros HS fuel. induction fuel as [|fuel IH]; intros k st res E.
  - cbn [starLoop] in E. exists "", (rest st), (caps st), (prev st).
    split; [reflexivity|]. split; [constructor|]. now destruct st.
  - cbn [starLoop] in E.
    assert (Hstop : k st = Some res ->
      exists x s c' p', rest st = x +:+ s /\ Star R x s (caps st) c'
        /\ k {| prev := p'; rest := s; caps := c' |} = Some res).
    { intros Ek. exists "", (rest st), (caps st), (prev st).
      split; [reflexivity|]. split; [constructor|]. now destruct st. }
    assert (Hmore :
      body (fun st' =>
              if (String.length (rest st') <? String.length (rest st))%nat
              then starLoop body greedy k fuel st' else None) st = Some res ->
      exists x s c' p', rest st = x +:+ s /\ Star R x s (caps st) c'
        /\ k {| prev := p'; rest := s; caps := c' |} = Some res).
    { intros Em. apply HS in Em as (x1 & s1 & c1 & p1 & E1 & M1 & K1).
      cbn [rest] in K1.
      destruct (String.length s1 <? String.length (rest st))%nat; [|discriminate].
      apply IH in K1 as (x2 & s2 & c2 & p2 & E2 & M2 & K2).
      cbn [rest caps] in E2, M2. subst s1.
      exists (x1 +:+ x2), s2, c2, p2.
      split; [now rewrite append_assoc|]. split; [|exact K2].
      econstructor; eassumption. }
    destruct greedy.
    + destruct (body _ st) as [m|] eqn:Em.
      * injection E as ->. apply Hmore. reflexivity.
      * apply Hstop. exact E.
    + destruct (k st) as [m|] eqn:Ek.
      * injection E as ->. apply Hstop. reflexivity.
      * apply Hmore. exact E.
Qed.

Theorem rmatch_sound (r : regex) : Sound (rmatch r) (Matches r).
Proof.
  induction r as [|p|r1 IH1 r2 IH2|r1 IH1 r2 IH2|g r1 IH1|i r1 IH1|pos r1 IH1| | |];
    intros k st res E; cbn [rmatch] in E.
  - exists "", (rest st), (caps st), (prev st).
    split; [reflexivity|]. split; [now split|]. now destruct st.
  - destruct (rest st) as [|a s'] eqn:Er; [discriminate|].
    destruct (p a) eqn:Ep; [|discriminate].
    exists (String a ""), s', (caps st), (Some a).
    split; [reflexivity|]. split; [|exact E]. exists a. auto.
  - apply IH1 in E as (x1 & s1 & c1 & p1 & E1 & M1 & K1).
    apply IH2 in K1 as (x2 & s2 & c2 & p2 & E2 & M2 & K2).
    cbn [rest caps] in E2, M2. subst s1.
    exists (x1 +:+ x2), s2, c2, p2.
    split; [now rewrite append_assoc|]. split; [|exact K2].
    exists x1, x2, c1. auto.
  - destruct (rmatch r1 k st) as [m|] eqn:E1.
    + rewrite <- E1 in E. apply IH1 in E as (x & s & c' & p' & Ex & M & K).
      exists x, s, c', p'. cbn [Matches]. auto.
    + apply IH2 in E as (x & s & c' & p' & Ex & M & K).
      exists x, s, c', p'. cbn [Matches]. auto.
  - eapply starLoop_sound in E; [|exact IH1]. exact E.
  - apply IH1 in E as (x & s & c' & p' & Ex & M & K).
    unfold setCap in K. cbn [rest caps prev] in K.
    rewrite Ex, consumed_append in K.
    exists x, s, ((i, x) :: c'), p'.
    split; [exact Ex|]. split; [|exact K]. exists c'. auto.
  - destruct (rmatch r1 Some st) as [st'|] eqn:E1.
    + destruct pos; [|discriminate].
      apply IH1 in E1 as (y & s' & c' & p' & Ey & M & K).
      injection K as <-. cbn [caps] in E.
      exists "", (rest st), c', (prev st).
      split; [reflexivity|]. split; [|exact E].
      split; [reflexivity|]. exists y, s'. auto.
    + destruct pos; [discriminate|].
      exists "", (rest st), (caps st), (prev st).
      split; [reflexivity|]. split; [now split|]. now destruct st.
  - destruct (prev st) eqn:Ep; [discriminate|].
    exists "", (rest st), (caps st), (prev st).
    split; [reflexivity|]. split; [now split|]. now destruct st.
  - destruct (rest st) eqn:Er; [|discriminate].
    exists "", "", (caps st), (prev st).
    split; [reflexivity|]. split; [now repeat split|].
    destruct st; cbn [rest prev caps] in *. now subst.
  - destruct (xorb _ _); [|discriminate].
    exists "", (rest st), (caps st), (prev st).
    split; [reflexivity|]. split; [now split|]. now destruct st.
Qed.

Lemma Star_noGroup (R : string -> string -> list (nat * string) -> list (nat * string) -> Prop) :
  (forall x s c c', R x s c c' -> c' = c) ->
  forall x s c c', Star R x s c c' -> c' = c.
Proof.
  intros HR x s c c' HS. induction HS as [|x1 x2 s c cm c' H1 _ IH]; [reflexivity|].
  apply HR in H1. congruence.
Qed.

Lemma Matches_noGroup (r : regex) :
  noGroup r = true -> forall x s c c', Matches r x s c c' -> c' = c.
Proof.
  induction r as [|p|r1 IH1 r2 IH2|r1 IH1 r2 IH2|g r1 IH1|i r1 IH1|pos r1 IH1| | |];
    cbn [noGroup Matches]; intros N x s c c' M.
  - now destruct M.
  - now destruct M as (a & _ & _ & ->).
  - apply andb_true_iff in N as [N1 N2].
    destruct M as (x1 & x2 & cm & _ & M1 & M2).
    apply IH1 in M1; [|exact N1]. apply IH2 in M2; [|exact N2]. congruence.
  - apply andb_true_iff in N as [N1 N2]. destruct M as [M|M]; eauto.
  - eapply Star_noGroup; [|exact M]. intros; eapply IH1; eauto.
  - discriminate.
  - destruct pos.
    + destruct M as (_ & y & s' & _ & M). eapply IH1; eauto.
    + now destruct M.
  - now destruct M.
  - now destruct M as (_ & -> & _).
  - now destruct M.
Qed.

Lemma Matches_rLit (l x s : string) (c c' : list (nat * string)) :
  Matches (rLit l) x s c c' -> x = l /\ c' = c.
Proof.
  revert x s c c'. induction l as [|a l IH]; cbn [rLit Matches]; intros x s c c' M.
  - exact M.
  - destruct M as (x1 & x2 & cm & -> & (b & -> & Eb & ->) & M2).
    apply IH in M2 as [-> ->]. apply Ascii.eqb_eq in Eb. now subst b.
Qed.

Lemma Star_rChar (p : ascii -> bool) (x s : string) (c c' : list (nat * string)) :
  Star (Matches (rChar p)) x s c c' -> allChars p x = true /\ c' = c.
Proof.
  intros HS. induction HS as [|x1 x2 s c cm c' H1 _ IH]; [auto|].
  destruct H1 as (a & -> & Ea & ->). destruct IH as [IH ->].
  split; [|reflexivity]. rewrite append_cons. cbn [allChars]. now rewrite Ea.
Qed.

(** A match anchored with [^] starts at the beginning of the text. *)
Lemma search_anchored_later (r : regex) (a : ascii) (s : string) :
  search (rSeq rBol r) (Some a) s = None.
Proof.
  revert a. induction s as [|b s IH]; intros a; cbn [search rmatch prev]; [reflexivity|].
  now rewrite IH.
Qed.

Lemma exec_anchored (r : regex) (s : string) (m : MatchResult) :
  exec (rSeq rBol r) s = Some m ->
  before m = ""
  /\ exists x s' c',
       s = x +:+ s' /\ Matches r x s' [] c' /\ rest (final m) = s' /\ caps (final m) = c'.
Proof.
  unfold exec. destruct s as [|a s]; cbn [search].
  - destruct (rmatch (rSeq rBol r) Some _) as [st|] eqn:E; [|discriminate].
    intros [= <-]. split; [reflexivity|].
    apply rmatch_sound in E as (x & s' & c' & p' & Ex & M & [= <-]).
    cbn [rest caps] in *. destruct M as (x1 & x2 & cm & -> & (-> & ->) & M2).
    exists x2, s', c'. auto.
  - destruct (rmatch (rSeq rBol r) Some _) as [st|] eqn:E.
    + intros [= <-]. split; [reflexivity|].
      apply rmatch_sound in E as (x & s' & c' & p' & Ex & M & [= <-]).
      cbn [rest caps] in *. destruct M as (x1 & x2 & cm & -> & (-> & ->) & M2).
      exists x2, s', c'. auto.
    + now rewrite search_anchored_later.
Qed.

(** ** Decimal numerals *)






(** ** The fuel of the quantifier loop

    The loop of a quantifier is run with as much fuel as there are
    characters left.  Each further iteration has to consume a character, so
    any larger amount of fuel gives the same result: the fuel is never what
    stops the loop. *)

Lemma starLoop_ext body greedy :
  Extensional body -> forall fuel, Extensional (fun k => starLoop body greedy k fuel).
Proof.
  intros HB fuel. induction fuel as [|fuel IH]; intros k1 k2 st E; cbn [starLoop].
  - apply E.
  - rewrite (E st).
    rewrite (HB _ (fun st' =>
               if (String.length (rest st') <? String.length (rest st))%nat
               then starLoop body greedy k2 fuel st' else None) st); [reflexivity|].
    intros s. destruct (_ <? _)%nat; [|reflexivity]. now apply IH.
Qed.

Lemma starLoop_none body greedy :
  Extensional body -> FailsWith body ->
  forall fuel, FailsWith (fun k => starLoop body greedy k fuel).
Proof.
  intros HB HN fuel. induction fuel as [|fuel IH]; intros k st E; cbn [starLoop].
  - apply E.
  - rewrite (E st).
    rewrite (HN _ st); [now destruct greedy|].
    intros s. destruct (_ <? _)%nat; [|reflexivity]. now apply IH.
Qed.

Lemma rmatch_ext (r : regex) : Extensional (rmatch r).
Proof.
  induction r as [|p|r1 IH1 r2 IH2|r1 IH1 r2 IH2|g r1 IH1|i r1 IH1|pos r1 IH1| | |];
    intros k1 k2 st E; cbn [rmatch]; rewrite ?E; try reflexivity.
  - destruct (rest st); [reflexivity|]. now rewrite E.
  - apply IH1. intros s. now apply IH2.
  - rewrite (IH1 k1 k2 st E), (IH2 k1 k2 st E). reflexivity.
  - now apply starLoop_ext.
  - apply IH1. intros s. apply E.
  - destruct (rmatch r1 Some st); now rewrite ?E.
Qed.

Lemma rmatch_none (r : regex) : FailsWith (rmatch r).
Proof.
  induction r as [|p|r1 IH1 r2 IH2|r1 IH1 r2 IH2|g r1 IH1|i r1 IH1|pos r1 IH1| | |];
    intros k st E; cbn [rmatch]; rewrite ?E; try reflexivity.
  - destruct (rest st); [reflexivity|]. rewrite E. now destruct (p a).
  - apply IH1. intros s. now apply IH2.
  - now rewrite (IH1 k st E), (IH2 k st E).
  - apply starLoop_none; [apply rmatch_ext|exact IH1|exact E].
  - apply IH1. intros s. apply E.
  - destruct (rmatch r1 Some st); destruct pos; rewrite ?E; reflexivity.
  - now destruct (prev st).
  - now destruct (rest st).
  - now destruct (xorb _ _).
Qed.

Lemma starLoop_enough body greedy (k : MatchState -> option MatchState) :
  Extensional body -> FailsWith body ->
  forall n m st,
    (String.length (rest st) <= n)%nat -> (String.length (rest st) <= m)%nat ->
    starLoop body greedy k n st = starLoop body greedy k m st.
Proof.
  intros HB HN.
  assert (Hzero : forall m st, String.length (rest st) = 0%nat ->
                    starLoop body greedy k m st = k st).
  { intros [|m] st Z; [reflexivity|]. cbn [starLoop].
    rewrite (HN _ st); [now destruct greedy; destruct (k st)|].
    intros s. rewrite Z. reflexivity. }
  induction n as [|n IH]; intros m st Ln Lm.
  - cbn [starLoop]. symmetry. apply Hzero. lia.
  - destruct m as [|m]; [rewrite (Hzero (S n)) by lia; reflexivity|].
    cbn [starLoop].
    rewrite (HB _ (fun st' =>
               if (String.length (rest st') <? String.length (rest st))%nat
               then starLoop body greedy k m st' else None) st); [reflexivity|].
    intros s. destruct (Nat.ltb_spec (String.length (rest s)) (String.length (rest st)));
      [|reflexivity].
    apply IH; lia.
Qed.

(** The quantifier case of the matcher, with any fuel from the length of
    the remaining text on. *)
Lemma rmatch_star_fuel (greedy : bool) (r : regex)
    (k : MatchState -> option MatchState) (st : MatchState) (fuel : nat) :
  (String.length (rest st) <= fuel)%nat ->
  rmatch (rStar greedy r) k st = starLoop (rmatch r) greedy k fuel st.
Proof.
  intros L. cbn [rmatch].
  apply starLoop_enough; [apply rmatch_ext|apply rmatch_none|lia|exact L].
Qed.

(** ** What the expressions of the stack-frame grammar accept *)

Lemma append_eq_nil (x y : string) : x +:+ y = "" -> x = "" /\ y = "".
Proof. destruct x; [auto|discriminate]. Qed.

Lemma Matches_nonNull (r : regex) :
  nonNull r = true -> forall x s c c', Matches r x s c c' -> x <> "".
Proof.
  induction r as [|p|r1 IH1 r2 IH2|r1 IH1 r2 IH2|g r1 IH1|i r1 IH1|pos r1 IH1| | |];
    cbn [nonNull Matches]; intros N x s c c' M; try discriminate N.
  - destruct M as (a & -> & _). discriminate.
  - destruct M as (x1 & x2 & cm & -> & M1 & M2). intros E.
    apply append_eq_nil in E as [-> ->].
    apply orb_true_iff in N as [N|N]; [now apply IH1 in M1|now apply IH2 in M2].
  - apply andb_true_iff in N as [N1 N2]. destruct M as [M|M]; eauto.
  - destruct M as (cm & M & _). eauto.
Qed.

Lemma Matches_rPlus_rChar (p : ascii -> bool) (x s : string) (c c' : list (nat * string)) :
  Matches (rPlus (rChar p)) x s c c' -> allChars p x = true /\ x <> "" /\ c' = c.
Proof.
  intros (x1 & x2 & cm & -> & (a & -> & Ea & ->) & M2).
  apply Star_rChar in M2 as [D ->].
  change (String a "" +:+ x2) with (String a x2).
  cbn [allChars]. rewrite Ea, D. repeat split. discriminate.
Qed.

Lemma exec_frameLineRegExp (line : string) (m : MatchResult) :
  exec frameLineRegExp line = Some m ->
  exists position,
    line = "    at " +:+ position
    /\ group 1 m = Some position
    /\ allChars (fun c => negb (isLineTerminator c)) position = true.
Proof.
  intros E. apply exec_anchored in E as (_ & x & s' & c' & -> & M & _ & Ec).
  destruct M as (x1 & x2 & cm & -> & M1 & (x3 & x4 & cm2 & -> & (cm3 & M3 & ->) & (-> & -> & ->))).
  apply Matches_rLit in M1 as [-> ->].
  apply Star_rChar in M3 as [D ->].
  exists x3. split; [now rewrite !append_nil_r|].
  split; [|exact D]. unfold group. now rewrite Ec.
Qed.

Lemma exec_evalLocationRegExp (location : string) (m : MatchResult) :
  exec evalLocationRegExp location = Some m ->
  exists origin, location = "eval at " +:+ origin /\ group 1 m = Some origin.
Proof.
  intros E. apply exec_anchored in E as (_ & x & s' & c' & -> & M & _ & Ec).
  destruct M as (x1 & x2 & cm & -> & M1 & (x3 & x4 & cm2 & -> & (cm3 & M3 & ->) & (-> & -> & ->))).
  apply Matches_rLit in M1 as [-> ->].
  exists x3. split; [now rewrite !append_nil_r|].
  unfold group. now rewrite Ec.
Qed.


Lemma Matches_opt_group (i : nat) (r : regex) (x s : string) (c c' : list (nat * string)) :
  Matches (rOpt (rGroup i r)) x s c c' ->
  (x = "" /\ c' = c) \/ (exists cm, Matches r x s c cm /\ c' = (i, x) :: cm).
Proof. intros [M|M]; [right; exact M|left; exact M]. Qed.

Lemma Star_dotted (r : regex) (x s : string) (c c' : list (nat * string)) :
  Star (Matches (rSeq r (rLit "."))) x s c c' ->
  x = "" \/ exists y, x = y +:+ ".".
Proof.
  intros HS. induction HS as [|x1 x2 s c cm c' H1 _ IH]; [now left|right].
  destruct H1 as (w & z & cm' & -> & _ & M). apply Matches_rLit in M as [-> _].
  destruct IH as [->|[y ->]].
  - exists w. now rewrite append_nil_r.
  - exists (w +:+ "." +:+ y). now rewrite !append_assoc.
Qed.

Lemma Matches_typeNames (x s : string) (c c' : list (nat * string)) :
  Matches (rPlus (rSeq (rPlus (rNot ".")) (rLit "."))) x s c c' ->
  c' = c /\ exists y, x = y +:+ "." /\ y <> "".
Proof.
  intros M. split; [eapply Matches_noGroup; [|exact M]; reflexivity|].
  destruct M as (x1 & x2 & cm & -> & (w & z & cm' & -> & Mw & Mz) & MS).
  apply Matches_rLit in Mz as [-> _].
  assert (Hw : w <> "") by (eapply Matches_nonNull; [|exact Mw]; reflexivity).
  apply Star_dotted in MS as [->|[y ->]].
  - exists w. now rewrite append_nil_r.
  - exists (w +:+ "." +:+ y). split; [now rewrite !append_assoc|].
    intros E. now apply append_eq_nil in E as [? _].
Qed.

Lemma exec_positionRegExp (position : string) (m : MatchResult) :
  exec positionRegExp position = Some m ->
  exists a n t f mth loc,
    position = optText a +:+ optText n +:+ optText t +:+ f +:+ methodText mth
               +:+ " (" +:+ loc +:+ ")"
    /\ group 1 m = a /\ group 2 m = n /\ group 3 m = t /\ group 4 m = Some f
    /\ group 5 m = mth /\ group 6 m = Some loc
    /\ (a = None \/ a = Some "async ")
    /\ (n = None \/ n = Some "new ")
    /\ (forall ty, t = Some ty -> exists y, ty = y +:+ "." /\ y <> "")
    /\ (forall mn, mth = Some mn -> mn <> "").
Proof.
  intros E. apply exec_anchored in E as (_ & x & s' & c' & -> & M & _ & Ec).
  destruct M as (xa & x1 & ca & -> & MA & M).
  destruct M as (xn & x2 & cn & -> & MN & M).
  destruct M as (xt & x3 & ct & -> & MT & M).
  destruct M as (f & x4 & cf & -> & (cf' & MF & ->) & M).
  destruct M as (xm & x5 & cm & -> & MM & M).
  destruct M as (xp & x6 & cp & -> & MP & M).
  destruct M as (loc & x7 & cl & -> & (cl' & ML & ->) & M).
  destruct M as (xq & x8 & cq & -> & MQ & (-> & -> & ->)).
  apply Matches_rLit in MP as [-> ->].
  apply Matches_rLit in MQ as [-> ->].
  apply Matches_noGroup in MF; [|reflexivity]. subst cf'.
  apply Matches_noGroup in ML; [|reflexivity]. subst cl'.
  unfold group. rewrite Ec. clear Ec.
  rewrite !append_nil_r.
  apply Matches_opt_group in MA as [[-> ->]|(ca' & MA & ->)];
    [|apply Matches_rLit in MA as [-> ->]];
  (apply Matches_opt_group in MN as [[-> ->]|(cn' & MN & ->)];
    [|apply Matches_rLit in MN as [-> ->]]);
  (apply Matches_opt_group in MT as [[-> ->]|(ct' & MT & ->)];
    [|apply Matches_typeNames in MT as (-> & y & -> & Hy)]);
  (destruct MM as [MM|[-> ->]];
    [destruct MM as (m1 & m2 & cm1 & -> & MM1 & (mn & m3 & cm2 & -> & (cm3 & MM2 & ->) & MM3));
     apply Matches_rLit in MM1 as [-> ->];
     apply Matches_rLit in MM3 as [-> ->];
     assert (Hmn : mn <> "") by (eapply Matches_nonNull; [|exact MM2]; reflexivity);
     apply Matches_noGroup in MM2; [|reflexivity]; subst cm3|]).
  all: match goal with
       | |- context [(1%nat, ?a)] => exists (Some a)
       | |- _ => exists None
       end.
  all: match goal with
       | |- context [(2%nat, ?a)] => exists (Some a)
       | |- _ => exists None
       end.
  all: match goal with
       | |- context [(3%nat, ?a)] => exists (Some a)
       | |- _ => exists None
       end.
  all: exists f.
  all: match goal with
       | |- context [(5%nat, ?a)] => exists (Some a)
       | |- _ => exists None
       end.
  all: exists loc.
  all: cbn [getCap Nat.eqb optText methodText].
  all: repeat split; auto; try (now rewrite ?append_nil_r, ?append_assoc);
       try (intros ? [= <-]; eauto); try discriminate.
Qed.

(** ** Parsing, then serializing *)




Section RoundTrip.
Context `{StackEnv}.

Lemma formatStackFrame_eq (frame : StackFrame) :
  formatStackFrame frame =
  if truthy (functionName frame) then
    ((((("    at "
         +:+ (if isSet (isAsync frame) then "async "
              else if isSet (isConstructor frame) then "new " else ""))
        +:+ (if truthy (typeName frame) then coerce (typeName frame) +:+ "." else ""))
       +:+ coerce (functionName frame))
      +:+ (if truthy (methodName frame)
           then " [as " +:+ coerce (methodName frame) +:+ "]" else ""))
     +:+ " (" +:+ formatLocation frame +:+ ")")
  else "    at " +:+ formatLocation frame.
Proof.
  destruct frame as [ty fn mn file ln col eo ic ia].
  unfold formatLocation. cbn [formatStackFrame functionName isAsync isConstructor
    typeName methodName].
  destruct (truthy fn); [|reflexivity].
  destruct (isSet ia), (isSet ic), (truthy ty), (truthy mn);
    rewrite ?append_nil_r, ?append_assoc; reflexivity.
Qed.





(** The fuel given by [parseStackFrame] is never used up: more fuel does
    not change the result. *)
Lemma parseStackFrameFuel_enough (n : nat) :
  forall k line,
    (String.length line < n)%nat -> (String.length line < k)%nat ->
    parseStackFrameFuel n line = parseStackFrameFuel k line.
Proof.
  induction n as [|n IH]; intros k line Ln Lk; [lia|].
  destruct k as [|k]; [lia|].
  cbn [parseStackFrameFuel].
  destruct (exec frameLineRegExp line) as [m|] eqn:E1; [|reflexivity].
  apply exec_frameLineRegExp in E1 as (position & -> & G & _).
  rewrite G. cbn [coerce].
  rewrite length_append in Ln, Lk. cbn [String.length] in Ln, Lk.
  assert (Hloc : forall location,
             (String.length location <= String.length position)%nat ->
             parseStackFrameLocationWith (parseStackFrameFuel n) location
             = parseStackFrameLocationWith (parseStackFrameFuel k) location).
  { intros location Ll. unfold parseStackFrameLocationWith.
    destruct (exec evalLocationRegExp location) as [m1|] eqn:Ee; [|reflexivity].
    apply exec_evalLocationRegExp in Ee as (origin & -> & G1).
    rewrite G1. cbn [coerce].
    rewrite length_append in Ll. cbn [String.length] in Ll.
    rewrite (IH k origin) by lia. reflexivity. }
  destruct (exec positionRegExp position) as [m2|] eqn:E2.
  - apply exec_positionRegExp in E2
      as (a & nw & t & f & mth & loc & Ep & _ & _ & _ & _ & _ & G6 & _).
    rewrite G6. cbn [coerce]. rewrite Hloc; [reflexivity|].
    rewrite Ep, !length_append. lia.
  - rewrite Hloc by lia. reflexivity.
Qed.



End RoundTrip.



(** Further lines that are accepted and do not come back: an empty function
    name, and an eval origin in the notation of the engine. *)
Example parse_then_format_more_samples :
  (formatStackFrame <$> @parseStackFrame sampleEnv "    at  (/a/b.js:1:1)")
    = Some "    at /a/b.js:1:1"
  /\ (formatStackFrame <$>
        @parseStackFrame sampleEnv "    at foo (eval at bar (/a/b.js:1:1))")
    = Some "    at foo (unknown location)"
  /\ (formatStackFrame <$>
        @parseStackFrame sampleEnv "    at foo (eval at     at bar (/a/b.js:1:1))")
    = Some "    at foo (eval at     at bar (/a/b.js:1:1))"
  /\ @parseStackFrame sampleEnv "Error: boom" = None
  /\ @parseStackFrame sampleEnv "    at b.js:1:1" = None.
Proof. vm_compute. repeat split. Qed.

(** ** The stack filter: collapsing of excluded frames *)

Lemma forallb_imp {A : Type} (f g : A -> bool) (l : list A) :
  (forall x, f x = true -> g x = true) ->
  forallb f l = true -> forallb g l = true.
Proof.
  intros I. induction l as [|x l IH]; [auto|]. cbn [forallb].
  intros E. apply andb_true_iff in E as [E1 E2].
  now rewrite (I x E1), (IH E2).
Qed.

Section Collapsing.
Context `{StackEnv}.
Implicit Types (opts : FilterStackOptions) (run : FilterRun) (line : string).

Lemma filterLine_other opts run line :
  frameOf opts line = None ->
  filterLine opts run line =
  {| filtered := filtered run ++ [line];
     frameCount := frameCount run;
     lastFrameWasExcluded := lastFrameWasExcluded run;
     excludedFrameCount := excludedFrameCount run;
     lastExcludedFrame := lastExcludedFrame run |}.
Proof.
  unfold frameOf, filterLine. now destruct (parseStackFrame line).
Qed.

Lemma filterLine_excluded_first opts run line :
  isExcludedLine opts (frameCount run) line = true ->
  lastFrameWasExcluded run = false ->
  filterLine opts run line =
  {| filtered := filtered run ++ [reformatted opts line];
     frameCount := frameCount run + 1;
     lastFrameWasExcluded := true;
     excludedFrameCount := excludedFrameCount run;
     lastExcludedFrame := lastExcludedFrame run |}.
Proof.
  unfold isExcludedLine, reformatted, frameOf, filterLine.
  destruct (parseStackFrame line); cbn [fmap option_fmap option_map]; [|discriminate].
  now intros -> ->.
Qed.

Lemma filterLine_excluded_next opts run line :
  isExcludedLine opts (frameCount run) line = true ->
  lastFrameWasExcluded run = true ->
  filterLine opts run line =
  {| filtered := filtered run;
     frameCount := frameCount run;
     lastFrameWasExcluded := true;
     excludedFrameCount := excludedFrameCount run + 1;
     lastExcludedFrame := Some (reformatted opts line) |}.
Proof.
  unfold isExcludedLine, reformatted, frameOf, filterLine.
  destruct (parseStackFrame line); cbn [fmap option_fmap option_map]; [|discriminate].
  now intros -> ->.
Qed.

Lemma filterLine_kept opts run line :
  isKeptLine opts (frameCount run) line = true ->
  filterLine opts run line =
  {| filtered :=
       (if excludedFrameCount run >? 0
        then filtered run ++ [skippingLine (excludedFrameCount run)]
        else filtered run) ++ [reformatted opts line];
     frameCount := frameCount run + 1;
     lastFrameWasExcluded := false;
     excludedFrameCount :=
       if excludedFrameCount run >? 0 then 0 else excludedFrameCount run;
     lastExcludedFrame := lastExcludedFrame run |}.
Proof.
  unfold isKeptLine, reformatted, frameOf, filterLine.
  destruct (parseStackFrame line); cbn [fmap option_fmap option_map]; [|discriminate].
  intros E. apply negb_true_iff in E. now rewrite E.
Qed.

Lemma isExcluded_mono opts (c c' : number) (frame : StackFrame) :
  c <= c' -> isExcluded opts c frame = true -> isExcluded opts c' frame = true.
Proof.
  unfold isExcluded. intros L.
  destruct (stackTraceLimit opts) as [limit|]; [|auto].
  destruct (Z.geb_spec c limit), (Z.geb_spec c' limit); auto; lia.
Qed.

Lemma isExcludedLine_mono opts (c c' : number) line :
  c <= c' -> isExcludedLine opts c line = true -> isExcludedLine opts c' line = true.
Proof.
  unfold isExcludedLine. destruct (frameOf opts line); [|auto].
  apply isExcluded_mono.
Qed.

(** Every line of a run of excluded frames after its first one is counted
    and remembered, and nothing is written. *)
Lemma excluded_run_counted opts (more : list string) :
  forall run,
    lastFrameWasExcluded run = true ->
    forallb (isExcludedLine opts (frameCount run)) more = true ->
    fold_left (filterLine opts) more run =
    {| filtered := filtered run;
       frameCount := frameCount run;
       lastFrameWasExcluded := true;
       excludedFrameCount := excludedFrameCount run + Z.of_nat (length more);
       lastExcludedFrame :=
         match last more with
         | Some line => Some (reformatted opts line)
         | None => lastExcludedFrame run
         end |}.
Proof.
  induction more as [|line more IH]; intros run L E.
  - cbn. destruct run; cbn in *. subst. f_equal. lia.
  - cbn [forallb] in E. apply andb_true_iff in E as [E1 E2].
    cbn [fold_left]. rewrite (filterLine_excluded_next _ _ _ E1 L).
    rewrite IH; [|reflexivity|exact E2]. cbn [filtered frameCount
      excludedFrameCount lastExcludedFrame]. f_equal.
    + cbn [length]. lia.
    + destruct more as [|line' more]; [reflexivity|].
      change (last (line :: line' :: more)) with (last (line' :: more)).
      destruct (last (line' :: more)) eqn:El; [reflexivity|].
      now apply last_None in El.
Qed.

(** In the states the loop reaches, the counter of excluded frames is not
    negative, and it is zero unless the last frame seen was excluded. *)
Lemma runAfter_counter opts (lines : list string) :
  0 <= excludedFrameCount (runAfter opts lines)
  /\ (lastFrameWasExcluded (runAfter opts lines) = false ->
      excludedFrameCount (runAfter opts lines) = 0).
Proof.
  unfold runAfter.
  assert (G : forall run,
             0 <= excludedFrameCount run
             /\ (lastFrameWasExcluded run = false -> excludedFrameCount run = 0) ->
             0 <= excludedFrameCount (fold_left (filterLine opts) lines run)
             /\ (lastFrameWasExcluded (fold_left (filterLine opts) lines run) = false ->
                 excludedFrameCount (fold_left (filterLine opts) lines run) = 0)).
  { induction lines as [|line lines IH]; intros run I; [exact I|].
    cbn [fold_left]. apply IH. destruct I as [I1 I2].
    unfold filterLine. destruct (parseStackFrame line) as [frame|]; [|exact (conj I1 I2)].
    destruct (isExcluded opts (frameCount run) _).
    - destruct (lastFrameWasExcluded run); cbn; split; try lia; discriminate.
    - cbn. destruct (Z.gtb_spec (excludedFrameCount run) 0); split; lia. }
  apply G. cbn. split; [lia|reflexivity].
Qed.


End Collapsing.



(** At the end of the input the rest of a run is flushed: the counter less
    one, then the last excluded frame. *)
Example trailing_run_sample :
  @outputLines sampleEnv excludeFileA
    ["Error: boom"; "    at keep (/x/b.js:4:1)"; "    at e1 (/x/a.js:1:1)";
     "    at e2 (/x/a.js:2:1)"; "    at e3 (/x/a.js:3:1)"; "    at e4 (/x/a.js:4:1)"]
  = ["Error: boom"; "    at keep (/x/b.js:4:1)"; "    at e1 (/x/a.js:1:1)";
     "    ... skipping 2 frames ..."; "    at e4 (/x/a.js:4:1)"].
Proof. vm_compute. reflexivity. Qed.

(** ** The stack filter on [Error] objects *)

Section ErrorObjects.
Context `{StackEnv} {V : Type}.

(** C10: given a reference to an [Error] object, [filterStack] returns that
    very reference; no other object of the heap changes; of the object
    itself every property other than [stack] is unchanged; when its
    [stack] is [undefined] or empty, the heap is unchanged altogether; and
    otherwise [stack] becomes the filtered text. *)
Theorem filterStack_error_object_frame (ref : nat) (opts : FilterStackOptions)
    (heap : gmap nat (ErrorObject V)) :
  fst (filterStack (AnError ref) opts heap) = AnError ref
  /\ (forall other : nat,
        other <> ref ->
        snd (filterStack (AnError ref) opts heap) !! other = heap !! other)
  /\ properties <$> (snd (filterStack (AnError ref) opts heap) !! ref)
     = properties <$> (heap !! ref)
  /\ (truthy (stackOf heap ref) = false ->
      snd (filterStack (AnError ref) opts heap) = heap)
  /\ (truthy (stackOf heap ref) = true ->
      stackOf (snd (filterStack (AnError ref) opts heap)) ref
      = Some (filterStackText opts (coerce (stackOf heap ref)))).
Proof.
  unfold filterStack, stackOf.
  destruct (heap !! ref) as [e|] eqn:E; cbn [truthy].
  - destruct (truthy (stack e)) eqn:T; cbn [fst snd].
    + split; [reflexivity|]. split; [|split; [|split]].
      * intros other N. now rewrite lookup_alter_ne.
      * rewrite lookup_alter_eq, E. reflexivity.
      * discriminate.
      * intros _. rewrite lookup_alter_eq, E. reflexivity.
    + rewrite E. repeat split; try reflexivity; discriminate.
  - cbn [fst snd]. rewrite E. repeat split; try reflexivity; discriminate.
Qed.

(** A string argument leaves the heap alone. *)
Lemma filterStack_string_heap (s : string) (opts : FilterStackOptions)
    (heap : gmap nat (ErrorObject V)) :
  snd (filterStack (AString s) opts heap) = heap.
Proof. unfold filterStack. now destruct (truthy (Some s)). Qed.

End ErrorObjects.

Lemma filterStack_error_object_witness :
  fst (@filterStack sampleEnv string (AnError 7) excludeFileA sampleHeap) = AnError 7
  /\ (properties <$>
        (snd (@filterStack sampleEnv string (AnError 7) excludeFileA sampleHeap)
           !! 7%nat))
     = Some sampleProperties
  /\ stackOf (snd (@filterStack sampleEnv string (AnError 7) excludeFileA sampleHeap)) 7
     = Some (join newline ["Error: boom"; "    at e1 (/x/a.js:1:1)";
                           "    ... skipping 2 frames ...";
                           "    at keep (/x/b.js:4:1)"]).
Proof.
  destruct (@filterStack_error_object_frame sampleEnv string 7 excludeFileA sampleHeap)
    as (R & _ & P & _ & S).
  split; [exact R|]. split; [exact P|].
  rewrite S by reflexivity. vm_compute. reflexivity.
Defined.

(** ** Lines: splitting and joining *)

Lemma noLineBreak_cons (c : ascii) (s : string) :
  noLineBreak (String c s) = negb (isLineTerminator c) && noLineBreak s.
Proof. reflexivity. Qed.

Lemma isLineTerminator_false (c : ascii) :
  Ascii.eqb c CR = false -> Ascii.eqb c LF = false -> isLineTerminator c = false.
Proof. unfold isLineTerminator. now intros -> ->. Qed.

Lemma splitLines_lines (s : string) :
  (splitLines s <> [] /\ Forall (fun l => noLineBreak l = true) (splitLines s))
  /\ forall c, splitLines (String c s) <> []
               /\ Forall (fun l => noLineBreak l = true) (splitLines (String c s)).
Proof.
  induction s as [|a s [[N0 F0] IH]].
  - split; [split; [discriminate|repeat constructor]|].
    intros c. cbn [splitLines].
    destruct (Ascii.eqb c CR) eqn:Ecr; [split; [discriminate|repeat constructor]|].
    destruct (Ascii.eqb c LF) eqn:Elf; [split; [discriminate|repeat constructor]|].
    split; [discriminate|]. repeat constructor.
    rewrite noLineBreak_cons, (isLineTerminator_false c Ecr Elf). reflexivity.
  - split; [apply IH|].
    intros c. destruct (IH a) as [Na Fa].
    change (splitLines (String c (String a s))) with
      (if Ascii.eqb c CR then
         if Ascii.eqb a LF then "" :: splitLines s else "" :: splitLines (String a s)
       else if Ascii.eqb c LF then "" :: splitLines (String a s)
       else match splitLines (String a s) with
            | l :: ls => String c l :: ls
            | [] => [String c ""]
            end).
    destruct (Ascii.eqb c CR) eqn:Ecr.
    { destruct (Ascii.eqb a LF); (split; [discriminate|]); constructor; auto. }
    destruct (Ascii.eqb c LF) eqn:Elf.
    { split; [discriminate|]. constructor; auto. }
    destruct (splitLines (String a s)) as [|l ls]; [congruence|].
    split; [discriminate|]. inversion Fa; subst. constructor; [|assumption].
    rewrite noLineBreak_cons, (isLineTerminator_false c Ecr Elf). assumption.
Qed.

Lemma splitLines_noLineBreak (s : string) :
  Forall (fun l => noLineBreak l = true) (splitLines s).
Proof. apply splitLines_lines. Qed.

Lemma splitLines_one (l : string) :
  noLineBreak l = true -> splitLines l = [l].
Proof.
  induction l as [|c l IH]; [reflexivity|].
  rewrite noLineBreak_cons. intros E. apply andb_true_iff in E as [Ec El].
  apply negb_true_iff in Ec. unfold isLineTerminator in Ec.
  apply orb_false_iff in Ec as [Elf Ecr].
  destruct l as [|a l].
  - cbn [splitLines]. now rewrite Ecr, Elf.
  - specialize (IH El).
    change (splitLines (String c (String a l))) with
      (if Ascii.eqb c CR then
         if Ascii.eqb a LF then "" :: splitLines l else "" :: splitLines (String a l)
       else if Ascii.eqb c LF then "" :: splitLines (String a l)
       else match splitLines (String a l) with
            | l0 :: ls => String c l0 :: ls
            | [] => [String c ""]
            end).
    now rewrite Ecr, Elf, IH.
Qed.

Lemma splitLines_line_then (l rest' : string) :
  noLineBreak l = true ->
  splitLines (l +:+ newline +:+ rest') = l :: splitLines rest'.
Proof.
  induction l as [|c l IH].
  - intros _. reflexivity.
  - rewrite noLineBreak_cons. intros E. apply andb_true_iff in E as [Ec El].
    apply negb_true_iff in Ec. unfold isLineTerminator in Ec.
    apply orb_false_iff in Ec as [Elf Ecr].
    specialize (IH El). rewrite append_cons.
    destruct (l +:+ newline +:+ rest') as [|a t] eqn:Et.
    + destruct l; discriminate.
    + change (splitLines (String c (String a t))) with
        (if Ascii.eqb c CR then
           if Ascii.eqb a LF then "" :: splitLines t else "" :: splitLines (String a t)
         else if Ascii.eqb c LF then "" :: splitLines (String a t)
         else match splitLines (String a t) with
              | l0 :: ls => String c l0 :: ls
              | [] => [String c ""]
              end).
      now rewrite Ecr, Elf, IH.
Qed.

Lemma splitLines_join (lines : list string) :
  lines <> [] ->
  Forall (fun l => noLineBreak l = true) lines ->
  splitLines (join newline lines) = lines.
Proof.
  induction lines as [|l lines IH]; [congruence|].
  intros _ F. inversion F as [|? ? Fl Fls]; subst.
  destruct lines as [|l' lines].
  - cbn [join]. now apply splitLines_one.
  - change (join newline (l :: l' :: lines))
      with (l +:+ newline +:+ join newline (l' :: lines)).
    rewrite splitLines_line_then by assumption.
    f_equal. apply IH; [discriminate|assumption].
Qed.

Lemma allChars_append (p : ascii -> bool) (x y : string) :
  allChars p (x +:+ y) = allChars p x && allChars p y.
Proof.
  induction x as [|a x IH]; [reflexivity|].
  rewrite append_cons. cbn [allChars]. now rewrite IH, andb_assoc.
Qed.

Lemma noLineBreak_append (x y : string) :
  noLineBreak (x +:+ y) = noLineBreak x && noLineBreak y.
Proof. apply allChars_append. Qed.

Lemma noLineBreak_uint (d : Decimal.uint) :
  noLineBreak (NilEmpty.string_of_uint d) = true.
Proof. induction d; cbn [NilEmpty.string_of_uint]; try reflexivity; exact IHd. Qed.

Lemma noLineBreak_toString (n : number) : noLineBreak (toString n) = true.
Proof.
  unfold toString, NilZero.string_of_int.
  destruct (Z.to_int n) as [d|d]; unfold NilZero.string_of_uint.
  - destruct d; first [reflexivity | apply noLineBreak_uint].
  - destruct d; first [reflexivity
      | rewrite noLineBreak_cons;
        change (negb (isLineTerminator "-")) with true;
        apply noLineBreak_uint].
Qed.

(** ** The stack filter applied to its own result *)

Lemma exec_anchored_none (r : regex) (s : string) :
  rmatch (rSeq rBol r) Some {| prev := None; rest := s; caps := [] |} = None ->
  exec (rSeq rBol r) s = None.
Proof.
  intros E. unfold exec. destruct s as [|a s]; cbn [search]; rewrite E;
    [reflexivity|]. now rewrite search_anchored_later.
Qed.

Section Idempotence.
Context `{StackEnv}.
Implicit Types (opts : FilterStackOptions) (run : FilterRun) (line text : string).

Lemma isExcluded_split opts (c : number) (frame : StackFrame) :
  isExcluded opts c frame = limitReached opts c || excludedByCategory opts frame.
Proof.
  unfold isExcluded, limitReached, excludedByCategory.
  destruct (match stackTraceLimit opts with Some limit => c >=? limit | None => false end);
    reflexivity.
Qed.

Lemma noLineBreak_skippingLine (n : number) : noLineBreak (skippingLine n) = true.
Proof.
  unfold skippingLine. rewrite !noLineBreak_append, noLineBreak_toString.
  now destruct (n >? 1).
Qed.

Lemma frameLine_not_dots (tail : string) :
  exec frameLineRegExp ("    ." +:+ tail) = None.
Proof.
  change frameLineRegExp
    with (rSeq rBol (rCat [rLit "    at "; rGroup 1 (rStar true rDot); rEol])).
  apply exec_anchored_none. reflexivity.
Qed.

Lemma parseStackFrame_skippingLine (n : number) :
  parseStackFrame (skippingLine n) = None.
Proof.
  unfold parseStackFrame. generalize (String.length (skippingLine n)). intros k.
  cbn [parseStackFrameFuel]. unfold skippingLine.
  change "    ... skipping " with ("    ." +:+ ".. skipping ").
  rewrite (append_assoc "    ." ".. skipping ").
  now rewrite frameLine_not_dots.
Qed.

Lemma frameOf_skippingLine opts (n : number) : frameOf opts (skippingLine n) = None.
Proof. unfold frameOf. now rewrite parseStackFrame_skippingLine. Qed.

Lemma frame_line_shape opts text (frame : StackFrame) :
  frameOf opts text = Some frame ->
  noLineBreak text = true /\ truthy (Some text) = true.
Proof.
  unfold frameOf, parseStackFrame. cbn [parseStackFrameFuel].
  destruct (exec frameLineRegExp text) as [m|] eqn:E; [|discriminate].
  intros _. apply exec_frameLineRegExp in E as (position & -> & _ & D).
  split; [|reflexivity]. rewrite noLineBreak_append. unfold noLineBreak at 2.
  now rewrite D.
Qed.

Lemma stableLine_written opts line (frame : StackFrame) :
  stableLine opts line = true ->
  frameOf opts line = Some frame ->
  writtenFrame opts (fun c => isExcluded opts c frame) (formatStackFrame frame).
Proof.
  unfold stableLine. intros S E. rewrite E in S.
  destruct (frameOf opts (formatStackFrame frame)) as [frame'|] eqn:E'; [|discriminate].
  apply andb_true_iff in S as [S1 S2].
  apply String.eqb_eq in S1. apply Bool.eqb_prop in S2.
  exists frame'. split; [exact E'|]. split; [exact S1|].
  intros c. now rewrite !isExcluded_split, S2.
Qed.

Lemma written_excluded_first opts (excluded : number -> bool) text run :
  writtenFrame opts excluded text ->
  excluded (frameCount run) = true ->
  lastFrameWasExcluded run = false ->
  filterLine opts run text =
  {| filtered := filtered run ++ [text];
     frameCount := frameCount run + 1;
     lastFrameWasExcluded := true;
     excludedFrameCount := excludedFrameCount run;
     lastExcludedFrame := lastExcludedFrame run |}.
Proof.
  intros (frame & E & F & X) Ex L.
  rewrite filterLine_excluded_first; [|unfold isExcludedLine; now rewrite E, X|exact L].
  unfold reformatted. now rewrite E, F.
Qed.

Lemma written_excluded_next opts (excluded : number -> bool) text run :
  writtenFrame opts excluded text ->
  excluded (frameCount run) = true ->
  lastFrameWasExcluded run = true ->
  filterLine opts run text =
  {| filtered := filtered run;
     frameCount := frameCount run;
     lastFrameWasExcluded := true;
     excludedFrameCount := excludedFrameCount run + 1;
     lastExcludedFrame := Some text |}.
Proof.
  intros (frame & E & F & X) Ex L.
  rewrite filterLine_excluded_next; [|unfold isExcludedLine; now rewrite E, X|exact L].
  unfold reformatted. now rewrite E, F.
Qed.

Lemma written_kept opts (excluded : number -> bool) text run :
  writtenFrame opts excluded text ->
  excluded (frameCount run) = false ->
  filterLine opts run text =
  {| filtered :=
       (if excludedFrameCount run >? 0
        then filtered run ++ [skippingLine (excludedFrameCount run)]
        else filtered run) ++ [text];
     frameCount := frameCount run + 1;
     lastFrameWasExcluded := false;
     excludedFrameCount :=
       if excludedFrameCount run >? 0 then 0 else excludedFrameCount run;
     lastExcludedFrame := lastExcludedFrame run |}.
Proof.
  intros (frame & E & F & X) Ex.
  rewrite filterLine_kept; [|unfold isKeptLine; now rewrite E, X, Ex].
  unfold reformatted. now rewrite E, F.
Qed.

Lemma runAfter_app opts (lines news : list string) :
  runAfter opts (lines ++ news) = fold_left (filterLine opts) news (runAfter opts lines).
Proof. unfold runAfter. apply fold_left_app. Qed.

(** One step of a first pass, followed by a second pass on what the step
    has written. *)
Lemma second_pass_step opts run line :
  stableLine opts line = true ->
  noLineBreak line = true ->
  Pending opts run -> Agree run (runAfter opts (filtered run)) -> Clean run ->
  Pending opts (filterLine opts run line)
  /\ Agree (filterLine opts run line)
           (runAfter opts (filtered (filterLine opts run line)))
  /\ Clean (filterLine opts run line).
Proof.
  intros S NB [P0 P1] (A1 & A2 & A3 & A4) C.
  destruct (frameOf opts line) as [frame|] eqn:E.
  - pose proof (stableLine_written opts line frame S E) as W.
    assert (El : forall c, isExcludedLine opts c line = isExcluded opts c frame)
      by (intros c; unfold isExcludedLine; now rewrite E).
    assert (Er : reformatted opts line = formatStackFrame frame)
      by (unfold reformatted; now rewrite E).
    assert (Ek : forall c, isKeptLine opts c line = negb (isExcluded opts c frame))
      by (intros c; unfold isKeptLine; now rewrite E).
    destruct W as (frame' & E' & F' & X').
    assert (W : writtenFrame opts (fun c => isExcluded opts c frame)
                  (formatStackFrame frame))
      by (exists frame'; auto).
    destruct (frame_line_shape opts _ _ E') as [NBt _].
    destruct (isExcluded opts (frameCount run) frame) eqn:X.
    + destruct (lastFrameWasExcluded run) eqn:L.
      * rewrite (filterLine_excluded_next opts run line) by (rewrite ?El; assumption).
        unfold Pending, Agree, Clean.
        cbn [filtered frameCount lastFrameWasExcluded excludedFrameCount
             lastExcludedFrame]. rewrite Er.
        split; [split; [lia|]|split; [|exact C]].
        -- intros _. split; [reflexivity|].
           exists (formatStackFrame frame), (fun c => isExcluded opts c frame).
           auto.
        -- unfold Agree.
           cbn [filtered frameCount lastFrameWasExcluded excludedFrameCount].
           auto.
      * rewrite (filterLine_excluded_first opts run line) by (rewrite ?El; assumption).
        unfold Pending, Agree, Clean.
        cbn [filtered frameCount lastFrameWasExcluded excludedFrameCount
             lastExcludedFrame]. rewrite Er.
        split; [split; [lia|]|split].
        -- intros Pos. destruct (P1 Pos) as [Q _]. discriminate Q.
        -- rewrite runAfter_app. cbn [fold_left].
           rewrite (written_excluded_first opts _ _ _ W)
             by (cbn beta; rewrite ?A2; assumption).
           unfold Agree.
           cbn [filtered frameCount lastFrameWasExcluded excludedFrameCount].
           rewrite A1, A2. auto.
        -- unfold Clean. cbn [filtered]. apply Forall_app. split; [exact C|].
           repeat constructor. exact NBt.
    + rewrite (filterLine_kept opts run line) by (rewrite Ek, X; reflexivity).
      unfold Pending, Agree, Clean.
      cbn [filtered frameCount lastFrameWasExcluded excludedFrameCount
           lastExcludedFrame]. rewrite Er.
      split; [split|split].
      * destruct (Z.gtb_spec (excludedFrameCount run) 0); lia.
      * destruct (Z.gtb_spec (excludedFrameCount run) 0); lia.
      * destruct (excludedFrameCount run >? 0) eqn:G.
        -- rewrite <- app_assoc, runAfter_app. cbn [fold_left app].
           rewrite (filterLine_other opts _ (skippingLine _))
             by apply frameOf_skippingLine.
           rewrite (written_kept opts _ _ _ W)
             by (cbn beta; cbn [frameCount]; rewrite ?A2; assumption).
           unfold Agree.
           cbn [filtered frameCount lastFrameWasExcluded excludedFrameCount].
           rewrite A1, A2, A4. change (0 >? 0) with false. cbn beta iota.
           rewrite <- app_assoc. auto.
        -- rewrite runAfter_app. cbn [fold_left].
           rewrite (written_kept opts _ _ _ W)
             by (cbn beta; rewrite ?A2; assumption).
           unfold Agree.
           cbn [filtered frameCount lastFrameWasExcluded excludedFrameCount].
           rewrite A1, A2, A4. change (0 >? 0) with false. cbn beta iota. auto.
      * unfold Clean. cbn [filtered].
        apply Forall_app. split; [|repeat constructor; exact NBt].
        destruct (excludedFrameCount run >? 0); [|exact C].
        apply Forall_app. split; [exact C|].
        repeat constructor. apply noLineBreak_skippingLine.
  - rewrite (filterLine_other opts run line E).
    unfold Pending, Agree, Clean.
    cbn [filtered frameCount lastFrameWasExcluded excludedFrameCount
         lastExcludedFrame].
    split; [split; [exact P0|exact P1]|split].
    + rewrite runAfter_app. cbn [fold_left].
      rewrite (filterLine_other opts _ line E). unfold Agree.
      cbn [filtered frameCount lastFrameWasExcluded excludedFrameCount].
      rewrite A1. auto.
    + unfold Clean. cbn [filtered]. apply Forall_app. split; [exact C|].
      repeat constructor. exact NB.
Qed.

Lemma second_pass_runs opts (lines : list string) :
  forall run,
    forallb (stableLine opts) lines = true ->
    Forall (fun l => noLineBreak l = true) lines ->
    Pending opts run -> Agree run (runAfter opts (filtered run)) -> Clean run ->
    Pending opts (fold_left (filterLine opts) lines run)
    /\ Agree (fold_left (filterLine opts) lines run)
             (runAfter opts (filtered (fold_left (filterLine opts) lines run)))
    /\ Clean (fold_left (filterLine opts) lines run).
Proof.
  induction lines as [|line lines IH]; intros run S NB P A C; [auto|].
  cbn [forallb] in S. apply andb_true_iff in S as [S1 S2].
  inversion NB as [|? ? NB1 NB2]; subst.
  destruct (second_pass_step opts run line S1 NB1 P A C) as (P' & A' & C').
  cbn [fold_left]. now apply IH.
Qed.

(** The lines written for stable lines are written again as they are. *)
Lemma outputLines_fixed opts (lines : list string) :
  forallb (stableLine opts) lines = true ->
  Forall (fun l => noLineBreak l = true) lines ->
  outputLines opts (outputLines opts lines) = outputLines opts lines
  /\ Forall (fun l => noLineBreak l = true) (outputLines opts lines).
Proof.
  intros S NB.
  destruct (second_pass_runs opts lines initialRun S NB) as (P & A & C).
  { split; [cbn; lia|]. cbn. lia. }
  { repeat split. }
  { constructor. }
  fold (runAfter opts lines) in P, A, C.
  set (run := runAfter opts lines) in *.
  destruct P as [P0 P1]. destruct A as (A1 & A2 & A3 & A4).
  assert (Eo : outputLines opts lines = flushRun run) by reflexivity.
  rewrite Eo. clear Eo. unfold flushRun.
  destruct (Z.gtb_spec (excludedFrameCount run) 0) as [G|G].
  - destruct (P1 G) as (L & text & excluded & El & W & X).
    rewrite El. destruct W as (frame & E & F & Xf).
    destruct (frame_line_shape opts text frame E) as [NBt T].
    rewrite T. cbn [coerce].
    assert (W : writtenFrame opts excluded text) by (exists frame; auto).
    split.
    + unfold outputLines. rewrite runAfter_app.
      assert (Hmid :
        let mid : list string :=
          if excludedFrameCount run - 1 >? 0
          then (filtered run ++ [skippingLine (excludedFrameCount run - 1)])%list
          else filtered run in
        filtered (runAfter opts mid) = mid
        /\ frameCount (runAfter opts mid) = frameCount run
        /\ lastFrameWasExcluded (runAfter opts mid) = true
        /\ excludedFrameCount (runAfter opts mid) = 0).
      { cbn zeta. destruct (excludedFrameCount run - 1 >? 0).
        - rewrite runAfter_app. cbn [fold_left].
          rewrite (filterLine_other opts _ (skippingLine _))
            by apply frameOf_skippingLine.
          cbn [filtered frameCount lastFrameWasExcluded excludedFrameCount].
          rewrite A1, A2, A3, A4, L. auto.
        - rewrite A1, A2, A3, A4, L. auto. }
      cbn zeta in Hmid. destruct Hmid as (M1 & M2 & M3 & M4).
      cbn [fold_left].
      rewrite (written_excluded_next opts excluded text _ W)
        by (rewrite ?M2; assumption).
      unfold flushRun.
      cbn [filtered frameCount lastFrameWasExcluded excludedFrameCount
           lastExcludedFrame].
      rewrite M1, M4, T. reflexivity.
    + apply Forall_app. split; [|repeat constructor; exact NBt].
      destruct (excludedFrameCount run - 1 >? 0); [|exact C].
      apply Forall_app. split; [exact C|].
      repeat constructor. apply noLineBreak_skippingLine.
  - split; [|exact C].
    unfold outputLines, flushRun. rewrite A4, A1. reflexivity.
Qed.

Lemma join_nil_iff (lines : list string) :
  lines = [] -> join newline lines = "".
Proof. now intros ->. Qed.

(** C9 (amended): [filterStack] applied to its own result, with the same
    options, gives that result again, for every stack text all of whose
    frame lines are stable: the line written for the frame is a frame line
    that the filter writes in the same way and whose frame the categories
    exclude or keep like the original frame. *)
Theorem filterStack_fixed_point {V : Type} opts (stack : string)
    (heap : gmap nat (ErrorObject V)) :
  forallb (stableLine opts) (splitLines stack) = true ->
  filterStack (fst (filterStack (AString stack) opts heap)) opts heap
  = filterStack (AString stack) opts heap.
Proof.
  intros S. unfold filterStack at 2 3.
  destruct (truthy (Some stack)) eqn:T1; cbn [fst]; [|unfold filterStack; now rewrite T1].
  cbn [coerce]. unfold filterStack.
  destruct (truthy (Some (filterStackText opts stack))) eqn:T2; [|reflexivity].
  cbn [coerce]. f_equal. f_equal.
  unfold filterStackText in *.
  fold (runAfter opts (splitLines stack)) in *.
  fold (outputLines opts (splitLines stack)) in *.
  destruct (outputLines_fixed opts (splitLines stack) S (splitLines_noLineBreak stack))
    as [Fix Cl].
  destruct (outputLines opts (splitLines stack)) as [|l ls] eqn:O; [discriminate T2|].
  rewrite splitLines_join; [|discriminate|exact Cl].
  fold (runAfter opts (l :: ls)). fold (outputLines opts (l :: ls)).
  now rewrite Fix.
Qed.

End Idempotence.

Lemma filterStack_fixed_point_witness :
  let stack := join newline ("Error: boom" :: threeExcludedOneKept) in
  @filterStack sampleEnv unit
    (fst (@filterStack sampleEnv unit (AString stack) excludeFileA ∅))
    excludeFileA ∅
  = @filterStack sampleEnv unit (AString stack) excludeFileA ∅.
Proof.
  intros stack.
  apply (@filterStack_fixed_point sampleEnv unit excludeFileA stack ∅).
  vm_compute. reflexivity.
Defined.

(** C9 as stated fails, even with the default hooks: the three lines below
    have an empty function name, so that the filter writes their location
    alone, [a (native)]; read again, this is a call of [a] at [native],
    which the built-in category excludes. *)
Lemma filterStack_idempotence_counterexample :
  fst (@filterStack sampleEnv unit (AString threeOddFrames) excludeBuiltinOnly ∅)
  = AString (join newline ["    at a (native)"; "    at a (native)";
                           "    at a (native)"])
  /\ fst (@filterStack sampleEnv unit
            (fst (@filterStack sampleEnv unit (AString threeOddFrames)
                    excludeBuiltinOnly ∅))
            excludeBuiltinOnly ∅)
     = AString (join newline ["    at a (native)"; "    ... skipping 1 frame ...";
                              "    at a (native)"])
  /\ @filterStack sampleEnv unit
       (fst (@filterStack sampleEnv unit (AString threeOddFrames)
               excludeBuiltinOnly ∅))
       excludeBuiltinOnly ∅
     <> @filterStack sampleEnv unit (AString threeOddFrames) excludeBuiltinOnly ∅.
Proof.
  assert (E1 : fst (@filterStack sampleEnv unit (AString threeOddFrames)
                      excludeBuiltinOnly ∅)
               = AString (join newline ["    at a (native)"; "    at a (native)";
                                        "    at a (native)"]))
    by (vm_compute; reflexivity).
  assert (E2 : fst (@filterStack sampleEnv unit
                      (AString (join newline ["    at a (native)"; "    at a (native)";
                                              "    at a (native)"]))
                      excludeBuiltinOnly ∅)
               = AString (join newline ["    at a (native)";
                                        "    ... skipping 1 frame ...";
                                        "    at a (native)"]))
    by (vm_compute; reflexivity).
  split; [exact E1|]. rewrite E1. split; [exact E2|].
  intros C. apply (f_equal fst) in C. rewrite E2 in C.
  change (fst (@filterStack sampleEnv unit
                 (AString (join newline ["    at a (native)"; "    at a (native)";
                                         "    at a (native)"]))
                 excludeBuiltinOnly ∅))
    with (fst (@filterStack sampleEnv unit
                 (fst (@filterStack sampleEnv unit (AString threeOddFrames)
                         excludeBuiltinOnly ∅)) excludeBuiltinOnly ∅)) in C.
  vm_compute in C. discriminate C.
Qed.

(** A rewrite hook that is not idempotent breaks the fixed point as well. *)
Example filterStack_marking_hook :
  fst (@filterStack sampleEnv unit (AString "    at foo (/a/b.js:10:5)")
         markingOptions ∅)
  = AString "    at foo_ (/a/b.js:10:5)"
  /\ fst (@filterStack sampleEnv unit (AString "    at foo_ (/a/b.js:10:5)")
            markingOptions ∅)
     = AString "    at foo__ (/a/b.js:10:5)".
Proof. vm_compute. split; reflexivity. Qed.

(* ================================================================== *)
(** * Part IV: further properties of the code                          *)
(* ================================================================== *)

(** ** The functions of the [log] namespace *)

Section LogNamespaceProperties.
Context {H : Type} `{LoggingHost H}.

(** X1: the threshold reads backwards.  With a host installed, [log.trace]
    reaches the host at every log level; [log.error] reaches it only when
    the level is [Off] or [Error], so at the initial level [Warning] errors
    are dropped; [log] and [log.log] do the same. *)
Theorem log_trace_always_log_error_rarely (s : string) (w : DebugState H) (host : H) :
  loggingHost w = Some host ->
  log_trace s w = (Ok tt, withHost w (host_log Verbose s host))
  /\ log_error s w =
       match currentLogLevel w with
       | Off | Error => (Ok tt, withHost w (host_log Error s host))
       | _ => (Ok tt, w)
       end
  /\ log s w = log_log s w.
Proof.
  intros E. unfold log_trace, log_error, log, log_log, logMessage, shouldLog, withHost.
  rewrite E. destruct (currentLogLevel w); repeat split.
Qed.

End LogNamespaceProperties.

Lemma log_trace_always_witness :
  let w : DebugState (list (LogLevel * string)) :=
    {| currentAssertionLevel := 0; currentLogLevel := Warning;
       isDebugging := false; loggingHost := Some [] |} in
  loggingHost (snd (log_trace "t" w)) = Some [(Verbose, "t")]
  /\ log_error "e" w = (Ok tt, w).
Proof.
  intros w.
  destruct (log_trace_always_log_error_rarely "t" w [] eq_refl) as (T & _ & _).
  destruct (log_trace_always_log_error_rarely "e" w [] eq_refl) as (_ & E & _).
  split; [now rewrite T | exact E].
Defined.

(** ** Further assertions *)

Section MoreAssertionProperties.
Context {H : Type} `{LoggingHost H}.

(** X2: [assertEqual] on numbers returns normally exactly when the two
    numbers are equal, and then changes nothing.  The second message is
    used only together with the first: when [msg] is missing or empty,
    [msg2] is dropped.  With both messages the error reads
    [Debug Failure. Expected a === b. msg msg2]. *)
Theorem assertEqual_outcome (a b : number) (msg msg2 : option string)
    (w : DebugState H) :
  (assertEqual a b msg msg2 w = (Ok tt, w) <-> a = b)
  /\ (truthy msg = false ->
      assertEqual a b msg msg2 w = assertEqual a b None None w)
  /\ (a <> b -> truthy msg = true -> truthy msg2 = true ->
      assertEqual a b msg msg2 w =
      (Throw (mkError ("Debug Failure. Expected " +:+ toString a +:+ " === "
                       +:+ toString b +:+ ". " +:+ coerce msg +:+ " " +:+ coerce msg2)
                      fn_fail), w)).
Proof.
  unfold assertEqual. cbn [strictEquals templateText number_Comparable].
  split; [|split].
  - destruct (Z.eqb_spec a b) as [E|N]; cbn [negb].
    + split; [intros _; exact E|reflexivity].
    + split; [discriminate|contradiction].
  - intros T. rewrite T. reflexivity.
  - intros N T1 T2. destruct (Z.eqb_spec a b); [contradiction|].
    cbn [negb]. rewrite T1, T2. reflexivity.
Qed.

(** X3: [assertEachDefined] returns the array it was given, and changes
    nothing, when every element is defined; otherwise it fails like
    [fail(message)]: with [Debug Failure. message], or with
    [Debug Failure.] alone when no message was given. *)
Theorem assertEachDefined_outcome {T : Type} (value : list (option T))
    (message : option string) (w : DebugState H) :
  assertEachDefined value message w =
  if forallb (fun v => match v with Some _ => true | None => false end) value
  then (Ok value, w)
  else (Throw (mkError (if truthy message
                        then "Debug Failure. " +:+ coerce message
                        else "Debug Failure.") fn_fail), w).
Proof.
  unfold assertEachDefined, bind.
  assert (L : assertEachDefined_loop value message w =
              if forallb (fun v => match v with Some _ => true | None => false end) value
              then (Ok tt, w)
              else (Throw (mkError (if truthy message
                                    then "Debug Failure. " +:+ coerce message
                                    else "Debug Failure.") fn_fail), w)).
  { induction value as [|v value IH]; [reflexivity|].
    cbn [assertEachDefined_loop forallb]. unfold bind.
    destruct v as [v|]; cbn [assertDefined andb]; [exact IH|reflexivity]. }
  rewrite L. now destruct (forallb _ value).
Qed.

(** X4: when the assertion level at initialization is below [Normal],
    [assertOptionalNode], [assertOptionalToken] and [assertMissingNode] are
    no-ops, whatever their arguments and the state at the time of the
    call. *)
Theorem optional_node_assertions_disabled (SyntaxKind : EnumObject)
    (Normal : number) (w0 : DebugState H) :
  currentAssertionLevel w0 < Normal ->
  (forall node test message w,
      assertOptionalNode SyntaxKind Normal w0 node test message w = (Ok tt, w))
  /\ (forall node kind' message w,
      assertOptionalToken SyntaxKind Normal w0 node kind' message w = (Ok tt, w))
  /\ (forall node message w,
      assertMissingNode SyntaxKind Normal w0 node message w = (Ok tt, w)).
Proof.
  intros L.
  assert (E : shouldAssert Normal w0 = false).
  { unfold shouldAssert. apply Z.leb_gt. exact L. }
  unfold assertOptionalNode, assertOptionalToken, assertMissingNode.
  rewrite E. repeat split.
Qed.




End MoreAssertionProperties.

Lemma assertEqual_witness :
  let w : DebugState (list (LogLevel * string)) :=
    {| currentAssertionLevel := 0; currentLogLevel := Warning;
       isDebugging := false; loggingHost := Some [] |} in
  assertEqual 1 2 None (Some "detail") w = assertEqual 1 2 None None w
  /\ assertEqual 1 2 (Some "sizes") (Some "differ") w =
     (Throw (mkError "Debug Failure. Expected 1 === 2. sizes differ" fn_fail), w).
Proof.
  intros w.
  destruct (assertEqual_outcome 1 2 None (Some "detail") w) as (_ & D & _).
  destruct (assertEqual_outcome 1 2 (Some "sizes") (Some "differ") w) as (_ & _ & M).
  split; [exact (D eq_refl)|].
  exact (M ltac:(lia) eq_refl eq_refl).
Defined.

Lemma optional_node_assertions_disabled_witness :
  let w0 : DebugState (list (LogLevel * string)) :=
    {| currentAssertionLevel := 0; currentLogLevel := Warning;
       isDebugging := false; loggingHost := Some [] |} in
  assertOptionalNode [] 1 w0 (Some {| kind := 7 |}) (Some alwaysFails) None
    (withAssertionLevel w0 3) = (Ok tt, withAssertionLevel w0 3)
  /\ assertMissingNode [] 1 w0 (Some {| kind := 7 |}) None
    (withAssertionLevel w0 3) = (Ok tt, withAssertionLevel w0 3).
Proof.
  intros w0.
  pose proof (optional_node_assertions_disabled [] 1 w0 ltac:(simpl; lia))
    as (HN & _ & HM).
  split; [apply HN | apply HM].
Defined.



(** ** The matcher succeeds exactly on the accepted texts *)

Lemma prevAfter_append (p : option ascii) (x y : string) :
  prevAfter p (x +:+ y) = prevAfter (prevAfter p x) y.
Proof.
  revert p. induction x as [|a x IH]; intros p; [reflexivity|].
  rewrite append_cons. cbn [prevAfter]. apply IH.
Qed.

Lemma prevAfter_None (p : option ascii) (x : string) :
  prevAfter p x = None <-> p = None /\ x = "".
Proof.
  split.
  - destruct x as [|a x]; [auto|]. cbn [prevAfter].
    assert (G : forall y b, prevAfter (Some b) y <> None).
    { induction y as [|c y IH]; intros b; cbn [prevAfter]; [discriminate|apply IH]. }
    intros E. now destruct (G x a).
  - now intros [-> ->].
Qed.

Lemma orelse_not_None {A : Type} (o1 o2 : option A) :
  match o1 with Some m => Some m | None => o2 end <> None <-> o1 <> None \/ o2 <> None.
Proof. destruct o1, o2; split; try tauto; intros [?|?]; congruence. Qed.

(** An iteration that reads nothing can be left out. *)
Lemma Iter_head (R : option ascii -> string -> string -> Prop)
    (p : option ascii) (x s : string) :
  Iter R p x s ->
  x = "" \/
  exists x1 x2, x1 <> "" /\ x = x1 +:+ x2 /\ R p x1 (x2 +:+ s)
                /\ Iter R (prevAfter p x1) x2 s.
Proof.
  intros I. induction I as [|p x1 x2 s H1 I2 IH]; [now left|].
  destruct x1 as [|a x1].
  - exact IH.
  - right. exists (String a x1), x2. repeat split; try assumption. discriminate.
Qed.

Lemma starLoop_complete body R greedy :
  Complete body R ->
  forall k K, Decides k K ->
  forall fuel st,
    (String.length (rest st) <= fuel)%nat ->
    starLoop body greedy k fuel st <> None <->
    exists x s, rest st = x +:+ s /\ Iter R (prev st) x s
                /\ K (prevAfter (prev st) x) s.
Proof.
  intros HB k K HK fuel. induction fuel as [|fuel IH]; intros st L.
  - cbn [starLoop]. rewrite (HK _).
    assert (E : rest st = "") by (destruct (rest st); [reflexivity|cbn in L; lia]).
    split.
    + intros Hk. exists "", (rest st). repeat split; [constructor|exact Hk].
    + intros (x & s & Ex & _ & Hk). rewrite E in Ex. symmetry in Ex.
      destruct x; [|discriminate]. rewrite append_nil_l in Ex. subst s. now rewrite E.
  - cbn [starLoop].
    set (again := body (fun st' =>
            if (String.length (rest st') <? String.length (rest st))%nat
            then starLoop body greedy k fuel st' else None) st).
    assert (Hcases :
      (if greedy then match again with Some m => Some m | None => k st end
       else match k st with Some m => Some m | None => again end) <> None
      <-> again <> None \/ k st <> None).
    { destruct greedy; rewrite orelse_not_None; tauto. }
    rewrite Hcases. clear Hcases.
    assert (Hagain : again <> None <->
      exists x1 s1, rest st = x1 +:+ s1 /\ R (prev st) x1 s1 /\
        ((String.length s1 < String.length (rest st))%nat /\
         exists x2 s, s1 = x2 +:+ s /\ Iter R (prevAfter (prev st) x1) x2 s
                      /\ K (prevAfter (prevAfter (prev st) x1) x2) s)).
    { unfold again.
      apply (HB _ (fun p' s' =>
               (String.length s' < String.length (rest st))%nat /\
               exists x2 s, s' = x2 +:+ s /\ Iter R p' x2 s /\ K (prevAfter p' x2) s)).
      intros st'. destruct (Nat.ltb_spec (String.length (rest st'))
                              (String.length (rest st))) as [Lt|Ge].
      - rewrite IH by lia. tauto.
      - split; [congruence|]. intros [Lt _]. lia. }
    rewrite Hagain, (HK _). clear Hagain. split.
    + intros [(x1 & s1 & E1 & R1 & _ & x2 & s & E2 & I2 & K2)|Hk].
      * subst s1. exists (x1 +:+ x2), s. rewrite append_assoc, prevAfter_append.
        repeat split; [exact E1| |exact K2]. now constructor.
      * exists "", (rest st). repeat split; [constructor|exact Hk].
    + intros (x & s & Ex & I & Hk).
      apply Iter_head in I as [->|(x1 & x2 & N1 & -> & R1 & I2)].
      * right. rewrite append_nil_l in Ex; cbn [prevAfter] in Hk. now rewrite Ex.
      * left. exists x1, (x2 +:+ s). rewrite append_assoc in Ex.
        repeat split; [exact Ex|exact R1| |].
        -- rewrite Ex, !length_append. destruct x1; [congruence|cbn [String.length]; lia].
        -- exists x2, s. rewrite prevAfter_append in Hk. auto.
Qed.

Theorem rmatch_complete (r : regex) : Complete (rmatch r) (Accepts r).
Proof.
  induction r as [|q|r1 IH1 r2 IH2|r1 IH1 r2 IH2|g r1 IH1|i r1 IH1|pos r1 IH1| | |];
    intros k K HK st; cbn [rmatch Accepts].
  - rewrite (HK _). split.
    + intros Hk. exists "", (rest st). auto.
    + intros (x & s & Ex & -> & Hk). rewrite append_nil_l in Ex; cbn [prevAfter] in Hk. now rewrite Ex.
  - destruct (rest st) as [|a s'] eqn:Er.
    + split; [congruence|]. intros (x & s & Ex & (b & -> & _) & _). discriminate.
    + destruct (q a) eqn:Eq.
      * rewrite (HK _). cbn [prev rest]. split.
        -- intros Hk. exists (String a ""), s'. repeat split; [|exact Hk]. eauto.
        -- intros (x & s & Ex & (b & -> & _) & Hk).
           rewrite append_cons, append_nil_l in Ex. injection Ex as <- <-. exact Hk.
      * split; [congruence|].
        intros (x & s & Ex & (b & -> & Eb) & _).
        rewrite append_cons in Ex. injection Ex as <- _. congruence.
  - rewrite (IH1 (rmatch r2 k)
               (fun p' s' => exists x2 s, s' = x2 +:+ s /\ Accepts r2 p' x2 s
                                          /\ K (prevAfter p' x2) s)).
    + split.
      * intros (x1 & s1 & E1 & A1 & x2 & s & -> & A2 & Hk).
        exists (x1 +:+ x2), s. rewrite append_assoc, prevAfter_append.
        repeat split; [exact E1| |exact Hk]. exists x1, x2. auto.
      * intros (x & s & Ex & (x1 & x2 & -> & A1 & A2) & Hk).
        exists x1, (x2 +:+ s). rewrite append_assoc in Ex.
        rewrite prevAfter_append in Hk.
        repeat split; [exact Ex|exact A1|]. exists x2, s. auto.
    + intros st'. apply IH2. exact HK.
  - rewrite orelse_not_None, (IH1 k K HK), (IH2 k K HK). split.
    + intros [(x & s & E & A & Hk)|(x & s & E & A & Hk)]; exists x, s; auto.
    + intros (x & s & E & [A|A] & Hk); [left|right]; exists x, s; auto.
  - apply (starLoop_complete _ _ g IH1 k K HK). lia.
  - apply IH1. intros st'. exact (HK (setCap i st st')).
  - pose proof (IH1 Some (fun _ _ => True)) as L.
    assert (D : Decides Some (fun _ _ => True)).
    { intros st'. split; [auto|discriminate]. }
    specialize (L D st).
    destruct (rmatch r1 Some st) as [st'|] eqn:E1.
    + assert (Hex : exists y s', rest st = y +:+ s' /\ Accepts r1 (prev st) y s').
      { destruct L as [L _]. destruct (L ltac:(discriminate)) as (y & s' & E & A & _).
        eauto. }
      destruct pos.
      * rewrite (HK _). cbn [prev rest]. split.
        -- intros Hk. exists "", (rest st). auto.
        -- intros (x & s & Ex & (-> & _) & Hk). rewrite append_nil_l in Ex; cbn [prevAfter] in Hk. now rewrite Ex.
      * split; [congruence|].
        intros (x & s & Ex & (-> & N) & _). rewrite append_nil_l in Ex. subst s. now destruct N.
    + assert (Hno : ~ exists y s', rest st = y +:+ s' /\ Accepts r1 (prev st) y s').
      { intros (y & s' & E & A). destruct L as [_ L]. apply L; [|reflexivity].
        exists y, s'. auto. }
      destruct pos.
      * split; [congruence|].
        intros (x & s & Ex & (-> & N) & _). rewrite append_nil_l in Ex. subst s. now destruct Hno.
      * rewrite (HK _). split.
        -- intros Hk. exists "", (rest st). auto.
        -- intros (x & s & Ex & (-> & _) & Hk). rewrite append_nil_l in Ex; cbn [prevAfter] in Hk. now rewrite Ex.
  - destruct (prev st) as [c|] eqn:Ep.
    + split; [congruence|]. intros (x & s & _ & (_ & D) & _). discriminate.
    + rewrite (HK _), Ep. split.
      * intros Hk. exists "", (rest st). auto.
      * intros (x & s & Ex & (-> & _) & Hk). rewrite append_nil_l in Ex; cbn [prevAfter] in Hk. now rewrite Ex.
  - destruct (rest st) as [|a s'] eqn:Er.
    + rewrite (HK _), Er. split.
      * intros Hk. exists "", "". auto.
      * intros (x & s & Ex & (-> & ->) & Hk). exact Hk.
    + split; [congruence|].
      intros (x & s & Ex & (-> & ->) & _). discriminate.
  - change (match prev st with Some c => isWordChar c | None => false end)
      with (wordBefore (prev st)).
    change (match rest st with String c _ => isWordChar c | EmptyString => false end)
      with (wordAfter (rest st)).
    destruct (xorb (wordBefore (prev st)) (wordAfter (rest st))) eqn:Ex.
    + rewrite (HK _). split.
      * intros Hk. exists "", (rest st). auto.
      * intros (x & s & E & (-> & _) & Hk). rewrite append_nil_l in E; cbn [prevAfter] in Hk. now rewrite E.
    + split; [congruence|].
      intros (x & s & E & (-> & X) & _). rewrite append_nil_l in E. subst s. congruence.
Qed.

(** [exec] finds a match exactly when the expression accepts some part of
    the text. *)
Lemma search_accepts (r : regex) (s : string) (p : option ascii) :
  search r p s <> None <->
  exists pre x post, s = pre +:+ x +:+ post /\ Accepts r (prevAfter p pre) x post.
Proof.
  assert (D : Decides Some (fun _ _ => True)).
  { intros st'. split; [auto|discriminate]. }
  assert (Hhere : forall p s,
    rmatch r Some {| prev := p; rest := s; caps := [] |} <> None <->
    exists x post, s = x +:+ post /\ Accepts r p x post).
  { intros p' s'. rewrite (rmatch_complete r Some _ D). cbn [prev rest]. split.
    - intros (x & post & E & A & _). eauto.
    - intros (x & post & E & A). exists x, post. auto. }
  revert p. induction s as [|a s IH]; intros p; cbn [search].
  - destruct (rmatch r Some _) as [m|] eqn:E.
    + split; [intros _|discriminate].
      destruct (proj1 (Hhere p "")) as (x & post & Ex & A); [congruence|].
      exists "", x, post. auto.
    + split; [congruence|]. intros (pre & x & post & Es & A). exfalso.
      symmetry in Es. apply append_eq_nil in Es as [-> Es].
      assert (X : rmatch r Some {| prev := p; rest := ""; caps := [] |} <> None).
      { apply Hhere. exists x, post. auto. }
      congruence.
  - destruct (rmatch r Some _) as [m|] eqn:E.
    + split; [intros _|discriminate].
      destruct (proj1 (Hhere p (String a s))) as (x & post & Ex & A); [congruence|].
      exists "", x, post. auto.
    + specialize (IH (Some a)).
      destruct (search r (Some a) s) as [res|].
      * split; [intros _|discriminate].
        destruct (proj1 IH) as (pre & x & post & -> & A); [discriminate|].
        exists (String a pre), x, post. auto.
      * split; [congruence|]. intros (pre & x & post & Es & A). exfalso.
        destruct pre as [|b pre].
        -- assert (X : rmatch r Some {| prev := p; rest := String a s; caps := [] |}
                       <> None).
           { apply Hhere. exists x, post. auto. }
           congruence.
        -- rewrite append_cons in Es. injection Es as <- ->.
           apply (proj2 IH); [|reflexivity]. exists pre, x, post. auto.
Qed.

Lemma test_accepts (r : regex) (s : string) :
  test r s = true <->
  exists pre x post, s = pre +:+ x +:+ post /\ Accepts r (prevAfter None pre) x post.
Proof.
  unfold test, exec. rewrite <- search_accepts.
  destruct (search r None s); split; congruence.
Qed.

Lemma Accepts_rLit (l : string) (p : option ascii) (x s : string) :
  Accepts (rLit l) p x s <-> x = l.
Proof.
  revert p x. induction l as [|a l IH]; intros p x; cbn [rLit Accepts]; [tauto|].
  split.
  - intros (x1 & x2 & -> & (b & -> & Eb) & A2). apply IH in A2 as ->.
    apply Ascii.eqb_eq in Eb. now subst b.
  - intros ->. exists (String a ""), l. repeat split.
    + exists a. split; [reflexivity|apply Ascii.eqb_refl].
    + now apply IH.
Qed.

(** ** The file-name tests of the stack filter *)

Lemma Accepts_seq_intro (r1 r2 : regex) (p : option ascii) (x x1 x2 s : string) :
  Accepts r1 p x1 (x2 +:+ s) -> Accepts r2 (prevAfter p x1) x2 s ->
  x = x1 +:+ x2 -> Accepts (rSeq r1 r2) p x s.
Proof. intros A1 A2 ->. exists x1, x2. auto. Qed.

(** Takes apart what is known about an accepted text. *)
Ltac accepts_destruct :=
  repeat match goal with
         | H : Accepts (rLit _) _ _ _ |- _ => apply Accepts_rLit in H
         | H : Accepts _ _ _ _ |- _ => progress cbn [Accepts rCat rAny rOpt rPlus] in H
         | H : exists _, _ |- _ => destruct H
         | H : _ /\ _ |- _ => destruct H
         | H : _ \/ _ |- _ => destruct H
         end.

(** Joins adjacent literal texts, then brings a text into the form
    [a +:+ (b +:+ ...)]. *)
Ltac join_literals :=
  repeat match goal with
         | |- context [String ?c ?s +:+ String ?d ?t] =>
             let z := eval vm_compute in (String c s +:+ String d t) in
             change (String c s +:+ String d t) with z
         end;
  rewrite ?append_nil_r, ?append_nil_l, ?append_assoc.

Lemma Accepts_alt_l (r1 r2 : regex) (p : option ascii) (x s : string) :
  Accepts r1 p x s -> Accepts (rAlt r1 r2) p x s.
Proof. now left. Qed.

Lemma Accepts_alt_r (r1 r2 : regex) (p : option ascii) (x s : string) :
  Accepts r2 p x s -> Accepts (rAlt r1 r2) p x s.
Proof. now right. Qed.

Lemma Accepts_group (i : nat) (r : regex) (p : option ascii) (x s : string) :
  Accepts r p x s -> Accepts (rGroup i r) p x s.
Proof. auto. Qed.

(** Shows that an expression made of literals, alternatives, groups and
    anchors accepts a given text. *)
Ltac accepts_solve :=
  lazymatch goal with
  | |- Accepts (rLit _) _ _ _ => apply Accepts_rLit; reflexivity
  | |- Accepts (rSeq _ _) _ _ _ =>
      eapply Accepts_seq_intro; [accepts_solve | accepts_solve | reflexivity]
  | |- Accepts (rAlt _ _) _ _ _ =>
      (apply Accepts_alt_l; accepts_solve) + (apply Accepts_alt_r; accepts_solve)
  | |- Accepts (rGroup _ _) _ _ _ => apply Accepts_group; accepts_solve
  | |- Accepts rEmpty _ _ _ => reflexivity
  | |- Accepts rBol _ _ _ => split; reflexivity
  | |- Accepts rEol _ _ _ => split; reflexivity
  | |- Accepts _ _ _ _ =>
      progress (cbn [rCat rAny]; unfold rOpt, rPlus); accepts_solve
  end.

Lemma truthy_append_r (x y : string) : y <> "" -> truthy (Some (x +:+ y)) = true.
Proof.
  intros N. destruct x as [|a x]; [|reflexivity].
  rewrite append_nil_l. destruct y; [congruence|reflexivity].
Qed.

Lemma truthy_coerce (s : option string) : truthy s = true -> s = Some (coerce s).
Proof. destruct s as [[|a s]|]; cbn; congruence. Qed.

Lemma nodeRegExp_accepts (file : string) :
  test nodeRegExp file = true <->
  exists pre name,
    file = pre +:+ name +:+ ".js" /\ In name ["timers"; "events"; "node"; "module"].
Proof.
  rewrite test_accepts. unfold nodeRegExp. split.
  - intros (pre & x & post & -> & A). accepts_destruct; subst; join_literals;
      eexists pre, _; (split; [reflexivity|]); cbn [In]; auto 10.
  - intros (pre & name & -> & I). cbn [In] in I.
    exists pre, (name +:+ ".js"), "".
    split; [now rewrite append_nil_r|].
    destruct I as [<-|[<-|[<-|[<-|[]]]]]; accepts_solve.
Qed.

(** Tries each text of a list. *)
Ltac try_each texts tac :=
  lazymatch texts with
  | ?t :: ?more => first [tac t | try_each more tac]
  end.

Lemma mochaRegExp_accepts (file : string) :
  test mochaRegExp file = true <->
  (exists pre post dir js,
      file = pre +:+ "/" +:+ dir +:+ "/mocha" +:+ js +:+ "/" +:+ post
      /\ In dir ["node_modules"; "components"] /\ In js [""; "js"])
  \/ (exists pre, file = pre +:+ "/mocha.js").
Proof.
  rewrite test_accepts. unfold mochaRegExp. split.
  - intros (pre & x & post & -> & A). accepts_destruct; subst; join_literals.
    1-4: left;
         try_each constr:(["node_modules"; "components"]) ltac:(fun dir =>
           try_each constr:([""; "js"]) ltac:(fun js =>
             solve [exists pre, post, dir, js; split; [reflexivity|cbn [In]; auto]])).
    right. exists pre. reflexivity.
  - intros [(pre & post & dir & js & -> & I & J)|(pre & ->)].
    + cbn [In] in I, J.
      exists pre, ("/" +:+ dir +:+ "/mocha" +:+ js +:+ "/"), post.
      split; [now rewrite ?append_assoc|].
      destruct I as [<-|[<-|[]]]; destruct J as [<-|[<-|[]]]; accepts_solve.
    + exists pre, "/mocha.js", "". split; [reflexivity|]. accepts_solve.
Qed.

(** After [([/]|^)] has matched at the end of [pre]. *)
Ltac at_segment_start pre :=
  lazymatch goal with
  | E : prevAfter None pre = None |- _ =>
      apply prevAfter_None in E as [_ ->];
      rewrite ?append_nil_r, ?append_nil_l, ?append_assoc;
      exists ""; rewrite ?append_nil_l
  | |- _ =>
      rewrite ?append_nil_r, ?append_nil_l, ?append_assoc;
      rewrite <- (append_assoc pre "/"); exists (pre +:+ "/")
  end.

Lemma segmentStart_nil : segmentStart "".
Proof. now left. Qed.

Lemma segmentStart_slash (h : string) : segmentStart (h +:+ "/").
Proof. right. now exists h. Qed.

Lemma builtRegExp_accepts (file : string) :
  test builtRegExp file = true <->
  exists pre post dir name,
    file = pre +:+ dir +:+ "/" +:+ name +:+ ".js" +:+ post
    /\ segmentStart pre
    /\ In dir ["built/local"; "lib"]
    /\ In name ["cancellationToken"; "tsc"; "tsserver"; "tsserverlibrary";
                "typescript"; "typescriptServices"; "typingsInstaller";
                "watchGuard"; "run"].
Proof.
  rewrite test_accepts. unfold builtRegExp. split.
  - intros (pre & x & post & -> & A). accepts_destruct; subst;
      at_segment_start pre;
      try_each constr:(["built/local"; "lib"]) ltac:(fun dir =>
        try_each constr:(["cancellationToken"; "tsc"; "tsserver"; "tsserverlibrary";
                          "typescript"; "typescriptServices"; "typingsInstaller";
                          "watchGuard"; "run"]) ltac:(fun name =>
          solve [exists post, dir, name;
                 split; [reflexivity|];
                 split; [first [apply segmentStart_nil | apply segmentStart_slash]|];
                 cbn [In]; auto 12])).
  - intros (pre & post & dir & name & -> & S & I & J). cbn [In] in I, J.
    destruct S as [->|(h & ->)].
    + exists "", (dir +:+ "/" +:+ name +:+ ".js"), post.
      split; [now rewrite ?append_assoc|].
      destruct I as [<-|[<-|[]]];
        destruct J as [<-|[<-|[<-|[<-|[<-|[<-|[<-|[<-|[<-|[]]]]]]]]]]; accepts_solve.
    + exists h, ("/" +:+ dir +:+ "/" +:+ name +:+ ".js"), post.
      split; [now rewrite ?append_assoc|].
      destruct I as [<-|[<-|[]]];
        destruct J as [<-|[<-|[<-|[<-|[<-|[<-|[<-|[<-|[<-|[]]]]]]]]]]; accepts_solve.
Qed.

Lemma srcRegExp_accepts (file : string) :
  test srcRegExp file = true <->
  exists pre post name,
    file = pre +:+ "src/" +:+ name +:+ "/" +:+ post
    /\ segmentStart pre
    /\ In name ["compat"; "compiler"; "harness"; "server"; "services"; "shims";
                "testRunner"; "tsc"; "tsserver"; "tsserverlibrary";
                "typescriptServices"; "typingsInstaller"; "typingsInstallerCore";
                "watchGuard"].
Proof.
  rewrite test_accepts. unfold srcRegExp. split.
  - intros (pre & x & post & -> & A). accepts_destruct; subst;
      at_segment_start pre;
      try_each constr:(["compat"; "compiler"; "harness"; "server"; "services";
                        "shims"; "testRunner"; "tsc"; "tsserver"; "tsserverlibrary";
                        "typescriptServices"; "typingsInstaller";
                        "typingsInstallerCore"; "watchGuard"]) ltac:(fun name =>
        solve [exists post, name;
               split; [reflexivity|];
               split; [first [apply segmentStart_nil | apply segmentStart_slash]|];
               cbn [In]; auto 20]).
  - intros (pre & post & name & -> & S & J). cbn [In] in J.
    destruct S as [->|(h & ->)].
    + exists "", ("src/" +:+ name +:+ "/"), post.
      split; [now rewrite ?append_assoc|].
      destruct J as [<-|[<-|[<-|[<-|[<-|[<-|[<-|[<-|[<-|[<-|[<-|[<-|[<-|[<-|[]]]]]]]]]]]]]]];
        accepts_solve.
    + exists h, ("/src/" +:+ name +:+ "/"), post.
      split; [now rewrite ?append_assoc|].
      destruct J as [<-|[<-|[<-|[<-|[<-|[<-|[<-|[<-|[<-|[<-|[<-|[<-|[<-|[<-|[]]]]]]]]]]]]]]];
        accepts_solve.
Qed.

Section FileNameTests.
Context `{StackEnv}.

(** X7: [isNodeStackFrame] holds exactly for the frames whose file name
    ends with [timers.js], [events.js], [node.js] or [module.js]; the name
    before that ending is not looked at, so [/app/binode.js] counts as a
    file of Node. *)
Theorem isNodeStackFrame_iff (frame : StackFrame) :
  isNodeStackFrame frame = true <->
  exists pre name,
    fileName frame = Some (pre +:+ name +:+ ".js")
    /\ In name ["timers"; "events"; "node"; "module"].
Proof.
  unfold isNodeStackFrame. rewrite andb_true_iff, nodeRegExp_accepts. split.
  - intros (T & pre & name & E & I). exists pre, name. split; [|exact I].
    rewrite <- E. now apply truthy_coerce.
  - intros (pre & name & E & I). rewrite E. cbn [coerce]. split; [|eauto].
    rewrite <- append_assoc. now apply truthy_append_r.
Qed.

(** X8: [isMochaStackFrame] holds exactly for the frames whose file
    name, with its slashes normalized, has a directory [mocha] or [mochajs]
    directly under a directory [node_modules] or [components], or ends with
    [/mocha.js]. *)
Theorem isMochaStackFrame_iff (frame : StackFrame) :
  isMochaStackFrame frame = true <->
  truthy (fileName frame) = true
  /\ ((exists pre post dir js,
          normalizeSlashes (coerce (fileName frame))
          = pre +:+ "/" +:+ dir +:+ "/mocha" +:+ js +:+ "/" +:+ post
          /\ In dir ["node_modules"; "components"] /\ In js [""; "js"])
      \/ (exists pre,
            normalizeSlashes (coerce (fileName frame)) = pre +:+ "/mocha.js")).
Proof.
  unfold isMochaStackFrame. now rewrite andb_true_iff, mochaRegExp_accepts.
Qed.

(** X9: [isTypeScriptStackFrame] holds exactly for the frames whose
    file name, with its slashes normalized, holds, at its start or after a
    slash, either one of the built files ([built/local/] or [lib/], then
    [tsc.js], [tsserver.js], ... followed by any text, so that
    [lib/tsc.json] counts too) or a source directory ([src/compiler/],
    [src/services/], ...). *)
Theorem isTypeScriptStackFrame_iff (frame : StackFrame) :
  isTypeScriptStackFrame frame = true <->
  truthy (fileName frame) = true
  /\ ((exists pre post dir name,
          normalizeSlashes (coerce (fileName frame))
          = pre +:+ dir +:+ "/" +:+ name +:+ ".js" +:+ post
          /\ segmentStart pre
          /\ In dir ["built/local"; "lib"]
          /\ In name ["cancellationToken"; "tsc"; "tsserver"; "tsserverlibrary";
                      "typescript"; "typescriptServices"; "typingsInstaller";
                      "watchGuard"; "run"])
      \/ (exists pre post name,
            normalizeSlashes (coerce (fileName frame))
            = pre +:+ "src/" +:+ name +:+ "/" +:+ post
            /\ segmentStart pre
            /\ In name ["compat"; "compiler"; "harness"; "server"; "services";
                        "shims"; "testRunner"; "tsc"; "tsserver"; "tsserverlibrary";
                        "typescriptServices"; "typingsInstaller";
                        "typingsInstallerCore"; "watchGuard"])).
Proof.
  unfold isTypeScriptStackFrame.
  rewrite <- builtRegExp_accepts, <- srcRegExp_accepts.
  destruct (truthy (fileName frame)); [|split; [discriminate|now intros [? _]]].
  destruct (test builtRegExp _); [tauto|].
  destruct (test srcRegExp _); [tauto|].
  split; [discriminate|]. intros [_ [?|?]]; discriminate.
Qed.

End FileNameTests.

Lemma isNodeStackFrame_witness :
  @isNodeStackFrame
    {| typeName := None; functionName := None; methodName := None;
       fileName := Some "/app/binode.js"; lineNumber := None; columnNumber := None;
       evalOrigin := None; isConstructor := None; isAsync := None |} = true.
Proof.
  apply isNodeStackFrame_iff. exists "/app/bi", "node". split; [reflexivity|].
  cbn [In]. tauto.
Defined.

Lemma isMochaStackFrame_witness :
  @isMochaStackFrame sampleEnv
    {| typeName := None; functionName := None; methodName := None;
       fileName := Some "/p/node_modules/mocha/lib/runner.js";
       lineNumber := None; columnNumber := None;
       evalOrigin := None; isConstructor := None; isAsync := None |} = true.
Proof.
  apply (@isMochaStackFrame_iff sampleEnv). split; [reflexivity|]. left.
  exists "/p", "lib/runner.js", "node_modules", "". split; [reflexivity|].
  cbn [In]. tauto.
Defined.

Lemma isTypeScriptStackFrame_witness :
  @isTypeScriptStackFrame sampleEnv
    {| typeName := None; functionName := None; methodName := None;
       fileName := Some "/ts/lib/tsc.json";
       lineNumber := None; columnNumber := None;
       evalOrigin := None; isConstructor := None; isAsync := None |} = true.
Proof.
  apply (@isTypeScriptStackFrame_iff sampleEnv). split; [reflexivity|]. left.
  exists "/ts/", "on", "lib", "tsc". split; [reflexivity|].
  split; [right; now exists "/ts"|]. cbn [In]. tauto.
Defined.

(** ** Flag decompositions *)

Lemma toInt32_range (z : Z) : - 2 ^ 31 <= toInt32 z < 2 ^ 31.
Proof.
  unfold toInt32. pose proof (Z.mod_pos_bound (z + 2 ^ 31) (2 ^ 32) ltac:(lia)). lia.
Qed.

Lemma toInt32_id (z : Z) : - 2 ^ 31 <= z < 2 ^ 31 -> toInt32 z = z.
Proof. intros R. unfold toInt32. rewrite Z.mod_small; lia. Qed.

Lemma int32_shiftr (z : Z) :
  - 2 ^ 31 <= z < 2 ^ 31 <-> Z.shiftr z 31 = 0 \/ Z.shiftr z 31 = -1.
Proof.
  rewrite Z.shiftr_div_pow2 by lia.
  pose proof (Z.div_mod z (2 ^ 31) ltac:(lia)).
  pose proof (Z.mod_pos_bound z (2 ^ 31) ltac:(lia)). lia.
Qed.

Lemma land_int32 (a b : Z) :
  - 2 ^ 31 <= a < 2 ^ 31 -> - 2 ^ 31 <= b < 2 ^ 31 ->
  - 2 ^ 31 <= Z.land a b < 2 ^ 31.
Proof.
  rewrite !int32_shiftr, Z.shiftr_land.
  intros [->| ->] [->| ->]; cbn; auto.
Qed.

Lemma bitAnd_range (a b : number) : - 2 ^ 31 <= bitAnd a b < 2 ^ 31.
Proof. apply land_int32; apply toInt32_range. Qed.

(** Consuming a member: its bits leave the remaining flags, and together
    with what remains they give back what there was. *)
Lemma consume_bits (remaining enumValue : number) :
  bitAnd remaining enumValue = enumValue ->
  Z.lor (toInt32 (bitAnd remaining (bitNot enumValue))) enumValue = toInt32 remaining.
Proof.
  intros E.
  assert (Re : - 2 ^ 31 <= enumValue < 2 ^ 31) by (rewrite <- E; apply bitAnd_range).
  rewrite (toInt32_id _ (bitAnd_range _ _)).
  unfold bitAnd, bitNot in *. rewrite (toInt32_id enumValue Re) in *.
  rewrite (toInt32_id (Z.lnot enumValue)) by (unfold Z.lnot; lia).
  set (R := toInt32 remaining) in *.
  apply Z.bits_inj'. intros n Hn.
  rewrite Z.lor_spec, Z.land_spec, Z.lnot_spec by exact Hn.
  rewrite <- E at 2. rewrite <- E at 1. rewrite Z.land_spec.
  destruct (Z.testbit R n), (Z.testbit enumValue n); reflexivity.
Qed.

(** The scan of the members, from the highest value down: the members it
    consumes are written in ascending order, pass the filter, are not
    zero, and their bits and the bits that remain make up the flags the
    scan started with. *)
Lemma flags_scan_selected (filter : option (number -> string -> bool))
    (members : list (number * string)) (remaining : number) (text : string) :
  exists selected,
    sublist selected members
    /\ snd (foldr (fun member acc => consumeFlag filter acc member)
                  (remaining, text) members)
       = foldr pipeJoin text (map snd selected)
    /\ Forall (fun member =>
                 fst member <> 0
                 /\ passesFilter filter (fst member) (snd member) = true) selected
    /\ Z.lor (toInt32 (fst (foldr (fun member acc => consumeFlag filter acc member)
                                  (remaining, text) members)))
             (foldr Z.lor 0 (map fst selected))
       = toInt32 remaining
    /\ (selected = [] ->
        fst (foldr (fun member acc => consumeFlag filter acc member)
                   (remaining, text) members) = remaining).
Proof.
  induction members as [|[enumValue enumName] members IH].
  - exists []. cbn. rewrite Z.lor_0_r. repeat split; constructor.
  - destruct IH as (selected & S & T & F & B & Z0). cbn [foldr].
    destruct (foldr _ _ members) as [r t] eqn:Ef. cbn [fst snd] in *.
    unfold consumeFlag. cbn [fst snd].
    destruct (Z.eqb_spec enumValue 0) as [E0|N0]; cbn [orb].
    { exists selected. cbn [fst snd]. repeat split; auto. now apply sublist_cons. }
    destruct (passesFilter filter enumValue enumName) eqn:P; cbn [negb].
    2:{ exists selected. cbn [fst snd]. repeat split; auto. now apply sublist_cons. }
    destruct (Z.eqb_spec (bitAnd r enumValue) enumValue) as [C|NC].
    2:{ exists selected. cbn [fst snd]. repeat split; auto. now apply sublist_cons. }
    exists ((enumValue, enumName) :: selected). cbn [fst snd map foldr].
    split; [now apply sublist_skip|]. split; [now rewrite T|].
    split; [constructor; auto|]. split; [|discriminate].
    rewrite <- B, <- (consume_bits r enumValue C).
    rewrite <- !Z.lor_assoc. reflexivity.
Qed.

Lemma formatEnum_flags_selected (v : number) (enumObject : EnumObject)
    (filter : option (number -> string -> bool)) :
  v <> 0 ->
  formatEnum (Some v) enumObject true filter = toString v
  \/ exists selected,
       sublist selected (getEnumMembers enumObject)
       /\ formatEnum (Some v) enumObject true filter
          = foldr pipeJoin "" (map snd selected)
       /\ Forall (fun member =>
                    fst member <> 0
                    /\ passesFilter filter (fst member) (snd member) = true) selected
       /\ foldr Z.lor 0 (map fst selected) = toInt32 v.
Proof.
  intros NZ. rewrite formatEnum_reference_eq. unfold formatEnum_reference.
  change (default 0 (Some v)) with v. cbn [negb].
  destruct (Z.eqb_spec v 0); [contradiction|].
  replace (fold_left (consumeFlag filter) (rev (getEnumMembers enumObject)) (v, ""))
    with (foldr (fun member acc => consumeFlag filter acc member) (v, "")
            (getEnumMembers enumObject)).
  2:{ rewrite <- (rev_involutive (getEnumMembers enumObject)) at 1.
      apply (fold_left_rev_right (fun member acc => consumeFlag filter acc member)). }
  destruct (flags_scan_selected filter (getEnumMembers enumObject) v "")
    as (selected & S & T & F & B & _).
  destruct (foldr _ _ _) as [r t]. cbn [fst snd] in *.
  destruct (Z.eqb_spec r 0) as [->|]; [|now left].
  right. exists selected. repeat split; auto.
Qed.

(** X10: [formatEnum] with [isFlags], on a value other than [0], gives
    either the decimal string of the value or the names, joined by [|] in
    ascending order of value, of members that pass the filter, are not
    zero and whose values, or-ed together, are exactly the value (as a
    32-bit integer): the text never names a flag that the value lacks and
    never leaves a bit of it out. *)
Theorem formatEnum_flags_cover (v : number) (enumObject : EnumObject)
    (filter : option (number -> string -> bool)) :
  v <> 0 ->
  formatEnum (Some v) enumObject true filter = toString v
  \/ exists selected,
       sublist selected (getEnumMembers enumObject)
       /\ formatEnum (Some v) enumObject true filter
          = foldr pipeJoin "" (map snd selected)
       /\ Forall (fun member =>
                    fst member <> 0
                    /\ passesFilter filter (fst member) (snd member) = true) selected
       /\ foldr Z.lor 0 (map fst selected) = toInt32 v.
Proof. apply formatEnum_flags_selected. Qed.

Lemma formatEnum_flags_cover_witness :
  formatEnum (Some 7) sampleFlags true None = "AB|C"
  /\ (formatEnum (Some 7) sampleFlags true None = toString 7
      \/ exists selected,
           sublist selected (getEnumMembers sampleFlags)
           /\ formatEnum (Some 7) sampleFlags true None
              = foldr pipeJoin "" (map snd selected)
           /\ Forall (fun member =>
                        fst member <> 0
                        /\ passesFilter None (fst member) (snd member) = true) selected
           /\ foldr Z.lor 0 (map fst selected) = toInt32 7).
Proof.
  split; [vm_compute; reflexivity|].
  apply (formatEnum_flags_cover 7 sampleFlags None). lia.
Defined.

Lemma transformFlagsRegExp_accepts (name : string) :
  test transformFlagsRegExp name = true <->
  (exists tail, name = "Assert" +:+ tail)
  \/ (exists head, name = head +:+ "Excludes")
  \/ (exists head, name = head +:+ "PropagatingFlags").
Proof.
  rewrite test_accepts. unfold transformFlagsRegExp. split.
  - intros (pre & x & post & -> & A). accepts_destruct; subst.
    + left. exists post.
      match goal with E : prevAfter None pre = None |- _ =>
        apply prevAfter_None in E as [_ ->] end.
      now rewrite ?append_nil_r, ?append_nil_l, ?append_assoc.
    + right. left. exists pre. now rewrite ?append_nil_r, ?append_nil_l, ?append_assoc.
    + right. right. exists pre. now rewrite ?append_nil_r, ?append_nil_l, ?append_assoc.
  - intros [(tail & ->)|[(head & ->)|(head & ->)]].
    + exists "", "Assert", tail. split; [reflexivity|]. accepts_solve.
    + exists head, "Excludes", "". split; [reflexivity|]. accepts_solve.
    + exists head, "PropagatingFlags", "". split; [reflexivity|]. accepts_solve.
Qed.

(** X11: [formatTransformFlags] never names a member whose name
    starts with [Assert] or ends with [Excludes] or [PropagatingFlags]:
    whenever it gives a decomposition rather than the decimal string, the
    members named are none of those, and their values, or-ed together, are
    the flags. *)
Theorem formatTransformFlags_hides_helper_members (v : number)
    (TransformFlags : EnumObject) :
  v <> 0 ->
  formatTransformFlags TransformFlags (Some v) = toString v
  \/ exists selected,
       sublist selected (getEnumMembers TransformFlags)
       /\ formatTransformFlags TransformFlags (Some v)
          = foldr pipeJoin "" (map snd selected)
       /\ Forall (fun member =>
                    ~ (exists tail, snd member = "Assert" +:+ tail)
                    /\ ~ (exists head, snd member = head +:+ "Excludes")
                    /\ ~ (exists head, snd member = head +:+ "PropagatingFlags"))
                 selected
       /\ foldr Z.lor 0 (map fst selected) = toInt32 v.
Proof.
  intros NZ. unfold formatTransformFlags.
  destruct (formatEnum_flags_selected v TransformFlags
              (Some (fun _ name => negb (test transformFlagsRegExp name))) NZ)
    as [E|(selected & S & E & F & B)]; [now left|].
  right. exists selected. repeat split; auto.
  eapply Forall_impl; [exact F|]. intros [value name] [_ P]. cbn [fst snd] in *.
  apply negb_true_iff in P.
  assert (N : ~ (test transformFlagsRegExp name = true)) by congruence.
  rewrite transformFlagsRegExp_accepts in N. tauto.
Qed.

Lemma formatTransformFlags_witness :
  let TransformFlags :=
    [("ContainsES2015", JsNumber 1); ("AssertES2015", JsNumber 1);
     ("ContainsYield", JsNumber 2); ("NodeExcludes", JsNumber 3)] in
  formatTransformFlags TransformFlags (Some 3) = "ContainsES2015|ContainsYield"
  /\ (formatTransformFlags TransformFlags (Some 3) = toString 3
      \/ exists selected,
           sublist selected (getEnumMembers TransformFlags)
           /\ formatTransformFlags TransformFlags (Some 3)
              = foldr pipeJoin "" (map snd selected)
           /\ Forall (fun member =>
                        ~ (exists tail, snd member = "Assert" +:+ tail)
                        /\ ~ (exists head, snd member = head +:+ "Excludes")
                        /\ ~ (exists head, snd member = head +:+ "PropagatingFlags"))
                     selected
           /\ foldr Z.lor 0 (map fst selected) = toInt32 3).
Proof.
  intros TransformFlags. split; [vm_compute; reflexivity|].
  apply (formatTransformFlags_hides_helper_members 3 TransformFlags). lia.
Defined.

(** ** The name of a function *)

Lemma append_cancel_l (l a b : string) : l +:+ a = l +:+ b -> a = b.
Proof.
  induction l as [|c l IH]; [auto|]. rewrite !append_cons. intros [= E]. auto.
Qed.

(** A text splits in one way only into a run of characters that satisfy
    [p] and a rest that does not start with such a character. *)
Lemma span_unique (p : ascii -> bool) (x1 x2 y1 y2 : string) :
  allChars p x1 = true -> allChars p x2 = true ->
  stopsAt p y1 -> stopsAt p y2 ->
  x1 +:+ y1 = x2 +:+ y2 -> x1 = x2 /\ y1 = y2.
Proof.
  revert x2. induction x1 as [|a x1 IH]; intros x2 A1 A2 S1 S2 E.
  - destruct x2 as [|b x2]; [auto|]. rewrite append_nil_l, append_cons in E.
    subst y1. cbn [allChars] in A2. apply andb_true_iff in A2 as [A2 _].
    cbn in S1. congruence.
  - destruct x2 as [|b x2].
    + rewrite append_nil_l, append_cons in E. subst y2.
      cbn [allChars] in A1. apply andb_true_iff in A1 as [A1 _].
      cbn in S2. congruence.
    + rewrite !append_cons in E. injection E as <- E.
      cbn [allChars] in A1, A2.
      apply andb_true_iff in A1 as [_ A1]. apply andb_true_iff in A2 as [_ A2].
      destruct (IH x2 A1 A2 S1 S2 E) as [-> ->]. auto.
Qed.

Lemma isNameChar_not_space (c : ascii) : isNameChar c = true -> isSpace c = false.
Proof.
  destruct c as [[] [] [] [] [] [] [] []]; vm_compute; congruence.
Qed.

Lemma Iter_rChar (p : ascii -> bool) (q : option ascii) (x s : string) :
  allChars p x = true -> Iter (Accepts (rChar p)) q x s.
Proof.
  revert q. induction x as [|a x IH]; intros q A; [constructor|].
  cbn [allChars] in A. apply andb_true_iff in A as [Ea A].
  change (String a x) with (String a "" +:+ x). constructor.
  - exists a. auto.
  - now apply IH.
Qed.

Lemma Accepts_rPlus_rChar (p : ascii -> bool) (q : option ascii) (x s : string) :
  x <> "" -> allChars p x = true -> Accepts (rPlus (rChar p)) q x s.
Proof.
  intros N A. destruct x as [|a x]; [congruence|].
  cbn [allChars] in A. apply andb_true_iff in A as [Ea A].
  exists (String a ""), x. split; [reflexivity|]. split.
  - exists a. auto.
  - now apply Iter_rChar.
Qed.

(** What a match of [functionNameRegExp] says about the text. *)
Lemma exec_functionNameRegExp (text : string) (m : MatchResult) :
  exec functionNameRegExp text = Some m ->
  exists spaces name spaces' tail,
    text = "function" +:+ spaces +:+ name +:+ spaces' +:+ "(" +:+ tail
    /\ group 1 m = Some name
    /\ spaces <> "" /\ allChars isSpace spaces = true
    /\ name <> "" /\ allChars isNameChar name = true
    /\ allChars isSpace spaces' = true.
Proof.
  intros E. apply exec_anchored in E as (_ & x & s' & c' & -> & M & _ & Ec).
  destruct M as (x1 & x2 & cm & -> & M1 &
                 (x3 & x4 & cm2 & -> & M3 &
                  (x5 & x6 & cm3 & -> & (cm4 & M5 & ->) &
                   (x7 & x8 & cm5 & -> & M7 & M8)))).
  apply Matches_rLit in M1 as [-> ->].
  apply Matches_rPlus_rChar in M3 as (S3 & N3 & ->).
  apply Matches_rPlus_rChar in M5 as (S5 & N5 & ->).
  apply Star_rChar in M7 as [S7 ->].
  apply Matches_rLit in M8 as [-> ->].
  exists x3, x5, x7, s'. rewrite ?append_assoc.
  split; [reflexivity|]. split; [|auto].
  unfold group. now rewrite Ec.
Qed.

Lemma functionNameRegExp_accepts (spaces name spaces' tail : string) :
  spaces <> "" -> allChars isSpace spaces = true ->
  name <> "" -> allChars isNameChar name = true ->
  allChars isSpace spaces' = true ->
  exec functionNameRegExp ("function" +:+ spaces +:+ name +:+ spaces' +:+ "(" +:+ tail)
  <> None.
Proof.
  intros N1 S1 N2 S2 S3. unfold exec. apply search_accepts.
  exists "", ("function" +:+ spaces +:+ name +:+ spaces' +:+ "("), tail.
  split; [now rewrite ?append_assoc|].
  unfold functionNameRegExp. cbn [rCat].
  eapply Accepts_seq_intro; [split; reflexivity| |symmetry; apply append_nil_l].
  eapply Accepts_seq_intro; [now apply Accepts_rLit| |reflexivity].
  eapply Accepts_seq_intro;
    [apply (Accepts_rPlus_rChar isSpace _ spaces); assumption| |reflexivity].
  eapply Accepts_seq_intro;
    [apply Accepts_group; apply (Accepts_rPlus_rChar isNameChar _ name); assumption|
    |reflexivity].
  eapply Accepts_seq_intro;
    [apply (Iter_rChar isSpace _ spaces'); exact S3| |reflexivity].
  now apply Accepts_rLit.
Qed.

Section FunctionNameProperties.
Context {H : Type} `{LoggingHost H}.

(** X12: for a function without a [name] property of its own,
    [getFunctionName] gives a name other than the empty text exactly when
    the source text of the function reads [function], white space, a name
    made of word characters and [$], optional white space and an opening
    parenthesis; the result is that name.  So an anonymous function
    expression and an arrow function have the name [""]. *)
Theorem getFunctionName_reads_source_text {A B : Type} (func : JsFunction H A B)
    (name : string) :
  fn_ownName func = None ->
  (getFunctionName (Some func) = name /\ name <> "")
  <-> exists spaces spaces' tail,
        fn_text func = "function" +:+ spaces +:+ name +:+ spaces' +:+ "(" +:+ tail
        /\ spaces <> "" /\ allChars isSpace spaces = true
        /\ name <> "" /\ allChars isNameChar name = true
        /\ allChars isSpace spaces' = true.
Proof.
  intros O. cbn [getFunctionName]. rewrite O. split.
  - intros [E N]. destruct (exec functionNameRegExp (fn_text func)) as [m|] eqn:X;
      [|congruence].
    apply exec_functionNameRegExp in X
      as (spaces & name' & spaces' & tail & T & G & F).
    rewrite G in E. cbn [coerce] in E. subst name'.
    exists spaces, spaces', tail. auto.
  - intros (spaces & spaces' & tail & T & N1 & S1 & N2 & S2 & S3).
    split; [|exact N2].
    pose proof (functionNameRegExp_accepts spaces name spaces' tail N1 S1 N2 S2 S3) as X.
    rewrite <- T in X.
    destruct (exec functionNameRegExp (fn_text func)) as [m|] eqn:E; [|congruence].
    apply exec_functionNameRegExp in E
      as (spaces1 & name1 & spaces1' & tail1 & T1 & G & M1 & R1 & M2 & R2 & R3).
    rewrite G. cbn [coerce]. rewrite T in T1.
    apply append_cancel_l in T1.
    assert (U : spaces = spaces1
                /\ name +:+ spaces' +:+ "(" +:+ tail
                   = name1 +:+ spaces1' +:+ "(" +:+ tail1).
    { apply (span_unique isSpace); auto.
      - destruct name as [|c name]; [congruence|]. rewrite append_cons. cbn [stopsAt].
        cbn [allChars] in S2. apply andb_true_iff in S2 as [S2 _].
        now apply isNameChar_not_space.
      - destruct name1 as [|c name1]; [congruence|]. rewrite append_cons. cbn [stopsAt].
        cbn [allChars] in R2. apply andb_true_iff in R2 as [R2 _].
        now apply isNameChar_not_space. }
    destruct U as [_ U].
    assert (St : forall sp tl, allChars isSpace sp = true ->
                               stopsAt isNameChar (sp +:+ "(" +:+ tl)).
    { intros [|c sp] tl Sp; [reflexivity|]. rewrite append_cons. cbn [stopsAt].
      cbn [allChars] in Sp. apply andb_true_iff in Sp as [Sp _].
      destruct (isNameChar c) eqn:Ec; [|reflexivity].
      apply isNameChar_not_space in Ec. congruence. }
    apply (span_unique isNameChar) in U as [U _]; auto.
Qed.

End FunctionNameProperties.

Lemma getFunctionName_witness :
  @getFunctionName (list (LogLevel * string)) Node bool
    (Some {| fn_ownName := None;
             fn_text := "function  isIdentifier (node) { return true; }";
             fn_call := fun _ => ret true |}) = "isIdentifier"
  /\ @getFunctionName (list (LogLevel * string)) Node bool
       (Some {| fn_ownName := None;
                fn_text := "function (node) { return true; }";
                fn_call := fun _ => ret true |}) = "".
Proof.
  split; [|reflexivity].
  apply (getFunctionName_reads_source_text
           {| fn_ownName := None;
              fn_text := "function  isIdentifier (node) { return true; }";
              fn_call := fun _ : Node => @ret (list (LogLevel * string)) bool true |}
           "isIdentifier" eq_refl).
  exists "  ", " ", "node) { return true; }". repeat split; discriminate.
Defined.

(** ** Further properties of the stack filter *)

Section FilterProperties.
Context `{StackEnv}.
Implicit Types (opts : FilterStackOptions) (run : FilterRun) (line : string).

Lemma frameOf_None opts line : frameOf opts line = None <-> isFrameLine line = false.
Proof.
  unfold frameOf, isFrameLine. destruct (parseStackFrame line); cbn; split; congruence.
Qed.

Lemma reformatted_other opts line : isFrameLine line = false -> reformatted opts line = line.
Proof. intros E. apply (frameOf_None opts) in E. unfold reformatted. now rewrite E. Qed.

Lemma frame_line_cases opts (c : number) line :
  isFrameLine line = true ->
  isExcludedLine opts c line = negb (isKeptLine opts c line).
Proof.
  unfold isFrameLine, isExcludedLine, isKeptLine, frameOf.
  destruct (parseStackFrame line); cbn; [|discriminate].
  intros _. now rewrite negb_involutive.
Qed.

Lemma isExcluded_noCategory opts (c : number) (frame : StackFrame) :
  noCategory opts = true -> isExcluded opts c frame = limitReached opts c.
Proof.
  unfold noCategory. intros N.
  repeat (apply andb_true_iff in N as [N ?]).
  rewrite isExcluded_split. unfold excludedByCategory.
  destruct (excludeNode opts), (excludeMocha opts), (excludeTypeScript opts),
    (excludeBuiltin opts), (exclude opts); try discriminate.
  now rewrite orb_false_r.
Qed.

Lemma isKeptLine_below_limit opts (c : number) line :
  noCategory opts = true -> limitReached opts c = false ->
  isFrameLine line = true -> isKeptLine opts c line = true.
Proof.
  intros N L F. unfold isKeptLine, isFrameLine, frameOf in *.
  destruct (parseStackFrame line); cbn; [|discriminate].
  now rewrite isExcluded_noCategory, L.
Qed.

Lemma isExcludedLine_at_limit opts (c : number) line :
  limitReached opts c = true ->
  isFrameLine line = true -> isExcludedLine opts c line = true.
Proof.
  intros L F. unfold isExcludedLine, isFrameLine, frameOf in *.
  destruct (parseStackFrame line); cbn; [|discriminate].
  now rewrite isExcluded_split, L.
Qed.

Lemma reformatted_frame_truthy opts line :
  isFrameLine line = true -> truthy (Some (reformatted opts line)) = true.
Proof.
  unfold isFrameLine, reformatted, frameOf.
  destruct (parseStackFrame line) as [frame|]; cbn; [|discriminate]. intros _.
  rewrite formatStackFrame_eq. destruct (truthy (functionName _));
    rewrite ?append_assoc; reflexivity.
Qed.

(** A loop state from which no excluded frame is pending: the lines that
    come without an exclusion are written one for one. *)
Lemma kept_lines_written opts (lines : list string) :
  forall run,
    excludedFrameCount run = 0 ->
    Forall (fun line => isFrameLine line = false
                        \/ forall c, isKeptLine opts c line = true) lines ->
    filtered (fold_left (filterLine opts) lines run)
    = (filtered run ++ map (reformatted opts) lines)%list
    /\ excludedFrameCount (fold_left (filterLine opts) lines run) = 0
    /\ frameCount (fold_left (filterLine opts) lines run)
       = frameCount run + Z.of_nat (length (List.filter isFrameLine lines))
    /\ (lastFrameWasExcluded run = false ->
        lastFrameWasExcluded (fold_left (filterLine opts) lines run) = false).
Proof.
  induction lines as [|line lines IH]; intros run E F.
  - cbn. rewrite app_nil_r, Z.add_0_r. auto.
  - inversion F as [|? ? Fl Fls]; subst. cbn [fold_left map List.filter].
    destruct Fl as [O|K].
    + rewrite (filterLine_other opts run line) by now apply frameOf_None.
      rewrite O.
      destruct (IH {| filtered := filtered run ++ [line];
                      frameCount := frameCount run;
                      lastFrameWasExcluded := lastFrameWasExcluded run;
                      excludedFrameCount := excludedFrameCount run;
                      lastExcludedFrame := lastExcludedFrame run |} E Fls)
        as (I1 & I2 & I3 & I4).
      cbn [filtered excludedFrameCount frameCount lastFrameWasExcluded] in *.
      rewrite I1, I2, I3, (reformatted_other opts line O), <- app_assoc.
      repeat split; auto.
    + assert (Fr : isFrameLine line = true).
      { specialize (K 0). unfold isKeptLine, isFrameLine, frameOf in *.
        destruct (parseStackFrame line); [reflexivity|discriminate]. }
      rewrite (filterLine_kept opts run line (K _)). rewrite Fr.
      rewrite E. change (0 >? 0) with false. cbn iota.
      destruct (IH {| filtered := filtered run ++ [reformatted opts line];
                      frameCount := frameCount run + 1;
                      lastFrameWasExcluded := false;
                      excludedFrameCount := 0;
                      lastExcludedFrame := lastExcludedFrame run |} eq_refl Fls)
        as (I1 & I2 & I3 & I4).
      cbn [filtered excludedFrameCount frameCount lastFrameWasExcluded] in *.
      rewrite I1, I2, I3, <- app_assoc. cbn [length].
      repeat split; auto. lia.
Qed.

(** X13: without exclusion options ([stackTraceLimit], the four
    categories and [exclude] all left out) the filter only reformats: the
    result has the lines of the stack, one for one and in their order, each
    frame line written anew from its parsed and rewritten frame and every
    other line as it is, joined by line feeds.  No line is dropped and no
    skipping line appears. *)
Theorem filterStack_without_exclusions_reformats opts (stack : string) :
  noCategory opts = true -> stackTraceLimit opts = None ->
  filterStackText opts stack
  = join newline (map (reformatted opts) (splitLines stack)).
Proof.
  intros N L. unfold filterStackText.
  destruct (kept_lines_written opts (splitLines stack) initialRun eq_refl)
    as (I1 & I2 & _).
  { apply Forall_forall. intros line _.
    destruct (isFrameLine line) eqn:F; [right|now left].
    intros c. apply isKeptLine_below_limit; auto.
    unfold limitReached. now rewrite L. }
  unfold flushRun. rewrite I2. change (0 >? 0) with false. cbn iota.
  now rewrite I1.
Qed.

(** The lines written by the loop only grow, and a line that is not a
    frame line is written as it is. *)
Lemma filterLine_filtered opts run line :
  exists more,
    filtered (filterLine opts run line) = (filtered run ++ more)%list
    /\ (isFrameLine line = false -> more = [line]).
Proof.
  unfold filterLine, isFrameLine. destruct (parseStackFrame line) as [frame|].
  - destruct (isExcluded opts (frameCount run) _).
    + destruct (lastFrameWasExcluded run); cbn [filtered].
      * exists []. now rewrite app_nil_r.
      * eexists. split; [reflexivity|discriminate].
    + cbn [filtered]. destruct (excludedFrameCount run >? 0).
      * eexists. rewrite <- app_assoc. split; [reflexivity|discriminate].
      * eexists. split; [reflexivity|discriminate].
  - cbn [filtered]. eexists. split; reflexivity.
Qed.

Lemma flushRun_filtered run : exists more, flushRun run = (filtered run ++ more)%list.
Proof.
  unfold flushRun. destruct (excludedFrameCount run >? 0).
  - destruct (excludedFrameCount run - 1 >? 0), (truthy (lastExcludedFrame run));
      rewrite <- ?app_assoc; eexists; try reflexivity.
    now rewrite app_nil_r.
  - exists []. now rewrite app_nil_r.
Qed.

(** X14: the filter never drops or changes a line that is not a frame
    line: the lines of the stack that are not frame lines (the message of
    the error, for one) are all found in the result, as they are and in
    their order, whatever the options. *)
Theorem filterStack_keeps_other_lines opts (lines : list string) :
  sublist (List.filter (fun line => negb (isFrameLine line)) lines)
          (outputLines opts lines).
Proof.
  unfold outputLines, runAfter.
  assert (G : forall run kept,
             sublist kept (filtered run) ->
             sublist (kept ++ List.filter (fun line => negb (isFrameLine line)) lines)%list
                     (filtered (fold_left (filterLine opts) lines run))).
  { induction lines as [|line lines IH]; intros run kept S.
    - cbn. now rewrite app_nil_r.
    - cbn [fold_left List.filter].
      destruct (filterLine_filtered opts run line) as (more & E & O).
      destruct (isFrameLine line) eqn:F; cbn [negb].
      + apply IH. rewrite E. now apply sublist_inserts_r.
      + rewrite (O eq_refl) in E.
        change (line :: List.filter (fun line0 => negb (isFrameLine line0)) lines)
          with ([line] ++ List.filter (fun line0 => negb (isFrameLine line0)) lines)%list.
        rewrite app_assoc. apply IH. rewrite E. now apply sublist_app. }
  specialize (G initialRun [] (sublist_nil_l _)). cbn [app] in G.
  destruct (flushRun_filtered (fold_left (filterLine opts) lines initialRun))
    as (more & ->).
  now apply sublist_inserts_r.
Qed.

(** X15: the filter never invents text: every line of the result is
    what the filter writes for some line of the stack (the line itself, or
    its frame written anew), or a line [... skipping N frame(s) ...] with
    [N] at least 1. *)
Theorem filterStack_lines_have_origin opts (lines : list string) :
  Forall (hasOrigin opts lines) (outputLines opts lines).
Proof.
  unfold outputLines, runAfter.
  set (Good := fun run : FilterRun =>
         Forall (hasOrigin opts lines) (filtered run)
         /\ 0 <= excludedFrameCount run
         /\ forall text, lastExcludedFrame run = Some text ->
                         exists line, In line lines /\ text = reformatted opts line).
  assert (G : forall rest' run,
             (forall line, In line rest' -> In line lines) ->
             Good run -> Good (fold_left (filterLine opts) rest' run)).
  { induction rest' as [|line rest' IH]; intros run Sub I; [exact I|].
    cbn [fold_left]. apply IH; [intros l Hl; apply Sub; now right|].
    assert (Hin : In line lines) by (apply Sub; now left).
    destruct I as (I1 & I2 & I3).
    assert (Hl : hasOrigin opts lines (reformatted opts line)).
    { left. now exists line. }
    unfold filterLine, Good.
    assert (R : forall frame, parseStackFrame line = Some frame ->
                  formatStackFrame (rewriteStackFrame opts frame) = reformatted opts line).
    { intros frame E. unfold reformatted, frameOf. now rewrite E. }
    destruct (parseStackFrame line) as [frame|] eqn:P.
    - rewrite (R frame eq_refl).
      destruct (isExcluded opts (frameCount run) _).
      + destruct (lastFrameWasExcluded run);
          cbn [filtered excludedFrameCount lastExcludedFrame].
        * split; [exact I1|]. split; [lia|].
          intros text [= <-]. now exists line.
        * split; [apply Forall_app; split; [exact I1|now constructor]|]. auto.
      + cbn [filtered excludedFrameCount lastExcludedFrame].
        destruct (Z.gtb_spec (excludedFrameCount run) 0) as [Pos|NPos].
        * split; [|split; [lia|exact I3]].
          apply Forall_app; split; [|now constructor].
          apply Forall_app; split; [exact I1|]. constructor; [|constructor].
          right. now exists (excludedFrameCount run).
        * split; [|split; [lia|exact I3]].
          apply Forall_app; split; [exact I1|now constructor].
    - cbn [filtered excludedFrameCount lastExcludedFrame].
      split; [|auto]. apply Forall_app; split; [exact I1|]. constructor; [|constructor].
      left. exists line. split; [exact Hin|].
      unfold reformatted, frameOf. now rewrite P. }
  destruct (G lines initialRun (fun _ I => I)) as (I1 & I2 & I3).
  { unfold Good. cbn. split; [constructor|]. split; [lia|discriminate]. }
  unfold flushRun.
  destruct (Z.gtb_spec (excludedFrameCount (fold_left (filterLine opts) lines initialRun)) 0)
    as [Pos|NPos]; [|exact I1].
  set (run := fold_left (filterLine opts) lines initialRun) in *.
  assert (S : Forall (hasOrigin opts lines)
                (if excludedFrameCount run - 1 >? 0
                 then filtered run ++ [skippingLine (excludedFrameCount run - 1)]
                 else filtered run)%list).
  { destruct (Z.gtb_spec (excludedFrameCount run - 1) 0) as [P1|_]; [|exact I1].
    apply Forall_app; split; [exact I1|]. constructor; [|constructor].
    right. now exists (excludedFrameCount run - 1). }
  destruct (lastExcludedFrame run) as [text|] eqn:El; cbn [truthy coerce]; [|exact S].
  destruct text as [|a text]; [exact S|].
  apply Forall_app; split; [exact S|]. constructor; [|constructor].
  left. destruct (I3 _ eq_refl) as (line & Hin & E). now exists line.
Qed.

(** A run of excluded frames at the end of the stack. *)
Lemma trailing_run_written opts (before : list string) (first : string)
    (more : list string) :
  lastFrameWasExcluded (runAfter opts before) = false ->
  forallb (isExcludedLine opts (frameCount (runAfter opts before))) (first :: more) = true ->
  outputLines opts (before ++ first :: more) =
    (filtered (runAfter opts before)
     ++ [reformatted opts first]
     ++ (if Z.of_nat (length more) - 1 >? 0
         then [skippingLine (Z.of_nat (length more) - 1)] else [])
     ++ match last more with
        | Some line => [reformatted opts line]
        | None => []
        end)%list.
Proof.
  intros L E.
  destruct (runAfter_counter opts before) as [_ C0]. specialize (C0 L).
  unfold outputLines. unfold runAfter at 1.
  rewrite fold_left_app. fold (runAfter opts before).
  set (run := runAfter opts before) in *.
  cbn [forallb] in E. apply andb_true_iff in E as [E1 E2].
  cbn [fold_left]. rewrite (filterLine_excluded_first _ _ _ E1 L).
  rewrite (excluded_run_counted opts more);
    [|reflexivity
     |cbn [frameCount]; eapply forallb_imp; [|exact E2];
      intros line; apply isExcludedLine_mono; lia].
  unfold flushRun.
  cbn [filtered frameCount excludedFrameCount lastExcludedFrame].
  rewrite C0, Z.add_0_l.
  destruct more as [|l more]; [cbn; now rewrite app_nil_r|].
  assert (Hlast : exists line, last (l :: more) = Some line
                               /\ isFrameLine line = true) .
  { destruct (last (l :: more)) as [line|] eqn:El; [|now apply last_None in El].
    exists line. split; [reflexivity|].
    assert (Hin : In line (l :: more)).
    { apply list_elem_of_In. eapply last_Some_elem_of. exact El. }
    rewrite forallb_forall in E2. specialize (E2 line Hin).
    unfold isExcludedLine, isFrameLine, frameOf in *.
    destruct (parseStackFrame line); [reflexivity|discriminate]. }
  destruct Hlast as (line & El & Fl). rewrite El.
  set (n := Z.of_nat (length (l :: more))).
  assert (Hn : (n >? 0) = true) by (apply Z.gtb_lt; unfold n; cbn [length]; lia).
  rewrite Hn. cbn [truthy coerce].
  pose proof (reformatted_frame_truthy opts line Fl) as T.
  cbn [truthy] in T. destruct (reformatted opts line) as [|a t] eqn:Er; [discriminate|].
  destruct (n - 1 >? 0); rewrite <- ?app_assoc; reflexivity.
Qed.


(** X17: with [stackTraceLimit] set to [n] and no other exclusion, a
    stack of message lines followed by more than [n] frames is not cut
    after [n] frames: the result has the message lines, the first [n]
    frames, one frame more, a skipping line that counts the frames left out
    (if there are any) and the last frame (if it is not the one just
    written), up to [n + 2] frames in all. *)
Theorem stackTraceLimit_shows_two_more opts (header kept : list string)
    (first : string) (more : list string) :
  noCategory opts = true ->
  stackTraceLimit opts = Some (Z.of_nat (length kept)) ->
  forallb (fun line => negb (isFrameLine line)) header = true ->
  forallb isFrameLine (kept ++ first :: more) = true ->
  outputLines opts (header ++ kept ++ first :: more) =
    (header
     ++ map (reformatted opts) kept
     ++ [reformatted opts first]
     ++ (if Z.of_nat (length more) - 1 >? 0
         then [skippingLine (Z.of_nat (length more) - 1)] else [])
     ++ match last more with
        | Some line => [reformatted opts line]
        | None => []
        end)%list.
Proof.
  intros N L Hh Hf.
  rewrite forallb_app in Hf. apply andb_true_iff in Hf as [Hk Hm].
  assert (Hrun : forall (pre done : list string) run,
            excludedFrameCount run = 0 -> lastFrameWasExcluded run = false ->
            frameCount run = Z.of_nat (length done) ->
            (length done + length pre <= length kept)%nat ->
            forallb isFrameLine pre = true ->
            let run' := fold_left (filterLine opts) pre run in
            filtered run' = (filtered run ++ map (reformatted opts) pre)%list
            /\ excludedFrameCount run' = 0
            /\ lastFrameWasExcluded run' = false
            /\ frameCount run' = Z.of_nat (length done + length pre)).
  { induction pre as [|line pre IH]; intros done run E0 L0 C0 Len F.
    - cbn. rewrite app_nil_r, Nat.add_0_r. auto.
    - cbn [forallb] in F. apply andb_true_iff in F as [F1 F2].
      cbn [fold_left map].
      assert (K : isKeptLine opts (frameCount run) line = true).
      { apply isKeptLine_below_limit; auto. unfold limitReached. rewrite L, C0.
        cbn [length] in Len.
        destruct (Z.geb_spec (Z.of_nat (length done)) (Z.of_nat (length kept)));
          [lia|reflexivity]. }
      rewrite (filterLine_kept opts run line K), E0.
      change (0 >? 0) with false. cbn iota.
      destruct (IH (done ++ [line])%list
                  {| filtered := filtered run ++ [reformatted opts line];
                     frameCount := frameCount run + 1;
                     lastFrameWasExcluded := false;
                     excludedFrameCount := 0;
                     lastExcludedFrame := lastExcludedFrame run |})
        as (I1 & I2 & I3 & I4); auto.
      + cbn [frameCount]. rewrite C0, length_app. cbn [length]. lia.
      + rewrite length_app. cbn [length] in *. lia.
      + cbn [filtered] in I1. rewrite I1, <- app_assoc.
        repeat split; auto. rewrite I4, length_app. cbn [length]. f_equal. lia. }
  destruct (kept_lines_written opts header initialRun eq_refl)
    as (H1 & H2 & H3 & H4).
  { apply List.Forall_forall. intros line Hin. left.
    pose proof (proj1 (forallb_forall _ _) Hh line Hin) as Hl.
    now apply negb_true_iff in Hl. }
  assert (H5 : List.filter isFrameLine header = []).
  { clear -Hh. induction header as [|l header IH]; [reflexivity|].
    cbn [forallb] in Hh. apply andb_true_iff in Hh as [Hl Hh].
    cbn [List.filter]. apply negb_true_iff in Hl. rewrite Hl. auto. }
  rewrite H5 in H3. cbn in H1, H3.
  specialize (H4 eq_refl).
  destruct (Hrun kept [] (fold_left (filterLine opts) header initialRun))
    as (K1 & K2 & K3 & K4); auto.
  rewrite app_assoc.
  rewrite (trailing_run_written opts (header ++ kept) first more).
  - unfold runAfter. rewrite fold_left_app, K1, H1.
    assert (Hid : map (reformatted opts) header = header).
    { clear -Hh. induction header as [|l header IH]; [reflexivity|].
      cbn [forallb] in Hh. apply andb_true_iff in Hh as [Hl Hh].
      apply negb_true_iff in Hl. cbn [map].
      now rewrite (reformatted_other opts l Hl), (IH Hh). }
    rewrite Hid, <- !app_assoc. reflexivity.
  - unfold runAfter. now rewrite fold_left_app.
  - unfold runAfter. rewrite fold_left_app, K4. cbn [length Nat.add].
    eapply forallb_imp; [|exact Hm].
    intros line F. apply isExcludedLine_at_limit; auto.
    unfold limitReached. rewrite L.
    destruct (Z.geb_spec (Z.of_nat (length kept)) (Z.of_nat (length kept)));
      [reflexivity|lia].
Qed.

End FilterProperties.

Lemma filterStack_without_exclusions_witness :
  @filterStackText sampleEnv noOptions
    ("Error: boom" +:+ CRLF +:+ "    at f (/x/a.js:010:1)")
  = join newline ["Error: boom"; "    at f (/x/a.js:10:1)"].
Proof.
  rewrite (@filterStack_without_exclusions_reformats sampleEnv noOptions _ eq_refl eq_refl).
  vm_compute. reflexivity.
Defined.

Lemma filterStack_keeps_other_lines_witness :
  sublist ["Error: boom"]
    (@outputLines sampleEnv excludeFileA ("Error: boom" :: threeExcludedOneKept)).
Proof.
  exact (@filterStack_keeps_other_lines sampleEnv excludeFileA
           ("Error: boom" :: threeExcludedOneKept)).
Defined.

Lemma filterStack_lines_have_origin_witness :
  Forall (@hasOrigin sampleEnv excludeFileA ("Error: boom" :: threeExcludedOneKept))
    (@outputLines sampleEnv excludeFileA ("Error: boom" :: threeExcludedOneKept)).
Proof.
  exact (@filterStack_lines_have_origin sampleEnv excludeFileA
           ("Error: boom" :: threeExcludedOneKept)).
Defined.


Lemma stackTraceLimit_witness :
  @outputLines sampleEnv (limitOnly 2) fiveFrames
  = ["Error: boom"; "    at f1 (/x/a.js:1:1)"; "    at f2 (/x/a.js:2:1)";
     "    at f3 (/x/a.js:3:1)"; "    ... skipping 1 frame ...";
     "    at f5 (/x/a.js:5:1)"].
Proof.
  change fiveFrames with
    (["Error: boom"]
     ++ ["    at f1 (/x/a.js:1:1)"; "    at f2 (/x/a.js:2:1)"]
     ++ "    at f3 (/x/a.js:3:1)"
        :: ["    at f4 (/x/a.js:4:1)"; "    at f5 (/x/a.js:5:1)"])%list.
  rewrite (@stackTraceLimit_shows_two_more sampleEnv (limitOnly 2));
    vm_compute; reflexivity.
Defined.

(** ** File URLs *)

Lemma Star_group_getCap (i j : nat) (r : regex) (x s : string)
    (c c' : list (nat * string)) :
  noGroup r = true -> j <> i ->
  Star (Matches (rGroup i r)) x s c c' -> getCap j c' = getCap j c.
Proof.
  intros N D S. induction S as [|x1 x2 s c cm c' M _ IH]; [reflexivity|].
  destruct M as (cm' & M & ->). apply (Matches_noGroup r N) in M. subst cm'.
  rewrite IH. cbn [getCap]. destruct (Nat.eqb_spec j i); [contradiction|reflexivity].
Qed.

Lemma Star_colon_numbers (x s : string) (c c' : list (nat * string)) :
  Star (Matches (rGroup 2 (rSeq (rLit ":") (rPlus rDigit)))) x s c c' ->
  x = "" \/ exists t, x = ":" +:+ t.
Proof.
  intros S. destruct S as [|x1 x2 s c cm c' M _]; [now left|]. right.
  destruct M as (cm' & (y1 & y2 & cm2 & -> & M1 & _) & _).
  apply Matches_rLit in M1 as [-> _]. exists (y2 +:+ x2).
  now rewrite ?append_assoc.
Qed.

Lemma allChars_head (p : ascii -> bool) (c : ascii) (x t : string) :
  allChars p (x +:+ String c t) = true -> p c = true.
Proof.
  rewrite allChars_append. cbn [allChars]. intros E.
  apply andb_true_iff in E as [_ E]. now apply andb_true_iff in E as [E _].
Qed.

Lemma isPathChar_dot (path : string) :
  allChars isPathChar path = true ->
  allChars (fun c => negb (isLineTerminator c)) path = true.
Proof.
  induction path as [|c path IH]; [reflexivity|]. cbn [allChars].
  intros E. apply andb_true_iff in E as [Ec E]. rewrite (IH E), andb_true_r.
  unfold isPathChar in Ec. apply andb_true_iff in Ec as [Ec _].
  now apply andb_true_iff in Ec as [Ec _].
Qed.

Section FileUrls.
Context `{StackEnv}.

(** X18: a file name that holds no [file:///] is left as it is, and a
    file name that is [file:///] followed by a path (without a colon, a
    closing parenthesis or a line terminator) is replaced by what
    [ts.sys.resolvePath] gives for the path. *)
Theorem resolveFileUrl_resolves_file_urls :
  (forall fileName,
      (forall pre post, fileName <> pre +:+ "file:///" +:+ post) ->
      resolveFileUrl fileName = fileName)
  /\ (forall path,
      allChars isPathChar path = true ->
      resolveFileUrl ("file:///" +:+ path) = resolvePath path).
Proof.
  split.
  - intros fileName No. unfold resolveFileUrl.
    destruct (exec fileUrlRegExp fileName) as [m|] eqn:E; [|reflexivity].
    exfalso.
    assert (X : search fileUrlRegExp None fileName <> None) by (unfold exec in E; congruence).
    apply search_accepts in X as (pre & x & post & -> & A).
    unfold fileUrlRegExp in A. cbn [rCat Accepts] in A.
    destruct A as (x1 & x2 & -> & (-> & _) & (x3 & x4 & -> & A3 & _)).
    apply Accepts_rLit in A3 as ->.
    apply (No pre (x4 +:+ post)). now rewrite ?append_assoc, ?append_nil_l.
  - intros path P. unfold resolveFileUrl, exec.
    assert (D : Decides Some (fun _ _ => True)).
    { intros st'. split; [auto|discriminate]. }
    assert (X : rmatch fileUrlRegExp Some
                  {| prev := None; rest := "file:///" +:+ path; caps := [] |} <> None).
    { apply (rmatch_complete fileUrlRegExp Some _ D). cbn [prev rest].
      exists ("file:///" +:+ path), "". split; [now rewrite append_nil_r|].
      split; [|exact I].
      unfold fileUrlRegExp. cbn [rCat].
      apply (Accepts_seq_intro _ _ _ _ "" ("file:///" +:+ path) "");
        [split; reflexivity| |symmetry; apply append_nil_l].
      eapply Accepts_seq_intro; [now apply Accepts_rLit| |reflexivity].
      eapply Accepts_seq_intro;
        [apply Accepts_group;
         apply (Iter_rChar (fun c => negb (isLineTerminator c)) _ path);
         now apply isPathChar_dot
        | |symmetry; apply append_nil_r].
      cbn [Accepts]. split; [reflexivity|]. exists "", "". split; [reflexivity|].
      exists "", "". split; [reflexivity|]. split; [constructor|].
      left. split; reflexivity. }
    destruct (rmatch fileUrlRegExp Some _) as [st|] eqn:E; [|congruence].
    assert (S : search fileUrlRegExp None ("file:///" +:+ path)
                = Some {| before := ""; final := st |}).
    { change ("file:///" +:+ path) with (String "f" ("ile:///" +:+ path)) in *.
      cbn [search]. now rewrite E. }
    rewrite S. cbn [before final]. rewrite append_nil_l.
    apply rmatch_sound in E as (x & s' & c' & p' & Ex & M & [= <-]).
    cbn [rest caps] in *. unfold group. cbn [final caps rest].
    unfold fileUrlRegExp in M. cbn [rCat] in M.
    destruct M as (x1 & x2 & c1 & -> & (-> & ->) &
                   (x3 & x4 & c3 & -> & M3 &
                    (x5 & x6 & c5 & -> & (c6 & M5 & ->) &
                     (-> & y & s'' & -> & My)))).
    apply Matches_rLit in M3 as [-> ->].
    apply Star_rChar in M5 as [_ ->].
    destruct My as (y1 & y2 & cy & -> & My1 & (cy2 & My2 & ->)).
    change (Star (Matches (rGroup 2 (rSeq (rLit ":") (rPlus rDigit))))
              y1 (y2 +:+ s'') [(1%nat, x5)] cy) in My1.
    rewrite ?append_nil_l, ?append_nil_r, ?append_assoc in Ex.
    apply append_cancel_l in Ex.
    assert (Ecy : cy2 = cy)
      by exact (Matches_noGroup (rAlt rEol (rLit ")")) eq_refl _ _ _ _ My2).
    subst cy2.
    assert (G : getCap 1 ((3%nat, y2) :: cy) = Some x5).
    { cbn [getCap Nat.eqb].
      rewrite (Star_group_getCap 2 1 (rSeq (rLit ":") (rPlus rDigit)) _ _ _ _
                 eq_refl ltac:(lia) My1).
      reflexivity. }
    rewrite G. cbn [coerce].
    assert (Hend : (y1 +:+ y2) +:+ s'' = "").
    { destruct (Star_colon_numbers _ _ _ _ My1) as [->|(t & ->)].
      - destruct My2 as [(-> & _ & ->)|My2]; [reflexivity|].
        apply Matches_rLit in My2 as [-> _]. exfalso.
        rewrite Ex in P. rewrite ?append_nil_l, ?append_assoc in P.
        apply allChars_head in P. discriminate.
      - exfalso. rewrite Ex in P. rewrite ?append_assoc in P.
        apply allChars_head in P. discriminate. }
    rewrite Hend. rewrite append_assoc in Hend. rewrite Hend in Ex.
    rewrite append_nil_r in Ex. subst x5. now rewrite append_nil_r.
Qed.

End FileUrls.

Lemma resolveFileUrl_witness :
  @resolveFileUrl sampleEnv "/a/b.js" = "/a/b.js"
  /\ @resolveFileUrl rootedEnv "file:///a/b.js" = "/root/a/b.js".
Proof.
  split.
  - apply (proj1 (@resolveFileUrl_resolves_file_urls sampleEnv)).
    intros pre post E.
    assert (X : test (rLit "file:///") "/a/b.js" = true).
    { apply test_accepts. exists pre, "file:///", post. split; [exact E|].
      now apply Accepts_rLit. }
    vm_compute in X. discriminate.
  - exact (proj2 (@resolveFileUrl_resolves_file_urls rootedEnv) "a/b.js" eq_refl).
Defined.

Section MoreFilterProperties.
Context `{StackEnv}.

(** X19: a text without frame lines (an error message alone, say) comes
    back from [filterStack] with its line ends ([\r\n], [\r] or [\n])
    turned into line feeds and is otherwise unchanged, whatever the
    options; the empty text comes back as it is. *)
Theorem filterStack_text_without_frames {V : Type} (opts : FilterStackOptions)
    (stack : string) (heap : gmap nat (ErrorObject V)) :
  forallb (fun line => negb (isFrameLine line)) (splitLines stack) = true ->
  filterStack (AString stack) opts heap
  = (AString (join newline (splitLines stack)), heap).
Proof.
  intros F. unfold filterStack. cbn [coerce].
  destruct stack as [|a stack]; [reflexivity|]. cbn [truthy].
  unfold filterStackText.
  destruct (kept_lines_written opts (splitLines (String a stack)) initialRun eq_refl)
    as (I1 & I2 & _).
  { apply List.Forall_forall. intros line Hin. left.
    pose proof (proj1 (forallb_forall _ _) F line Hin) as Hl.
    now apply negb_true_iff in Hl. }
  unfold flushRun. rewrite I2. change (0 >? 0) with false. cbn iota.
  rewrite I1. cbn [filtered initialRun app]. f_equal. f_equal.
  assert (Hid : forall lines,
            forallb (fun line => negb (isFrameLine line)) lines = true ->
            map (reformatted opts) lines = lines).
  { induction lines as [|l lines IH]; [reflexivity|]. cbn [forallb map].
    intros E. apply andb_true_iff in E as [El E]. apply negb_true_iff in El.
    now rewrite (reformatted_other opts l El), (IH E). }
  now rewrite Hid.
Qed.

(** X20: what [parseStackFrame] accepts.  A frame line starts with
    four blanks and [at ] and holds no line terminator.  A frame that was
    parsed without a function name (the position is a bare location) has
    either an eval origin or a file name that is a rooted disk path: a
    line such as [    at lib/a.js:1:1] is not a frame line. *)
Theorem parseStackFrame_accepts (line : string) (frame : StackFrame) :
  parseStackFrame line = Some frame ->
  (exists position,
      line = "    at " +:+ position /\ noLineBreak position = true)
  /\ (functionName frame = None ->
      evalOrigin frame <> None
      \/ (truthy (fileName frame) = true
          /\ isRootedDiskPath (coerce (fileName frame)) = true)).
Proof.
  unfold parseStackFrame. cbn [parseStackFrameFuel].
  destruct (exec frameLineRegExp line) as [m|] eqn:E; [|discriminate].
  apply exec_frameLineRegExp in E as (position & -> & G & D).
  rewrite G. cbn [coerce]. intros P.
  split; [exists position; split; [reflexivity|exact D]|].
  destruct (exec positionRegExp position) as [m'|] eqn:E'.
  - apply exec_positionRegExp in E' as (a & n & t & f & mth & loc & _ & _ & _ & _ & G4 & _).
    assert (F : functionName frame = group 4 m').
    { apply (f_equal (fun o => match o with
                               | Some fr => functionName fr
                               | None => None
                               end)) in P.
      symmetry. exact P. }
    rewrite F, G4. discriminate.
  - destruct (parseStackFrameLocationWith _ position) as [location|]; [|discriminate].
    destruct (evalOrigin location) as [origin|] eqn:Eo; cbn [orb] in P.
    + assert (F : location = frame) by congruence. subst frame.
      intros _. left. rewrite Eo. discriminate.
    + destruct (truthy (fileName location) && _) eqn:R; [|discriminate].
      assert (F : location = frame) by congruence. subst frame.
      intros _. right. now apply andb_true_iff in R.
Qed.

End MoreFilterProperties.

Lemma filterStack_text_witness :
  @filterStack sampleEnv unit
    (AString ("TypeError: x is not a function" +:+ CRLF +:+ "  in module y"))
    excludeFileA ∅
  = (AString (join newline ["TypeError: x is not a function"; "  in module y"]), ∅).
Proof.
  rewrite (@filterStack_text_without_frames sampleEnv unit excludeFileA _ ∅);
    vm_compute; reflexivity.
Defined.

Lemma parseStackFrame_accepts_witness :
  (exists position,
      "    at /lib/a.js:1:1" = "    at " +:+ position /\ noLineBreak position = true)
  /\ @parseStackFrame sampleEnv "    at lib/a.js:1:1" = None.
Proof.
  split; [|vm_compute; reflexivity].
  destruct (@parseStackFrame sampleEnv "    at /lib/a.js:1:1") as [frame|] eqn:P;
    [|vm_compute in P; discriminate].
  exact (proj1 (@parseStackFrame_accepts sampleEnv _ frame P)).
Defined.

(** ** Deprecated functions *)

Section WrapProperties.
Context {H : Type} `{LoggingHost H}.

Variable formatStringFromArgs : string -> list string -> number -> string.

(** X21: a function wrapped by [deprecateFunction].  With
    [options.error] every call fails with the deprecation error and the
    function itself never runs.  Otherwise the first call hands the
    deprecation message to the logger with severity Warning and then runs
    the function, and every later call is a plain call of the function.
    The message names the function by [getFunctionName]. *)
Theorem deprecateFunction_calls {A B : Type} (func : JsFunction H A B)
    (o : option DeprecationOptions) (arguments : A) (w : DebugState H) :
  let f := deprecateFunction formatStringFromArgs func o in
  let text := formattedMessage (wrapped_deprecation f) in
  let f' := {| wrapped_deprecation := warned (wrapped_deprecation f);
               wrapped_func := wrapped_func f |} in
  (if errorIsSet o
   then callWrapped f arguments w
        = (Throw (mkError ("Debug Failure. " +:+ text) fn_handleDeprecation), f, w)
   else callWrapped f arguments w
        = (let '(r, w') := fn_call func arguments (snd (logMessage Warning text w)) in
           (r, f', w'))
        /\ forall w1,
             callWrapped f' arguments w1
             = (let '(r, w') := fn_call func arguments w1 in (r, f', w')))
  /\ (o = None ->
      text = "DeprecationWarning: '" +:+ getFunctionName (Some func)
             +:+ "' is deprecated.").
Proof using Type.
  intros f text f'. split.
  2:{ intros ->. unfold text, f, deprecateFunction, wrapFunction, createDeprecation.
      cbn [wrapped_deprecation formattedMessage default error since until message
           isSet truthy].
      rewrite ?append_assoc, ?append_nil_r. reflexivity. }
  unfold callWrapped. cbn [wrapped_deprecation wrapped_func f f' deprecateFunction
    wrapFunction].
  set (d := createDeprecation formatStringFromArgs (getFunctionName (Some func)) o).
  pose proof (createDeprecation_error formatStringFromArgs
                (getFunctionName (Some func)) o) as E. fold d in E.
  destruct (errorIsSet o).
  - rewrite (handleDeprecation_error d w E
               (createDeprecation_message_nonempty formatStringFromArgs _ o)).
    reflexivity.
  - split.
    + rewrite (handleDeprecation_first d w E eq_refl).
      destruct (fn_call func arguments _) as [r w']. reflexivity.
    + intros w1. rewrite (handleDeprecation_later (warned d) w1 E eq_refl).
      destruct (fn_call func arguments w1) as [r w']. reflexivity.
Qed.

End WrapProperties.

(** A function that answers the double of its argument and changes
    nothing. *)
Lemma deprecateFunction_witness :
  let w : DebugState (list (LogLevel * string)) :=
    {| currentAssertionLevel := 0; currentLogLevel := Warning;
       isDebugging := false; loggingHost := Some [] |} in
  let double : JsFunction (list (LogLevel * string)) number number :=
    {| fn_ownName := Some (Some "double"); fn_text := "function double(n) { }";
       fn_call := fun n => ret (2 * n) |} in
  let f := deprecateFunction (fun text _ _ => text) double None in
  fst (fst (callWrapped f 21 w)) = Ok 42
  /\ loggingHost (snd (callWrapped f 21 w))
     = Some [(Warning, "DeprecationWarning: 'double' is deprecated.")]
  /\ snd (callWrapped (snd (fst (callWrapped f 21 w))) 21
            (snd (callWrapped f 21 w)))
     = snd (callWrapped f 21 w).
Proof.
  intros w double f.
  destruct (deprecateFunction_calls (fun text _ _ => text) double None 21 w)
    as [[First Later] _].
  fold f in First, Later. rewrite First. cbn [fn_call double ret fst snd].
  split; [reflexivity|]. split; [reflexivity|].
  rewrite Later. reflexivity.
Defined.

(** ** Deprecated properties *)

Lemma insert_last {A : Type} (l : list A) (x y : A) :
  <[length l := y]> (l ++ [x])%list = (l ++ [y])%list.
Proof.
  rewrite insert_app_r_alt by reflexivity. now rewrite Nat.sub_diag.
Qed.

Section PropertyProperties.
Context {H : Type} `{LoggingHost H} {V : Type}.

Variable formatStringFromArgs : string -> list string -> number -> string.

Implicit Types (ns : gmap string (PropertyDescriptor H V)) (s : Store H V)
  (desc : PropertyDescriptor H V).

Lemma runDeprecation_first (l : list Deprecation) (d : Deprecation)
    (vs : list (option V)) (w : DebugState H) :
  isSet (error (options d)) = false -> hasWrittenDeprecation d = false ->
  runDeprecation (length l)
    {| deprecations := (l ++ [d])%list; values := vs; debug := w |}
  = (Ok tt, {| deprecations := (l ++ [warned d])%list; values := vs;
               debug := snd (logMessage Warning (formattedMessage d) w) |}).
Proof.
  intros E F. unfold runDeprecation. cbn [deprecations values debug].
  rewrite list_lookup_middle by reflexivity.
  rewrite (handleDeprecation_first d w E F).
  rewrite insert_last. reflexivity.
Qed.

Lemma runDeprecation_later (l : list Deprecation) (d : Deprecation)
    (vs : list (option V)) (w : DebugState H) :
  isSet (error (options d)) = false -> hasWrittenDeprecation d = true ->
  runDeprecation (length l)
    {| deprecations := (l ++ [d])%list; values := vs; debug := w |}
  = (Ok tt, {| deprecations := (l ++ [d])%list; values := vs; debug := w |}).
Proof.
  intros E F. unfold runDeprecation. cbn [deprecations values debug].
  rewrite list_lookup_middle by reflexivity.
  rewrite (handleDeprecation_later d w E F).
  rewrite insert_last. reflexivity.
Qed.

Lemma runDeprecation_error (l : list Deprecation) (d : Deprecation)
    (vs : list (option V)) (w : DebugState H) :
  isSet (error (options d)) = true -> truthy (Some (formattedMessage d)) = true ->
  runDeprecation (length l)
    {| deprecations := (l ++ [d])%list; values := vs; debug := w |}
  = (Throw (mkError ("Debug Failure. " +:+ formattedMessage d) fn_handleDeprecation),
     {| deprecations := (l ++ [d])%list; values := vs; debug := w |}).
Proof.
  intros E T. unfold runDeprecation. cbn [deprecations values debug].
  rewrite list_lookup_middle by reflexivity.
  rewrite (handleDeprecation_error d w E T).
  rewrite insert_last. reflexivity.
Qed.

(** X22: the edges of [deprecateProperty].  For a key that is not
    an own property of the object it does nothing; for a property that is
    not configurable it fails with the [TypeError] of
    [Object.defineProperty] and leaves the object as it was; and
    [deprecateProperties] over keys none of which is an own property does
    nothing. *)
Theorem deprecateProperty_edges ns (key : string) (o : option DeprecationOptions) s :
  (ns !! key = None ->
   deprecateProperty formatStringFromArgs ns key o s = (Ok tt, ns, s))
  /\ (forall desc,
        ns !! key = Some desc -> desc_configurable desc = false ->
        exists s',
          deprecateProperty formatStringFromArgs ns key o s = (Throw TypeError, ns, s')
          /\ debug s' = debug s)
  /\ (forall keys,
        Forall (fun k => ns !! k = None) keys ->
        deprecateProperties formatStringFromArgs ns keys o s = (Ok tt, ns, s)).
Proof.
  split; [|split].
  - intros E. unfold deprecateProperty. now rewrite E.
  - intros desc E C. unfold deprecateProperty, defineProperty. rewrite E, C.
    destruct (desc_get desc), (desc_set desc); cbn; eauto.
  - intros keys F. induction F as [|k keys E _ IH]; [reflexivity|].
    cbn [deprecateProperties]. unfold deprecateProperty. rewrite E. exact IH.
Qed.

(** X23: a configurable data property with the value [v], after
    [deprecateProperty] without [options.error].  Every other property of
    the object is as it was; the property keeps its [enumerable] flag and
    stays configurable.  Reading it gives [v]; the first access hands the
    deprecation message to the logger with severity Warning, and a later
    one changes nothing.  If the property was writable, an assignment is
    accepted and a read after it gives the value assigned; if it was not,
    an assignment is still rejected. *)
Theorem deprecated_value_property ns (key : string) desc
    (o : option DeprecationOptions) s :
  ns !! key = Some desc ->
  desc_get desc = None -> desc_set desc = None ->
  desc_configurable desc = true ->
  errorIsSet o = false ->
  exists ns' s1 s2,
    deprecateProperty formatStringFromArgs ns key o s = (Ok tt, ns', s1)
    /\ debug s1 = debug s
    /\ (forall other, other <> key -> ns' !! other = ns !! other)
    /\ (exists desc', ns' !! key = Some desc'
                      /\ desc_enumerable desc' = desc_enumerable desc
                      /\ desc_configurable desc' = true)
    /\ getProperty ns' key s1 = (Ok (desc_value desc), s2)
    /\ debug s2 = snd (logMessage Warning
                         (formattedMessage (createDeprecation formatStringFromArgs key o))
                         (debug s))
    /\ getProperty ns' key s2 = (Ok (desc_value desc), s2)
    /\ (desc_writable desc = true ->
        forall v, exists s3,
          setProperty ns' key v s2 = (Ok true, ns', s3)
          /\ debug s3 = debug s2
          /\ getProperty ns' key s3 = (Ok v, s3))
    /\ (desc_writable desc = false ->
        forall v, setProperty ns' key v s2 = (Ok false, ns', s2)).
Proof using Type.
  intros E G S C O.
  set (d := createDeprecation formatStringFromArgs key o).
  pose proof (createDeprecation_error formatStringFromArgs key o) as Ed.
  fold d in Ed. rewrite O in Ed.
  unfold deprecateProperty, defineProperty, wrapValue. rewrite E, G, S, C.
  cbn [deprecations values debug desc_configurable]. fold d.
  do 3 eexists. split; [reflexivity|]. split; [reflexivity|].
  split; [intros other N; now rewrite lookup_insert_ne|].
  split.
  { eexists. rewrite lookup_insert_eq. split; [reflexivity|].
    split; reflexivity. }
  unfold getProperty, setProperty. rewrite !lookup_insert_eq.
  cbn [desc_get desc_set desc_writable callGetter callSetter].
  rewrite (runDeprecation_first _ d _ _ Ed eq_refl).
  cbn [values]. rewrite list_lookup_middle by reflexivity. cbn [default].
  split; [reflexivity|]. split; [reflexivity|].
  rewrite (runDeprecation_later _ (warned d) _ _ Ed eq_refl).
  cbn [values]. rewrite list_lookup_middle by reflexivity. cbn [default].
  split; [reflexivity|]. split.
  - intros W v. rewrite W. cbn [callSetter].
    rewrite (runDeprecation_later _ (warned d) _ _ Ed eq_refl).
    cbn [deprecations values debug].
    rewrite insert_last.
    eexists. split; [reflexivity|]. split; [reflexivity|].
    cbn [callGetter].
    rewrite (runDeprecation_later _ (warned d) _ _ Ed eq_refl).
    cbn [values]. rewrite list_lookup_middle by reflexivity. reflexivity.
  - intros W v. rewrite W. reflexivity.
Qed.

(** X24: a configurable property with a getter, after
    [deprecateProperty].  With [options.error], reading the property fails
    with the deprecation error and the getter is not called.  Otherwise
    the first read hands the deprecation message to the logger and then
    calls the getter, and a read after a first access calls the getter
    and nothing else.  A property without a setter stays without one. *)
Theorem deprecated_accessor_property ns (key : string) desc (get : Getter H V)
    (o : option DeprecationOptions) s :
  ns !! key = Some desc ->
  desc_get desc = Some get ->
  desc_configurable desc = true ->
  let text := formattedMessage (createDeprecation formatStringFromArgs key o) in
  exists ns' s1,
    deprecateProperty formatStringFromArgs ns key o s = (Ok tt, ns', s1)
    /\ debug s1 = debug s
    /\ (if errorIsSet o
        then getProperty ns' key s1
             = (Throw (mkError ("Debug Failure. " +:+ text) fn_handleDeprecation), s1)
        else exists s2,
               runDeprecation (length (deprecations s)) s1 = (Ok tt, s2)
               /\ debug s2 = snd (logMessage Warning text (debug s))
               /\ getProperty ns' key s1 = callGetter get s2
               /\ getProperty ns' key s2 = callGetter get s2)
    /\ (desc_set desc = None ->
        forall v s', setProperty ns' key v s' = (Ok false, ns', s')).
Proof using Type.
  intros E G C text.
  set (d := createDeprecation formatStringFromArgs key o) in *.
  pose proof (createDeprecation_error formatStringFromArgs key o) as Ed.
  fold d in Ed.
  unfold deprecateProperty, defineProperty. rewrite E, G, C.
  cbn [deprecations values debug desc_configurable]. fold d.
  do 2 eexists. split; [reflexivity|]. split; [reflexivity|].
  unfold getProperty, setProperty. rewrite !lookup_insert_eq.
  cbn [wrapAccessor desc_get desc_set]. rewrite G. cbn [fmap option_fmap option_map].
  split.
  - destruct (errorIsSet o).
    + cbn [callGetter].
      rewrite (runDeprecation_error _ d _ _ Ed
                 (createDeprecation_message_nonempty formatStringFromArgs key o)).
      reflexivity.
    + eexists. split; [apply (runDeprecation_first _ d _ _ Ed eq_refl)|].
      split; [reflexivity|]. cbn [callGetter].
      rewrite (runDeprecation_first _ d _ _ Ed eq_refl).
      rewrite (runDeprecation_later _ (warned d) _ _ Ed eq_refl). split; reflexivity.
  - intros S v s'. rewrite S. reflexivity.
Qed.

End PropertyProperties.

Lemma deprecateProperty_edges_witness :
  deprecateProperty (fun text _ _ => text) versionObject
    "release" None emptyStore
  = (Ok tt, versionObject, emptyStore)
  /\ exists s',
       deprecateProperty (fun text _ _ => text) frozenObject
         "frozen" None emptyStore
       = (Throw TypeError, frozenObject, s')
       /\ debug s' = debug emptyStore.
Proof.
  split.
  - apply (proj1 (deprecateProperty_edges (fun text _ _ => text)
                    versionObject "release" None emptyStore)).
    vm_compute. reflexivity.
  - apply (proj1 (proj2 (deprecateProperty_edges (fun text _ _ => text)
                           frozenObject "frozen" None emptyStore))
             frozenProperty).
    + vm_compute. reflexivity.
    + reflexivity.
Defined.

Lemma deprecated_value_property_witness :
  exists ns' s1 s2 s3,
    deprecateProperty (fun text _ _ => text) versionObject
      "version" None emptyStore = (Ok tt, ns', s1)
    /\ getProperty ns' "version" s1 = (Ok (Some 3), s2)
    /\ loggingHost (debug s2)
       = Some [(Warning, "DeprecationWarning: 'version' is deprecated.")]
    /\ setProperty ns' "version" (Some 4) s2 = (Ok true, ns', s3)
    /\ getProperty ns' "version" s3 = (Ok (Some 4), s3)
    /\ debug s3 = debug s2.
Proof.
  destruct (deprecated_value_property (fun text _ _ => text)
              versionObject "version" versionProperty None
              emptyStore ltac:(vm_compute; reflexivity) eq_refl eq_refl eq_refl eq_refl)
    as (ns' & s1 & s2 & D & _ & _ & _ & G1 & L & _ & W & _).
  destruct (W eq_refl (Some 4)) as (s3 & S3 & L3 & G3).
  exists ns', s1, s2, s3.
  split; [exact D|]. split; [exact G1|].
  split; [rewrite L; reflexivity|].
  split; [exact S3|]. split; [exact G3|exact L3].
Defined.

Lemma deprecated_accessor_property_witness :
  exists ns' s1,
    deprecateProperty (fun text _ _ => text) sizeObject
      "size" None emptyStore = (Ok tt, ns', s1)
    /\ fst (getProperty ns' "size" s1) = Ok (Some 7)
    /\ loggingHost (debug (snd (getProperty ns' "size" s1)))
       = Some [(Warning, "DeprecationWarning: 'size' is deprecated.")]
    /\ setProperty ns' "size" (Some 8) s1 = (Ok false, ns', s1).
Proof.
  destruct (deprecated_accessor_property (fun text _ _ => text)
              sizeObject "size" sizeProperty
              (GetOriginal
                 {| fn_ownName := Some (Some "get size");
                    fn_text := "get size() { return 7; }";
                    fn_call := fun _ => ret (Some 7) |})
              None emptyStore ltac:(vm_compute; reflexivity) eq_refl eq_refl)
    as (ns' & s1 & D & _ & (s2 & R & L & G1 & _) & W).
  exists ns', s1. rewrite G1. cbn [callGetter fn_call ret fst snd debug].
  split; [exact D|]. split; [reflexivity|].
  split; [rewrite L; reflexivity|]. apply W. reflexivity.
Defined.

(** ** Every line of the stack is accounted for *)

Section Accounting.
Context `{StackEnv}.
Implicit Types (opts : FilterStackOptions) (run : FilterRun) (line : string).

Lemma concat_expand_snoc (items : list OutputItem) (item : OutputItem) :
  concat (map expand (items ++ [item])) = (concat (map expand items) ++ expand item)%list.
Proof. rewrite map_app, concat_app. cbn. now rewrite app_nil_r. Qed.

Lemma Accounted_step opts (read : list string) run line :
  Accounted opts read run ->
  Accounted opts (read ++ [line]) (filterLine opts run line).
Proof.
  intros (items & pending & F & W & C & P & L & R & Perm).
  destruct (isFrameLine line) eqn:Fl.
  - destruct (isKeptLine opts (frameCount run) line) eqn:K.
    + rewrite (filterLine_kept opts run line K).
      destruct pending as [|p pending].
      * exists (items ++ [Written line])%list, [].
        cbn [filtered excludedFrameCount lastFrameWasExcluded lastExcludedFrame].
        rewrite C. cbn [length]. change (Z.of_nat 0 >? 0) with false. cbn iota.
        rewrite F, map_app. cbn [map render].
        split; [reflexivity|]. split; [apply Forall_app; split; [exact W|]; now repeat constructor|].
        split; [reflexivity|]. split; [constructor|]. split; [reflexivity|].
        split; [discriminate|].
        rewrite concat_expand_snoc, app_nil_r. cbn [expand].
        rewrite app_nil_r in Perm. now rewrite Perm.
      * exists (items ++ [Skipped (p :: pending); Written line])%list, [].
        cbn [filtered excludedFrameCount lastFrameWasExcluded lastExcludedFrame].
        rewrite C.
        assert (Pos : (Z.of_nat (length (p :: pending)) >? 0) = true)
          by (apply Z.gtb_lt; cbn [length]; lia).
        rewrite Pos. rewrite F, <- app_assoc, map_app. cbn [map render app].
        split; [reflexivity|].
        split; [apply Forall_app; split; [exact W|]|].
        { constructor; [split; [discriminate|exact P]|]. now repeat constructor. }
        split; [reflexivity|]. split; [constructor|]. split; [reflexivity|].
        split; [discriminate|].
        rewrite map_app, concat_app. cbn [map expand concat].
        rewrite !app_nil_r, app_assoc. now rewrite Perm.
    + assert (E : isExcludedLine opts (frameCount run) line = true).
      { rewrite (frame_line_cases opts _ line Fl), K. reflexivity. }
      destruct (lastFrameWasExcluded run) eqn:Lx.
      * rewrite (filterLine_excluded_next opts run line E Lx).
        exists items, (pending ++ [line])%list.
        cbn [filtered excludedFrameCount lastFrameWasExcluded lastExcludedFrame].
        split; [exact F|]. split; [exact W|].
        split; [rewrite C, length_app; cbn [length]; lia|].
        split; [apply Forall_app; split; [exact P|]; now repeat constructor|].
        split; [discriminate|].
        split; [intros l El; rewrite last_snoc in El; now injection El as <-|].
        rewrite app_assoc. now rewrite Perm.
      * rewrite (filterLine_excluded_first opts run line E Lx).
        rewrite (L eq_refl) in *.
        exists (items ++ [Written line])%list, [].
        cbn [filtered excludedFrameCount lastFrameWasExcluded lastExcludedFrame].
        rewrite F, map_app. cbn [map render].
        split; [reflexivity|].
        split; [apply Forall_app; split; [exact W|]; now repeat constructor|].
        split; [exact C|]. split; [constructor|]. split; [reflexivity|].
        split; [discriminate|].
        rewrite concat_expand_snoc, app_nil_r. cbn [expand].
        rewrite app_nil_r in Perm. now rewrite Perm.
  - rewrite (filterLine_other opts run line) by now apply frameOf_None.
    exists (items ++ [Written line])%list, pending.
    cbn [filtered excludedFrameCount lastFrameWasExcluded lastExcludedFrame].
    rewrite F, map_app. cbn [map render].
    rewrite (reformatted_other opts line Fl).
    split; [reflexivity|].
    split; [apply Forall_app; split; [exact W|]; now repeat constructor|].
    split; [exact C|]. split; [exact P|]. split; [exact L|]. split; [exact R|].
    rewrite concat_expand_snoc. cbn [expand].
    rewrite <- Perm, <- !app_assoc. apply Permutation_app_head, Permutation_app_comm.
Qed.

(** X25: the filter accounts for every line of the stack.  The lines
    of the result can be read as items, a written line standing for one
    line of the stack (itself, or the frame line it was made from) and a
    line [... skipping N frame(s) ...] standing for [N] frame lines, with
    [N] at least 1, such that every line of the stack is stood for exactly
    once: no frame is dropped without being counted, and none is counted
    and written. *)
Theorem filterStack_accounts_for_every_line opts (lines : list string) :
  exists items,
    outputLines opts lines = map (render opts) items
    /\ Forall countsFrames items
    /\ Permutation (concat (map expand items)) lines.
Proof.
  assert (G : forall rest' read run,
             Accounted opts read run ->
             Accounted opts (read ++ rest') (fold_left (filterLine opts) rest' run)).
  { induction rest' as [|line rest' IH]; intros read run A.
    - now rewrite app_nil_r.
    - cbn [fold_left].
      change (line :: rest') with ([line] ++ rest')%list. rewrite app_assoc.
      apply IH. now apply Accounted_step. }
  destruct (G lines [] initialRun) as (items & pending & F & W & C & P & L & R & Perm).
  { exists [], []. cbn. repeat split; try constructor. discriminate. }
  cbn [app] in Perm. unfold outputLines, runAfter, flushRun.
  set (run := fold_left (filterLine opts) lines initialRun) in *.
  destruct (Z.gtb_spec (excludedFrameCount run) 0) as [Pos|NPos].
  - destruct pending as [|l init _] using rev_ind; [cbn in C; lia|].
    rewrite (R l (last_snoc _ _)). cbn [coerce].
    apply Forall_app in P as [Pi Pl]. inversion Pl as [|? ? Fl _]; subst.
    pose proof (reformatted_frame_truthy opts l Fl) as T. rewrite T.
    rewrite C, length_app. cbn [length].
    replace (Z.of_nat (length init + 1) - 1) with (Z.of_nat (length init)) by lia.
    destruct init as [|i init].
    + exists (items ++ [Written l])%list.
      change (Z.of_nat (length (@nil string)) >? 0) with false. cbn iota.
      rewrite F, map_app. cbn [map render].
      split; [reflexivity|].
      split; [apply Forall_app; split; [exact W|]; now repeat constructor|].
      rewrite concat_expand_snoc. cbn [expand]. exact Perm.
    + exists (items ++ [Skipped (i :: init); Written l])%list.
      assert (Pos' : (Z.of_nat (length (i :: init)) >? 0) = true)
        by (apply Z.gtb_lt; cbn [length]; lia).
      rewrite Pos'. rewrite F, <- app_assoc, map_app. cbn [map render app].
      split; [reflexivity|].
      split; [apply Forall_app; split; [exact W|]|].
      { constructor; [split; [discriminate|exact Pi]|]. now repeat constructor. }
      rewrite map_app, concat_app. cbn [map expand concat].
      rewrite !app_nil_r. exact Perm.
  - destruct pending as [|p pending]; [|cbn [length] in C; lia].
    exists items. rewrite app_nil_r in Perm. auto.
Qed.

End Accounting.

Lemma filterStack_accounts_witness :
  exists items,
    @outputLines sampleEnv excludeFileA threeExcludedOneKept
    = map (@render sampleEnv excludeFileA) items
    /\ Forall (@countsFrames sampleEnv) items
    /\ Permutation (concat (map expand items)) threeExcludedOneKept.
Proof.
  exact (@filterStack_accounts_for_every_line sampleEnv excludeFileA threeExcludedOneKept).
Defined.

(** ** The failure of a node assertion *)

Section NodeFailures.
Context {H : Type} `{LoggingHost H}.


End NodeFailures.

